(** * gobrick: domain primitives and their structured error type

    A shallow embedding of the Go packages [msg] and [types] of
    [github.com/marcelofabianov/gobrick], together with the parts of the Go
    standard library the two packages call ([unicode/utf8], [strings],
    [strconv], [time], [encoding/json], [regexp]) and of [google/uuid].

    Conventions.
    - A Go [string] is a Rocq [string]: a sequence of bytes.  [len] is the
      byte length; runes are decoded from the bytes as [unicode/utf8] does.
    - A Go [int] is a [Z]; the platform is taken to be a 64-bit one.
    - A function returning [(T, error)] returns a pair whose second component
      is [None] for a [nil] error.  A method with a pointer receiver takes the
      receiver's value and returns the updated value next to the error.
    - [interface{}] / [driver.Value] is the inductive type [any]. *)

From Stdlib Require Import ZArith Lia String Ascii List Bool.
From stdpp Require Import base option list gmap strings.
Import ListNotations.
Open Scope Z_scope.
Set Warnings "-register-all".

(** ** Bytes and strings *)

Definition byte (c : ascii) : Z := Z.of_N (N_of_ascii c).
Definition chr (b : Z) : ascii := ascii_of_N (Z.to_N b).
Definition bytes (s : string) : list ascii := list_ascii_of_string s.
Definition str (l : list ascii) : string := string_of_list_ascii l.
Definition len (s : string) : Z := Z.of_nat (String.length s).

Definition isDigit (c : ascii) : bool := (48 <=? byte c) && (byte c <=? 57).
Definition isUpperASCII (c : ascii) : bool := (65 <=? byte c) && (byte c <=? 90).
Definition isLowerASCII (c : ascii) : bool := (97 <=? byte c) && (byte c <=? 122).

(** ** Package unicode/utf8 *)
Module utf8.

Definition RuneError : Z := 0xFFFD.
Definition RuneSelf : Z := 0x80.
Definition MaxRune : Z := 0x10FFFF.
Definition UTFMax : Z := 4.

Definition locb : Z := 0x80.
Definition hicb : Z := 0xBF.
Definition maskx : Z := 0x3F.
Definition mask2 : Z := 0x1F.
Definition mask3 : Z := 0x0F.
Definition mask4 : Z := 0x07.

(** The table [first] with its accept ranges: what the first byte of a
    sequence says about the sequence. *)
Inductive firstInfo :=
  | fASCII
  | fInvalid
  | fMulti (sz : nat) (lo hi : Z).

Definition first (b : Z) : firstInfo :=
  if b <? 0x80 then fASCII
  else if b <? 0xC2 then fInvalid
  else if b <? 0xE0 then fMulti 2 locb hicb
  else if b =? 0xE0 then fMulti 3 0xA0 hicb
  else if b <? 0xED then fMulti 3 locb hicb
  else if b =? 0xED then fMulti 3 locb 0x9F
  else if b <? 0xF0 then fMulti 3 locb hicb
  else if b =? 0xF0 then fMulti 4 0x90 hicb
  else if b <? 0xF4 then fMulti 4 locb hicb
  else if b =? 0xF4 then fMulti 4 locb 0x8F
  else fInvalid.

Definition contb (b : Z) : bool := (locb <=? b) && (b <=? hicb).

(** [DecodeRuneInString]: the first rune of [s] and its width in bytes;
    [(RuneError, 1)] for an invalid encoding, [(RuneError, 0)] for the empty
    string. *)
Definition DecodeRune (s : list ascii) : Z * nat :=
  match s with
  | [] => (RuneError, 0%nat)
  | c0 :: t0 =>
    let s0 := byte c0 in
    match first s0 with
    | fASCII => (s0, 1%nat)
    | fInvalid => (RuneError, 1%nat)
    | fMulti sz lo hi =>
      if (length s <? sz)%nat then (RuneError, 1%nat) else
      match t0 with
      | [] => (RuneError, 1%nat)
      | c1 :: t1 =>
        let s1 := byte c1 in
        if (s1 <? lo) || (hi <? s1) then (RuneError, 1%nat) else
        if (sz <=? 2)%nat then
          (Z.lor (Z.shiftl (Z.land s0 mask2) 6) (Z.land s1 maskx), 2%nat)
        else
        match t1 with
        | [] => (RuneError, 1%nat)
        | c2 :: t2 =>
          let s2 := byte c2 in
          if negb (contb s2) then (RuneError, 1%nat) else
          if (sz <=? 3)%nat then
            (Z.lor (Z.lor (Z.shiftl (Z.land s0 mask3) 12)
                          (Z.shiftl (Z.land s1 maskx) 6))
                   (Z.land s2 maskx), 3%nat)
          else
          match t2 with
          | [] => (RuneError, 1%nat)
          | c3 :: _ =>
            let s3 := byte c3 in
            if negb (contb s3) then (RuneError, 1%nat) else
            (Z.lor (Z.lor (Z.lor (Z.shiftl (Z.land s0 mask4) 18)
                                 (Z.shiftl (Z.land s1 maskx) 12))
                          (Z.shiftl (Z.land s2 maskx) 6))
                   (Z.land s3 maskx), 4%nat)
          end
        end
      end
    end
  end.

(** [RuneStart]: the byte is not a continuation byte. *)
Definition RuneStart (b : Z) : bool := negb (Z.land b 0xC0 =? 0x80).

(** The backwards scan of [DecodeLastRuneInString] for a start byte, from
    index [start] down to [lim]. *)
Fixpoint scanStart (fuel : nat) (s : list ascii) (start lim : Z) : Z :=
  match fuel with
  | O => start
  | S fuel' =>
    if start <? lim then start
    else if RuneStart (byte (nth (Z.to_nat start) s zero)) then start
    else scanStart fuel' s (start - 1) lim
  end.

(** [DecodeLastRuneInString]. *)
Definition DecodeLastRune (s : list ascii) : Z * nat :=
  let end_ := Z.of_nat (length s) in
  if end_ =? 0 then (RuneError, 0%nat) else
  let start := end_ - 1 in
  let r := byte (nth (Z.to_nat start) s zero) in
  if r <? RuneSelf then (r, 1%nat) else
  let lim := Z.max 0 (end_ - UTFMax) in
  let start := scanStart 4 s (start - 1) lim in
  let start := Z.max 0 start in
  let '(r, size) := DecodeRune (drop (Z.to_nat start) s) in
  if negb (start + Z.of_nat size =? end_) then (RuneError, 1%nat)
  else (r, size).

(** [AppendRune] / [EncodeRune]: the UTF-8 encoding of a rune; a rune out of
    range or a surrogate is encoded as [RuneError]. *)
Definition t2 : Z := 0xC0.
Definition t3 : Z := 0xE0.
Definition t4 : Z := 0xF0.
Definition tx : Z := 0x80.

Definition encode3 (r : Z) : list ascii :=
  [chr (Z.lor t3 (Z.shiftr r 12));
   chr (Z.lor tx (Z.land (Z.shiftr r 6) maskx));
   chr (Z.lor tx (Z.land r maskx))].

Definition EncodeRune (r : Z) : list ascii :=
  if (0 <=? r) && (r <=? 0x7F) then [chr r]
  else if (0 <=? r) && (r <=? 0x7FF) then
    [chr (Z.lor t2 (Z.shiftr r 6)); chr (Z.lor tx (Z.land r maskx))]
  else if (r <? 0) || (MaxRune <? r) || ((0xD800 <=? r) && (r <=? 0xDFFF)) then
    encode3 RuneError
  else if r <=? 0xFFFF then encode3 r
  else
    [chr (Z.lor t4 (Z.shiftr r 18));
     chr (Z.lor tx (Z.land (Z.shiftr r 12) maskx));
     chr (Z.lor tx (Z.land (Z.shiftr r 6) maskx));
     chr (Z.lor tx (Z.land r maskx))].

(** [RuneCountInString]: an invalid byte counts as one rune of width 1. *)
Fixpoint countRunes (fuel : nat) (s : list ascii) : Z :=
  match fuel with
  | O => 0
  | S fuel' =>
    match s with
    | [] => 0
    | _ => 1 + countRunes fuel' (drop (snd (DecodeRune s)) s)
    end
  end.

Definition RuneCountInString (s : string) : Z :=
  countRunes (String.length s) (bytes s).

End utf8.

(** ** Package unicode *)
Module unicode.

Definition MaxASCII : Z := 0x7F.
Definition MaxLatin1 : Z := 0xFF.

(** [IsSpace]: the Latin-1 spaces and the rest of the White_Space table. *)
Definition IsSpace (r : Z) : bool :=
  if (0 <=? r) && (r <=? MaxLatin1) then
    ((0x09 <=? r) && (r <=? 0x0D)) || (r =? 0x20) || (r =? 0x85) || (r =? 0xA0)
  else
    (r =? 0x1680) || ((0x2000 <=? r) && (r <=? 0x200A))
    || (r =? 0x2028) || (r =? 0x2029) || (r =? 0x202F)
    || (r =? 0x205F) || (r =? 0x3000).

(** The case-mapping tables of the package for runes above [MaxASCII]
    ([CaseRanges]) are not part of the repository; they are taken as
    functions. *)
Class CaseTables := {
  lowerTable : Z -> Z;
  upperTable : Z -> Z
}.

Definition ToLower `{CaseTables} (r : Z) : Z :=
  if r <=? MaxASCII then
    if (65 <=? r) && (r <=? 90) then r + 32 else r
  else lowerTable r.

Definition ToUpper `{CaseTables} (r : Z) : Z :=
  if r <=? MaxASCII then
    if (97 <=? r) && (r <=? 122) then r - 32 else r
  else upperTable r.

End unicode.

(** ** Package strings *)
Module strings.

(** [indexFunc s f false] as used by [TrimLeftFunc]: drop runes while [f]
    holds. *)
Fixpoint trimLeft (fuel : nat) (f : Z -> bool) (s : list ascii) : list ascii :=
  match fuel with
  | O => []
  | S fuel' =>
    match s with
    | [] => []
    | _ =>
      let '(r, size) := utf8.DecodeRune s in
      if f r then trimLeft fuel' f (drop size s) else s
    end
  end.

Definition TrimLeftFunc (s : list ascii) (f : Z -> bool) : list ascii :=
  trimLeft (length s) f s.

(** [lastIndexFunc s f false]: the index at which the last rune that does
    not satisfy [f] starts, [-1] when there is none. *)
Fixpoint lastIndex (fuel : nat) (f : Z -> bool) (s : list ascii) (i : Z) : Z :=
  match fuel with
  | O => -1
  | S fuel' =>
    if 0 <? i then
      let '(r, size) := utf8.DecodeLastRune (take (Z.to_nat i) s) in
      let i := i - Z.of_nat size in
      if negb (f r) then i else lastIndex fuel' f s i
    else -1
  end.

Definition TrimRightFunc (s : list ascii) (f : Z -> bool) : list ascii :=
  let i := lastIndex (length s) f s (Z.of_nat (length s)) in
  let i :=
    if (0 <=? i) && (utf8.RuneSelf <=? byte (nth (Z.to_nat i) s zero)) then
      i + Z.of_nat (snd (utf8.DecodeRune (drop (Z.to_nat i) s)))
    else i + 1 in
  take (Z.to_nat i) s.

Definition TrimFunc (s : list ascii) (f : Z -> bool) : list ascii :=
  TrimRightFunc (TrimLeftFunc s f) f.

(** [TrimSpace]: the ASCII fast path of the library computes the same slice
    as [TrimFunc s unicode.IsSpace]. *)
Definition TrimSpace (s : string) : string :=
  str (TrimFunc (bytes s) unicode.IsSpace).

Definition HasPrefix (s prefix : string) : bool := String.prefix prefix s.

(** [Map]: every rune of [s] ([RuneError] for an invalid byte) is replaced by
    the encoding of its image; a negative image is dropped. *)
Fixpoint mapRunes (fuel : nat) (mapping : Z -> Z) (s : list ascii) : list ascii :=
  match fuel with
  | O => []
  | S fuel' =>
    match s with
    | [] => []
    | _ =>
      let '(c, size) := utf8.DecodeRune s in
      let r := mapping c in
      (if 0 <=? r then utf8.EncodeRune r else [])
        ++ mapRunes fuel' mapping (drop size s)
    end
  end.

Definition Map (mapping : Z -> Z) (s : string) : string :=
  str (mapRunes (String.length s) mapping (bytes s)).

Definition isASCII (s : string) : bool :=
  forallb (fun c => byte c <? utf8.RuneSelf) (bytes s).

Definition lowerByte (c : ascii) : ascii :=
  if isUpperASCII c then chr (byte c + 32) else c.

Definition upperByte (c : ascii) : ascii :=
  if isLowerASCII c then chr (byte c - 32) else c.

Section Case.
Context `{unicode.CaseTables}.

(** [ToLower]: bytewise on an ASCII string, [Map unicode.ToLower]
    otherwise. *)
Definition ToLower (s : string) : string :=
  if isASCII s then str (map lowerByte (bytes s))
  else Map unicode.ToLower s.

Definition ToUpper (s : string) : string :=
  if isASCII s then str (map upperByte (bytes s))
  else Map unicode.ToUpper s.

End Case.

End strings.

(** ** Package strconv *)
Module strconv.

Definition digitChar (d : Z) : ascii := chr (48 + d).

(** Decimal digits of a non-negative number, most significant first. *)
Fixpoint digitsOf (fuel : nat) (n : Z) (acc : list ascii) : list ascii :=
  match fuel with
  | O => acc
  | S fuel' =>
    let acc := digitChar (n mod 10) :: acc in
    if n <? 10 then acc else digitsOf fuel' (n / 10) acc
  end.

Definition formatUint (n : Z) : list ascii :=
  digitsOf (S (Z.to_nat (Z.log2 n))) n [].

(** [Itoa] / [FormatInt _ 10]: also what the verb [%d] prints. *)
Definition Itoa (n : Z) : string :=
  if n <? 0 then str ("-"%char :: formatUint (- n)) else str (formatUint n).

(** [ParseUint s 10 _] without the range check: [None] is a syntax error. *)
Fixpoint parseDigits (s : list ascii) (acc : Z) : option Z :=
  match s with
  | [] => Some acc
  | c :: s' =>
    if isDigit c then parseDigits s' (10 * acc + (byte c - 48)) else None
  end.

(** [ParseInt s 10 bitSize]: [None] stands for the syntax and range errors. *)
Definition ParseInt (s : string) (bitSize : Z) : option Z :=
  match bytes s with
  | [] => None
  | c :: rest =>
    let neg := Ascii.eqb c "-" in
    let body := if Ascii.eqb c "+" || neg then rest else c :: rest in
    match body with
    | [] => None
    | _ =>
      match parseDigits body 0 with
      | None => None
      | Some un =>
        let cutoff := 2 ^ (bitSize - 1) in
        if negb neg && (cutoff <=? un) then None
        else if neg && (cutoff <? un) then None
        else Some (if neg then - un else un)
      end
    end
  end.

End strconv.

(** ** Package time *)
Module time.

(** An instant: [sec] seconds and [nsec] nanoseconds since January 1, year 1,
    00:00:00 UTC, presented in a zone [loc] given by its offset east of UTC in
    seconds.  The monotonic clock reading is left out. *)
Record Time := mkTime { sec : Z; nsec : Z; loc : Z }.

Definition UTC : Z := 0.

(** [time.Time{}] *)
Definition zero : Time := mkTime 0 0 UTC.

Definition IsZero (t : Time) : bool := (sec t =? 0) && (nsec t =? 0).

Definition January : Z := 1.
Definition February : Z := 2.
Definition March : Z := 3.

Definition secondsPerMinute : Z := 60.
Definition secondsPerHour : Z := 60 * secondsPerMinute.
Definition secondsPerDay : Z := 24 * secondsPerHour.
Definition daysPer400Years : Z := 365 * 400 + 97.
Definition daysPer100Years : Z := 365 * 100 + 24.
Definition daysPer4Years : Z := 365 * 4 + 1.

Definition daysBefore : list Z :=
  [0; 31; 31 + 28; 31 + 28 + 31; 31 + 28 + 31 + 30; 31 + 28 + 31 + 30 + 31;
   31 + 28 + 31 + 30 + 31 + 30; 31 + 28 + 31 + 30 + 31 + 30 + 31;
   31 + 28 + 31 + 30 + 31 + 30 + 31 + 31;
   31 + 28 + 31 + 30 + 31 + 30 + 31 + 31 + 30;
   31 + 28 + 31 + 30 + 31 + 30 + 31 + 31 + 30 + 31;
   31 + 28 + 31 + 30 + 31 + 30 + 31 + 31 + 30 + 31 + 30;
   31 + 28 + 31 + 30 + 31 + 30 + 31 + 31 + 30 + 31 + 30 + 31].

Definition daysBeforeAt (m : Z) : Z := nth (Z.to_nat m) daysBefore 0.

Definition isLeap (year : Z) : bool :=
  (Z.rem year 4 =? 0) && (negb (Z.rem year 100 =? 0) || (Z.rem year 400 =? 0)).

(** [norm hi lo base]: [lo] brought into [0, base), the carry moved to [hi]. *)
Definition norm (hi lo base : Z) : Z * Z :=
  let '(hi, lo) :=
    if lo <? 0 then
      let n := Z.quot (- lo - 1) base + 1 in (hi - n, lo + n * base)
    else (hi, lo) in
  if base <=? lo then
    let n := Z.quot lo base in (hi + n, lo - n * base)
  else (hi, lo).

(** Days from January 1 of year 1 to January 1 of [year]. *)
Definition daysSinceEpoch (year : Z) : Z :=
  let y := year - 1 in
  let n := y / 400 in
  let y := y - 400 * n in
  let d := daysPer400Years * n in
  let n := y / 100 in
  let y := y - 100 * n in
  let d := d + daysPer100Years * n in
  let n := y / 4 in
  let y := y - 4 * n in
  let d := d + daysPer4Years * n in
  d + 365 * y.

(** [time.Date] *)
Definition Date (year month day hour min sec nsec : Z) (loc : Z) : Time :=
  let m := month - 1 in
  let '(year, m) := norm year m 12 in
  let month := m + 1 in
  let '(sec, nsec) := norm sec nsec 1000000000 in
  let '(min, sec) := norm min sec 60 in
  let '(hour, min) := norm hour min 60 in
  let '(day, hour) := norm day hour 24 in
  let d := daysSinceEpoch year in
  let d := d + daysBeforeAt (month - 1) in
  let d := if isLeap year && (March <=? month) then d + 1 else d in
  let d := d + (day - 1) in
  let abs := d * secondsPerDay in
  let abs := abs + (hour * secondsPerHour + min * secondsPerMinute + sec) in
  mkTime (abs - loc) nsec loc.

(** Seconds since the epoch as the clock in the zone of [t] shows them. *)
Definition abs (t : Time) : Z := sec t + loc t.

(** [absDate]: year, month and day of month of an absolute time. *)
Definition absDate (abs : Z) : Z * Z * Z :=
  let d := abs / secondsPerDay in
  let n := d / daysPer400Years in
  let y := 400 * n in
  let d := d - daysPer400Years * n in
  let n := d / daysPer100Years in
  let n := n - Z.shiftr n 2 in
  let y := y + 100 * n in
  let d := d - daysPer100Years * n in
  let n := d / daysPer4Years in
  let y := y + 4 * n in
  let d := d - daysPer4Years * n in
  let n := d / 365 in
  let n := n - Z.shiftr n 2 in
  let y := y + n in
  let d := d - 365 * n in
  let year := y + 1 in
  let yday := d in
  let day := yday in
  if isLeap year && (day =? 31 + 29 - 1) then (year, February, 29)
  else
    let day := if isLeap year && (31 + 29 - 1 <? day) then day - 1 else day in
    let month := day / 31 in
    let end_ := daysBeforeAt (month + 1) in
    let '(month, begin) :=
      if end_ <=? day then (month + 1, end_) else (month, daysBeforeAt month) in
    (year, month + 1, day - begin + 1).

Definition Year (t : Time) : Z := fst (fst (absDate (abs t))).
Definition Month (t : Time) : Z := snd (fst (absDate (abs t))).
Definition Day (t : Time) : Z := snd (absDate (abs t)).
Definition Location (t : Time) : Z := loc t.

(** [Clock]: hour, minute and second within the day. *)
Definition Clock (t : Time) : Z * Z * Z :=
  let s := abs t mod secondsPerDay in
  let hour := s / secondsPerHour in
  let s := s - hour * secondsPerHour in
  let min := s / secondsPerMinute in
  (hour, min, s - min * secondsPerMinute).

Definition AddDate (t : Time) (years months days : Z) : Time :=
  let '(hour, min, s) := Clock t in
  Date (Year t + years) (Month t + months) (Day t + days)
       hour min s (nsec t) (Location t).

(** [daysIn]: the number of days of month [m] in [year]. *)
Definition daysIn (m year : Z) : Z :=
  if (m =? February) && isLeap year then 29
  else daysBeforeAt m - daysBeforeAt (m - 1).

(** Parsing and printing of instants ([time.Parse], and [json.Unmarshal] and
    [json.Marshal] for a [time.Time]) are the library's; they are taken as
    functions.  [None] stands for the library's error. *)
Class Formats := {
  Parse : string -> string -> option Time;
  jsonUnmarshal : string -> option Time;
  jsonMarshal : Time -> option string
}.

Definition RFC3339 : string := "2006-01-02T15:04:05Z07:00".
Definition RFC3339Nano : string := "2006-01-02T15:04:05.999999999Z07:00".

End time.

(** ** Dynamic values

    The values that reach the packages as [interface{}]: the sources handed to
    [Scan], the results of [Value], and what is stored in an error's context
    map. *)
Inductive any :=
  | anyNil
  | anyBool (b : bool)
  | anyInt (n : Z)
  | anyInt64 (n : Z)
  | anyFloat64 (bits : Z)
  | anyString (s : string)
  | anyBytes (s : string)
  | anyTime (t : time.Time).

(** What the verb [%T] prints. *)
Definition typeName (v : any) : string :=
  match v with
  | anyNil => "<nil>"
  | anyBool _ => "bool"
  | anyInt _ => "int"
  | anyInt64 _ => "int64"
  | anyFloat64 _ => "float64"
  | anyString _ => "string"
  | anyBytes _ => "[]uint8"
  | anyTime _ => "time.Time"
  end.

(** ** Package msg (src/msg/err.go) *)
Module msg.

(** [type ErrorCode string]: an open type with seven named values. *)
Definition ErrorCode := string.
Definition CodeConflict : ErrorCode := "conflict".
Definition CodeInvalid : ErrorCode := "invalid_input".
Definition CodeNotFound : ErrorCode := "not_found".
Definition CodeInternal : ErrorCode := "internal_error".
Definition CodeUnauthorized : ErrorCode := "unauthorized".
Definition CodeForbidden : ErrorCode := "forbidden".
Definition CodeDomainViolation : ErrorCode := "domain_violation".

(** The values of the interface [error] that occur: the plain errors of
    [errors.New] and [fmt.Errorf], the wrapping errors of [fmt.Errorf] with
    [%w], the errors made by a library package (only the package is
    recorded), and [*MessageError]. *)
Inductive error :=
  | errorString (text : string)
  | wrapError (text : string) (err : error)
  | foreignError (pkg : string)
  | messageError (e : MessageError)
with MessageError :=
  | mkMessageError (Err : option error) (Message : string) (Code : ErrorCode)
                   (Context : option (gmap string any))
                   (Details : list MessageError).

Definition Err (e : MessageError) : option error :=
  let 'mkMessageError x _ _ _ _ := e in x.
Definition Message (e : MessageError) : string :=
  let 'mkMessageError _ x _ _ _ := e in x.
Definition Code (e : MessageError) : ErrorCode :=
  let 'mkMessageError _ _ x _ _ := e in x.
Definition Context (e : MessageError) : option (gmap string any) :=
  let 'mkMessageError _ _ _ x _ := e in x.
Definition Details (e : MessageError) : list MessageError :=
  let 'mkMessageError _ _ _ _ x := e in x.

(** A map literal [map[string]any{...}]; [None] is the nil map. *)
Definition mapLit (kvs : list (string * any)) : option (gmap string any) :=
  Some (list_to_map kvs).

(** Reading a key of a context map; a nil map has no keys. *)
Definition ctxGet (ctx : option (gmap string any)) (key : string) : option any :=
  match ctx with
  | None => None
  | Some m => m !! key
  end.

Definition Unwrap (e : MessageError) : option error := Err e.

(** [WithContext] updates the error in place and returns it. *)
Definition WithContext (e : MessageError) (key : string) (value : any)
  : MessageError :=
  let ctx := match Context e with
             | None => ∅
             | Some m => m
             end in
  mkMessageError (Err e) (Message e) (Code e) (Some (<[key := value]> ctx))
                 (Details e).

Definition NewMessageError (err : option error) (message : string)
    (code : ErrorCode) (context : option (gmap string any)) : MessageError :=
  mkMessageError err message code context [].

Definition NewDomainError (err : option error) (message : string)
    (context : option (gmap string any)) : MessageError :=
  mkMessageError err message CodeDomainViolation context [].

Definition NewValidationError (err : option error)
    (context : option (gmap string any)) (message : string) : MessageError :=
  NewMessageError err message CodeInvalid context.

Definition NewBadRequestError (err : option error)
    (context : option (gmap string any)) : MessageError :=
  NewMessageError err "The request is malformed or contains invalid parameters."
                  CodeInvalid context.

Definition NewInternalError (err : option error)
    (context : option (gmap string any)) : MessageError :=
  NewMessageError err "An unexpected internal error occurred." CodeInternal context.

Definition NewUnauthorizedError (err : option error)
    (context : option (gmap string any)) : MessageError :=
  NewMessageError err "You are not authorized to perform this action."
                  CodeUnauthorized context.

Definition NewForbiddenError (err : option error)
    (context : option (gmap string any)) : MessageError :=
  NewMessageError err "You do not have permission to perform this action."
                  CodeForbidden context.

Inductive ErrorResponse :=
  | mkErrorResponse (StatusCode : Z) (Message : string) (Code : string)
                    (Context : option (gmap string any))
                    (Details : list ErrorResponse).

Definition StatusCode (r : ErrorResponse) : Z :=
  let 'mkErrorResponse x _ _ _ _ := r in x.
Definition respMessage (r : ErrorResponse) : string :=
  let 'mkErrorResponse _ x _ _ _ := r in x.
Definition respCode (r : ErrorResponse) : string :=
  let 'mkErrorResponse _ _ x _ _ := r in x.
Definition respContext (r : ErrorResponse) : option (gmap string any) :=
  let 'mkErrorResponse _ _ _ x _ := r in x.
Definition respDetails (r : ErrorResponse) : list ErrorResponse :=
  let 'mkErrorResponse _ _ _ _ x := r in x.

(** The status codes of [net/http] that are used. *)
Definition StatusBadRequest : Z := 400.
Definition StatusUnauthorized : Z := 401.
Definition StatusForbidden : Z := 403.
Definition StatusNotFound : Z := 404.
Definition StatusConflict : Z := 409.
Definition StatusInternalServerError : Z := 500.

Definition HTTPStatus (e : MessageError) : Z :=
  if String.eqb (Code e) CodeConflict then StatusConflict
  else if String.eqb (Code e) CodeInvalid then StatusBadRequest
  else if String.eqb (Code e) CodeNotFound then StatusNotFound
  else if String.eqb (Code e) CodeUnauthorized then StatusUnauthorized
  else if String.eqb (Code e) CodeForbidden then StatusForbidden
  else if String.eqb (Code e) CodeInternal then StatusInternalServerError
  else StatusInternalServerError.

(** [ToResponse]: the loop over [e.Details] appends the projection of every
    child to [resp.Details], which starts out nil. *)
Fixpoint ToResponse (e : MessageError) : ErrorResponse :=
  let resp := mkErrorResponse (HTTPStatus e) (Message e) (Code e) (Context e) [] in
  let details :=
    (fix loop (ds : list MessageError) (acc : list ErrorResponse) :=
       match ds with
       | [] => acc
       | detail :: ds' => loop ds' (acc ++ [ToResponse detail])
       end) (Details e) (respDetails resp) in
  mkErrorResponse (StatusCode resp) (respMessage resp) (respCode resp)
                  (respContext resp) details.

End msg.

(** ** Package encoding/json

    [Unmarshal] into a [string] and into an [int], and [Marshal] of the two.
    A document is first checked by the scanner (one value, white space around
    it); a value of another kind than the target is a type error.  Either
    error is [foreignError "json"].  The literal [null] leaves the target as
    it is and is no error. *)
Module json.

Definition jsonError : msg.error := msg.foreignError "json".

Definition isSpace (c : ascii) : bool :=
  (byte c =? 0x20) || (byte c =? 0x09) || (byte c =? 0x0D) || (byte c =? 0x0A).

Fixpoint skipSpace (s : list ascii) : list ascii :=
  match s with
  | c :: s' => if isSpace c then skipSpace s' else s
  | [] => []
  end.

(** The value of a hexadecimal digit. *)
Definition hexVal (c : ascii) : option Z :=
  let b := byte c in
  if (48 <=? b) && (b <=? 57) then Some (b - 48)
  else if (97 <=? b) && (b <=? 102) then Some (b - 97 + 10)
  else if (65 <=? b) && (b <=? 70) then Some (b - 65 + 10)
  else None.

(** [getu4]: the rune of an escape [\uXXXX] at the head of [s]. *)
Definition getu4 (s : list ascii) : option Z :=
  match s with
  | bs :: u :: h1 :: h2 :: h3 :: h4 :: _ =>
    if (byte bs =? 92) && (byte u =? 117) then
      match hexVal h1, hexVal h2, hexVal h3, hexVal h4 with
      | Some a, Some b, Some c, Some d => Some (((a * 16 + b) * 16 + c) * 16 + d)
      | _, _, _, _ => None
      end
    else None
  | _ => None
  end.

(** Package unicode/utf16. *)
Definition surr1 : Z := 0xd800.
Definition surr2 : Z := 0xdc00.
Definition surr3 : Z := 0xe000.
Definition surrSelf : Z := 0x10000.

Definition IsSurrogate (r : Z) : bool := (surr1 <=? r) && (r <? surr3).

Definition utf16DecodeRune (r1 r2 : Z) : Z :=
  if (surr1 <=? r1) && (r1 <? surr2) && (surr2 <=? r2) && (r2 <? surr3) then
    Z.lor (Z.shiftl (r1 - surr1) 10) (r2 - surr2) + surrSelf
  else utf8.RuneError.

(** The body of a string literal after its opening quote: the unquoted text
    and what follows the closing quote.  [None]: the scanner rejects the
    literal (it is not closed, holds a control character or a wrong escape). *)
Fixpoint unquoteBody (fuel : nat) (s : list ascii)
  : option (list ascii * list ascii) :=
  match fuel with
  | O => None
  | S fuel' =>
    match s with
    | [] => None
    | c :: t =>
      let emit (out : list ascii) (rest : list ascii) :=
        match unquoteBody fuel' rest with
        | Some (v, tail) => Some (out ++ v, tail)
        | None => None
        end in
      if byte c =? 34 then Some ([], t)
      else if byte c =? 92 then
        match t with
        | [] => None
        | e :: t' =>
          let b := byte e in
          if (b =? 34) || (b =? 92) || (b =? 47) then emit [e] t'
          else if b =? 98 then emit [chr 8] t'
          else if b =? 102 then emit [chr 12] t'
          else if b =? 110 then emit [chr 10] t'
          else if b =? 114 then emit [chr 13] t'
          else if b =? 116 then emit [chr 9] t'
          else if b =? 117 then
            match getu4 s with
            | None => None
            | Some rr =>
              let r6 := drop 6 s in
              if IsSurrogate rr then
                let rr1 := match getu4 r6 with
                           | Some x => x
                           | None => -1
                           end in
                let dec := utf16DecodeRune rr rr1 in
                if negb (dec =? utf8.RuneError) then
                  emit (utf8.EncodeRune dec) (drop 6 r6)
                else emit (utf8.EncodeRune utf8.RuneError) r6
              else emit (utf8.EncodeRune rr) r6
            end
          else None
        end
      else if byte c <? 0x20 then None
      else if byte c <? utf8.RuneSelf then emit [c] t
      else
        let '(rr, size) := utf8.DecodeRune s in
        emit (utf8.EncodeRune rr) (drop size s)
    end
  end.

(** What a document decodes to when the target is a string. *)
Inductive parsed (A : Type) :=
  | pValue (a : A)
  | pNull
  | pError.
Arguments pValue {A} a.
Arguments pNull {A}.
Arguments pError {A}.

(** The rest of [s] after the literal [null] at its head. *)
Definition nullTail (s : list ascii) : option (list ascii) :=
  match s with
  | n :: u :: l1 :: l2 :: tail =>
    if (byte n =? 110) && (byte u =? 117) && (byte l1 =? 108) && (byte l2 =? 108)
    then Some tail else None
  | _ => None
  end.

(** After the value only white space may follow. *)
Definition atEnd {A : Type} (tail : list ascii) (v : parsed A) : parsed A :=
  match skipSpace tail with
  | [] => v
  | _ => pError
  end.

Definition parseString (data : string) : parsed string :=
  let s := skipSpace (bytes data) in
  match s with
  | c :: t =>
    if byte c =? 34 then
      match unquoteBody (length t) t with
      | Some (v, tail) => atEnd tail (pValue (str v))
      | None => pError
      end
    else
      match nullTail s with
      | Some tail => atEnd tail pNull
      | None => pError
      end
  | [] => pError
  end.

(** [json.Unmarshal(data, &v)] for [v] a string. *)
Definition UnmarshalString (data : string) (v : string)
  : string * option msg.error :=
  match parseString data with
  | pValue s => (s, None)
  | pNull => (v, None)
  | pError => (v, Some jsonError)
  end.

(** The number grammar of the scanner: an optional minus sign; a zero, or a
    digit from 1 to 9 and any digits; optionally a dot and digits; optionally
    an exponent mark, a sign and digits. *)
Fixpoint spanDigits (s : list ascii) : list ascii * list ascii :=
  match s with
  | c :: s' =>
    if isDigit c then let '(d, r) := spanDigits s' in (c :: d, r) else ([], s)
  | [] => ([], [])
  end.

Definition scanExp (s : list ascii) : option (list ascii) :=
  match s with
  | e :: s' =>
    if (byte e =? 101) || (byte e =? 69) then
      let s'' := match s' with
                 | sg :: r => if (byte sg =? 43) || (byte sg =? 45) then r else s'
                 | [] => s'
                 end in
      match spanDigits s'' with
      | ([], _) => None
      | (_, r) => Some r
      end
    else Some s
  | [] => Some s
  end.

Definition scanFrac (s : list ascii) : option (list ascii) :=
  match s with
  | d :: s' =>
    if byte d =? 46 then
      match spanDigits s' with
      | ([], _) => None
      | (_, r) => scanExp r
      end
    else scanExp s
  | [] => Some s
  end.

(** The number literal at the head of [s] and the rest. *)
Definition scanNumber (s : list ascii) : option (list ascii * list ascii) :=
  let '(sign, s1) :=
    match s with
    | c :: r => if byte c =? 45 then ([c], r) else ([], s)
    | [] => ([], s)
    end in
  match s1 with
  | c :: r =>
    let after :=
      if byte c =? 48 then Some r
      else if isDigit c then Some (snd (spanDigits r))
      else None in
    match after with
    | None => None
    | Some r1 =>
      match scanFrac r1 with
      | None => None
      | Some rest => Some (take (length s - length rest) s, rest)
      end
    end
  | [] => None
  end.

Definition intSize : Z := 64.

Definition parseInt (data : string) : parsed Z :=
  let s := skipSpace (bytes data) in
  match nullTail s with
  | Some tail => atEnd tail pNull
  | None =>
    match scanNumber s with
    | Some (lit, rest) =>
      atEnd rest (match strconv.ParseInt (str lit) intSize with
                  | Some n => pValue n
                  | None => pError
                  end)
    | None => pError
    end
  end.

(** [json.Unmarshal(data, &v)] for [v] an int. *)
Definition UnmarshalInt (data : string) (v : Z) : Z * option msg.error :=
  match parseInt data with
  | pValue n => (n, None)
  | pNull => (v, None)
  | pError => (v, Some jsonError)
  end.

Definition hexDigit (d : Z) : ascii :=
  if d <? 10 then chr (48 + d) else chr (97 + d - 10).

(** [htmlSafeSet]: the ASCII bytes written as they are. *)
Definition htmlSafe (b : Z) : bool :=
  (0x20 <=? b) && negb ((b =? 34) || (b =? 92) || (b =? 60) || (b =? 62) || (b =? 38)).

(** The body of [appendString] with HTML escaping on. *)
Fixpoint quoteBody (fuel : nat) (s : list ascii) : list ascii :=
  match fuel with
  | O => []
  | S fuel' =>
    match s with
    | [] => []
    | c :: t =>
      let b := byte c in
      if b <? utf8.RuneSelf then
        (if htmlSafe b then [c]
         else if (b =? 92) || (b =? 34) then [chr 92; c]
         else if b =? 8 then [chr 92; chr 98]
         else if b =? 12 then [chr 92; chr 102]
         else if b =? 10 then [chr 92; chr 110]
         else if b =? 13 then [chr 92; chr 114]
         else if b =? 9 then [chr 92; chr 116]
         else [chr 92; chr 117; chr 48; chr 48;
               hexDigit (Z.shiftr b 4); hexDigit (Z.land b 0xF)])
        ++ quoteBody fuel' t
      else
        let '(r, size) := utf8.DecodeRune s in
        if (r =? utf8.RuneError) && (size =? 1)%nat then
          bytes ("\" +:+ "ufffd") ++ quoteBody fuel' (drop size s)
        else if (r =? 0x2028) || (r =? 0x2029) then
          (bytes ("\" +:+ "u202") ++ [hexDigit (Z.land r 0xF)])
            ++ quoteBody fuel' (drop size s)
        else take size s ++ quoteBody fuel' (drop size s)
    end
  end.

(** [json.Marshal] of a string. *)
Definition MarshalString (s : string) : string :=
  str ([chr 34] ++ quoteBody (String.length s) (bytes s) ++ [chr 34]).

(** [json.Marshal] of an int. *)
Definition MarshalInt (n : Z) : string := strconv.Itoa n.

(** [json.Marshal(nil)] *)
Definition MarshalNil : string := "null".

End json.

(** ** Package regexp

    The fragment of the syntax the two patterns of the repository use, over
    runes.  Matching is by derivatives; [MatchString] is for a pattern
    anchored at both ends by [^] and [$]. *)
Module regexp.

Inductive re :=
  | Void
  | Eps
  | Class (ranges : list (Z * Z))
  | Cat (r1 r2 : re)
  | Alt (r1 r2 : re)
  | Star (r : re)
  | Repeat (r : re) (min max : nat).

Definition Plus (r : re) : re := Cat r (Star r).
Definition Opt (r : re) : re := Repeat r 0 1.

Definition inRanges (ranges : list (Z * Z)) (c : Z) : bool :=
  existsb (fun '(lo, hi) => (lo <=? c) && (c <=? hi)) ranges.

Fixpoint nullable (r : re) : bool :=
  match r with
  | Void => false
  | Eps => true
  | Class _ => false
  | Cat r1 r2 => nullable r1 && nullable r2
  | Alt r1 r2 => nullable r1 || nullable r2
  | Star _ => true
  | Repeat r min _ => (min =? 0)%nat || nullable r
  end.

Definition cat (r1 r2 : re) : re :=
  match r1, r2 with
  | Void, _ => Void
  | _, Void => Void
  | Eps, _ => r2
  | _, _ => Cat r1 r2
  end.

Definition alt (r1 r2 : re) : re :=
  match r1, r2 with
  | Void, _ => r2
  | _, Void => r1
  | _, _ => Alt r1 r2
  end.

Fixpoint deriv (c : Z) (r : re) : re :=
  match r with
  | Void => Void
  | Eps => Void
  | Class ranges => if inRanges ranges c then Eps else Void
  | Cat r1 r2 =>
    alt (cat (deriv c r1) r2) (if nullable r1 then deriv c r2 else Void)
  | Alt r1 r2 => alt (deriv c r1) (deriv c r2)
  | Star r1 => cat (deriv c r1) (Star r1)
  | Repeat r1 min max =>
    match max with
    | O => Void
    | S max' => cat (deriv c r1) (Repeat r1 (pred min) max')
    end
  end.

(** The runes of a string, [RuneError] for every invalid byte. *)
Fixpoint runesOf (fuel : nat) (s : list ascii) : list Z :=
  match fuel with
  | O => []
  | S fuel' =>
    match s with
    | [] => []
    | _ =>
      let '(r, size) := utf8.DecodeRune s in
      r :: runesOf fuel' (drop size s)
    end
  end.

Definition runes (s : string) : list Z := runesOf (String.length s) (bytes s).

Definition MatchString (pattern : re) (s : string) : bool :=
  nullable (fold_left (fun r c => deriv c r) (runes s) pattern).

(** [ReplaceAllString] for a pattern [C+] with [C] a set of runes: every
    maximal run of runes of [C] is replaced by [repl], the other runes are
    copied. [inRun] says that the rune before was in [C]. *)
Fixpoint replaceRuns (fuel : nat) (cls : Z -> bool) (repl : list ascii)
    (inRun : bool) (s : list ascii) : list ascii :=
  match fuel with
  | O => []
  | S fuel' =>
    match s with
    | [] => []
    | _ =>
      let '(r, size) := utf8.DecodeRune s in
      if cls r then
        (if inRun then [] else repl)
          ++ replaceRuns fuel' cls repl true (drop size s)
      else take size s ++ replaceRuns fuel' cls repl false (drop size s)
    end
  end.

Definition ReplaceAllClassPlus (cls : Z -> bool) (s repl : string) : string :=
  str (replaceRuns (String.length s) cls (bytes repl) false (bytes s)).

(** The class [\D]: every rune that is not an ASCII digit. *)
Definition notDigit (r : Z) : bool := negb ((48 <=? r) && (r <=? 57)).

Definition rng (a b : ascii) : Z * Z := (byte a, byte b).
Definition one (a : ascii) : Z * Z := (byte a, byte a).

End regexp.

(** ** Package github.com/google/uuid *)
Module uuid.

(** [type UUID [16]byte], read as a big-endian number. *)
Definition UUID := Z.
Definition Nil : UUID := 0.

(** The textual forms are the library's: parsing and printing are taken as
    functions. *)
Class Text := {
  Parse : string -> option UUID;
  String : UUID -> string
}.

Definition fromBytes (b : list ascii) : UUID :=
  fold_left (fun acc c => acc * 256 + byte c) b 0.

Section Scan.
Context `{Text}.

(** The method [Scan] of the library's UUID. *)
Definition Scan (u : UUID) (src : any) : UUID * option msg.error :=
  let scanString (s : string) :=
    if String.eqb s "" then (u, None)
    else match Parse s with
         | Some x => (x, None)
         | None => (u, Some (msg.errorString "Scan: invalid UUID"))
         end in
  match src with
  | anyNil => (u, None)
  | anyString s => scanString s
  | anyBytes b =>
    if (String.length b =? 0)%nat then (u, None)
    else if negb (String.length b =? 16)%nat then scanString b
    else (fromBytes (bytes b), None)
  | _ =>
    (u, Some (msg.errorString
                ("Scan: unable to scan type " +:+ typeName src +:+ " into UUID")))
  end.

(** [UUID.Value] *)
Definition Value (u : UUID) : any * option msg.error := (anyString (String u), None).

(** [UUID.MarshalText] and [UUID.UnmarshalText] *)
Definition MarshalText (u : UUID) : string * option msg.error := (String u, None).

Definition UnmarshalText (u : UUID) (data : string) : UUID * option msg.error :=
  match Parse data with
  | Some x => (x, None)
  | None => (u, Some (msg.foreignError "uuid"))
  end.

End Scan.

End uuid.

(** ** Panics

    What a call that may panic comes to: it returns a value, or it panics
    with the error it was given. *)
Inductive outcome (A : Type) :=
  | returns (a : A)
  | panics (v : msg.error).
Arguments returns {A} a.
Arguments panics {A} v.

(** ** Package types *)
Module types.
Import msg.

Section Types.
Context `{unicode.CaseTables} `{uuid.Text} `{time.Formats}.

(** The error of a fallible call as a value of the interface [error]. *)
Definition fail (e : MessageError) : option error := Some (messageError e).

(** *** Currency (src/types/currency.go) *)

Definition ErrInvalidCurrency : error := errorString "invalid currency".

Definition Currency := string.

Definition BRL : Currency := "BRL".
Definition USD : Currency := "USD".
Definition EUR : Currency := "EUR".

Definition Currency_String (c : Currency) : string := c.

Definition Currency_IsValid (c : Currency) : bool :=
  String.eqb c BRL || String.eqb c USD || String.eqb c EUR.

Definition NewCurrency (value : string) : Currency * option error :=
  let c := strings.ToUpper value in
  if negb (Currency_IsValid c) then ("", Some ErrInvalidCurrency)
  else (c, None).

Definition Currency_IsEmpty (c : Currency) : bool := String.eqb c "".

Definition Currency_MarshalJSON (c : Currency) : string * option error :=
  (json.MarshalString (Currency_String c), None).

Definition Currency_UnmarshalJSON (c : Currency) (data : string)
  : Currency * option error :=
  match json.UnmarshalString data "" with
  | (_, Some err) => (c, Some err)
  | (s, None) => (s, None)
  end.

Definition Currency_Value (c : Currency) : any * option error :=
  if Currency_IsEmpty c then (anyNil, None)
  else (anyString (Currency_String c), None).

Definition Currency_Scan (c : Currency) (src : any) : Currency * option error :=
  match src with
  | anyNil => ("", None)
  | anyString v => (v, None)
  | anyBytes v => (v, None)
  | _ => (c, Some ErrInvalidCurrency)
  end.

(** *** Day (src/unnamed/part_006; part_005 is the same without the
    calendar methods) *)

Definition ErrInvalidDay : error := errorString "day must be between 1 and 31".

Definition Day := Z.

Definition NewDay (value : Z) : Day * option error :=
  if (value <? 1) || (31 <? value) then (0, Some ErrInvalidDay)
  else (value, None).

Definition Day_Int (d : Day) : Z := d.

Definition Day_HasPassed (d : Day) (today : time.Time) : bool :=
  Day_Int d <? time.Day today.

Definition Day_DaysUntil (d : Day) (today : time.Time) : Z :=
  let day := Day_Int d in
  let todayDay := time.Day today in
  if todayDay <=? day then day - todayDay
  else
    let daysInMonth :=
      time.Day (time.Date (time.Year today) (time.Month today + 1) 0 0 0 0 0
                          (time.Location today)) in
    (daysInMonth - todayDay) + day.

Definition Day_DaysOverdue (d : Day) (today : time.Time) : Z :=
  let day := Day_Int d in
  let todayDay := time.Day today in
  if day <=? todayDay then todayDay - day
  else
    let prevMonth := time.AddDate today 0 (-1) 0 in
    let daysInPrevMonth :=
      time.Day (time.Date (time.Year prevMonth) (time.Month prevMonth + 1) 0
                          0 0 0 0 (time.Location today)) in
    (daysInPrevMonth - day) + todayDay.

Definition Day_MarshalJSON (d : Day) : string * option error :=
  (json.MarshalInt (Day_Int d), None).

Definition Day_UnmarshalJSON (d : Day) (data : string) : Day * option error :=
  match json.UnmarshalInt data 0 with
  | (_, Some err) => (d, Some err)
  | (day, None) => (day, None)
  end.

Definition Day_Value (d : Day) : any * option error := (anyInt64 (Day_Int d), None).

Definition Day_Scan (d : Day) (src : any) : Day * option error :=
  match src with
  | anyNil => (0, None)
  | anyInt64 v => (v, None)
  | _ => (d, Some (errorString ("unsupported scan type for Day: " +:+ typeName src)))
  end.

(** *** Version (src/unnamed/part_000) *)

Definition Version := Z.

Definition NewVersion : Version := 1.

Definition Version_Increment (v : Version) : Version := v + 1.

Definition Version_Int (v : Version) : Z := v.

Definition Version_Previous (v : Version) : Version :=
  if v <=? 1 then 0 else v - 1.

Definition Version_MarshalJSON (v : Version) : string * option error :=
  (json.MarshalInt v, None).

Definition Version_UnmarshalJSON (v : Version) (data : string)
  : Version * option error :=
  if String.eqb data "null" then
    (v, fail (NewValidationError None
                (mapLit [("input_json", anyString "null");
                         ("target_type", anyString "Version")])
                "Version cannot be null (received JSON 'null')."))
  else
    match json.UnmarshalInt data 0 with
    | (_, Some err) =>
      (v, fail (NewValidationError (Some err)
                  (mapLit [("input_json", anyString data);
                           ("target_type", anyString "Version")])
                  "Version must be a JSON number."))
    | (i, None) => (i, None)
    end.

Definition Version_Value (v : Version) : any * option error := (anyInt64 v, None).

Definition maxInt : Z := 2 ^ (json.intSize - 1) - 1.
Definition minInt : Z := - maxInt - 1.

Definition Version_Scan (v : Version) (src : any) : Version * option error :=
  match src with
  | anyNil =>
    (v, fail (NewValidationError None
                (mapLit [("target_type", anyString "Version")])
                "Scanned nil value for non-nullable Version."))
  | anyInt64 s =>
    if (maxInt <? s) || (s <? minInt) then
      let message := "Value " +:+ strconv.Itoa s
                     +:+ " from database is out of range for Version (int)." in
      (v, fail (NewValidationError None
                  (mapLit [("source_value", anyInt64 s)]) message))
    else (s, None)
  | anyBytes s =>
    match strconv.ParseInt s 32 with
    | None =>
      let message := "Failed to convert []byte ('" +:+ s
                     +:+ "') to int for Version." in
      (v, fail (NewValidationError (Some (foreignError "strconv"))
                  (mapLit [("input_bytes", anyString s)]) message))
    | Some parsed => (parsed, None)
    end
  | _ =>
    let message := "Incompatible type (" +:+ typeName src
                   +:+ ") for Version. Expected int64 or []byte." in
    (v, fail (NewValidationError None
                (mapLit [("received_type", anyString (typeName src))]) message))
  end.

(** *** Email (src/types/email.go) *)

Definition MaxEmailLength : Z := 254.

Definition alnum : list (Z * Z) :=
  [regexp.rng "a" "z"; regexp.rng "A" "Z"; regexp.rng "0" "9"].

Definition localClass : list (Z * Z) :=
  alnum ++ map regexp.one
    ["."; "!"; "#"; "$"; "%"; "&"; "'"; "*"; "+"; "/"; "="; "?"; "^"; "_";
     "`"; "{"; "|"; "}"; "~"; "-"]%char.

Definition label : regexp.re :=
  regexp.Cat (regexp.Class alnum)
    (regexp.Opt (regexp.Cat
       (regexp.Repeat (regexp.Class (alnum ++ [regexp.one "-"])) 0 61)
       (regexp.Class alnum))).

(** The pattern between its anchors: local part, [@], a label, and any number
    of further labels each after a dot. *)
Definition emailRegexPattern : regexp.re :=
  regexp.Cat (regexp.Plus (regexp.Class localClass))
    (regexp.Cat (regexp.Class [regexp.one "@"])
       (regexp.Cat label
          (regexp.Star (regexp.Cat (regexp.Class [regexp.one "."]) label)))).

Definition Email := string.

Definition validateEmail (emailStr : string) : string * option error :=
  let normalizedEmail := strings.ToLower (strings.TrimSpace emailStr) in
  if String.eqb normalizedEmail "" then
    ("", fail (NewValidationError None
                 (mapLit [("input_email", anyString emailStr)])
                 "Email address cannot be empty."))
  else if MaxEmailLength <? len normalizedEmail then
    let message := "Email address (length " +:+ strconv.Itoa (len normalizedEmail)
                   +:+ ") exceeds maximum length of "
                   +:+ strconv.Itoa MaxEmailLength +:+ " characters." in
    ("", fail (NewValidationError None
                 (mapLit [("length", anyInt (len normalizedEmail));
                          ("max_length", anyInt MaxEmailLength);
                          ("input_email", anyString emailStr)])
                 message))
  else if negb (regexp.MatchString emailRegexPattern normalizedEmail) then
    let message := "Email address '" +:+ emailStr +:+ "' has an invalid format." in
    ("", fail (NewValidationError None
                 (mapLit [("input_email", anyString emailStr)]) message))
  else (normalizedEmail, None).

Definition NewEmail (emailStr : string) : Email * option error :=
  match validateEmail emailStr with
  | (_, Some err) => ("", Some err)
  | (validatedEmail, None) => (validatedEmail, None)
  end.

Definition MustNewEmail (emailStr : string) : outcome Email :=
  match NewEmail emailStr with
  | (_, Some err) => panics err
  | (email, None) => returns email
  end.

Definition Email_String (e : Email) : string := e.

Definition Email_IsEmpty (e : Email) : bool := String.eqb e "".

Definition Email_MarshalJSON (e : Email) : string * option error :=
  (json.MarshalString (Email_String e), None).

Definition Email_UnmarshalJSON (e : Email) (data : string) : Email * option error :=
  match json.UnmarshalString data "" with
  | (_, Some err) =>
    let message := "Email must be a valid JSON string (received: " +:+ data +:+ ")." in
    (e, fail (NewValidationError (Some err)
                (mapLit [("input_json", anyString data)]) message))
  | (s, None) =>
    match validateEmail s with
    | (_, Some err) => (e, Some err)
    | (validatedEmail, None) => (validatedEmail, None)
    end
  end.

Definition Email_MarshalText (e : Email) : string * option error :=
  (Email_String e, None).

Definition Email_UnmarshalText (e : Email) (text : string) : Email * option error :=
  let emailStr := text in
  match validateEmail emailStr with
  | (_, Some err) => (e, Some err)
  | (validatedEmail, None) => (validatedEmail, None)
  end.

Definition Email_Value (e : Email) : any * option error :=
  (anyString (Email_String e), None).

Definition Email_Scan (e : Email) (src : any) : Email * option error :=
  let scan (emailStr : string) :=
    match validateEmail emailStr with
    | (_, Some err) =>
      match err with
      | messageError originalMsgErr =>
        (e, fail (WithContext originalMsgErr "scan_source_value" (anyString emailStr)))
      | _ =>
        let message := "Failed to scan database value ('" +:+ emailStr
                       +:+ "') to Email." in
        (e, fail (NewValidationError (Some err)
                    (mapLit [("scan_source_value", anyString emailStr)]) message))
      end
    | (validatedEmail, None) => (validatedEmail, None)
    end in
  match src with
  | anyNil =>
    (e, fail (NewValidationError None
                (mapLit [("target_type", anyString "Email")])
                "Scanned nil value for non-nullable Email type."))
  | anyString sval => scan sval
  | anyBytes sval => scan sval
  | _ =>
    let message := "Incompatible type (" +:+ typeName src
                   +:+ ") for Email. Expected string or []byte." in
    (e, fail (NewValidationError None
                (mapLit [("received_type", anyString (typeName src))]) message))
  end.

(** *** Phone (src/unnamed/part_001) *)

Definition DefaultCountryCode : string := "55".
Definition CountryCodeLength : Z := 2.
Definition DDDLength : Z := 2.
Definition LocalPhoneNumberLength : Z := 9.
Definition NormalizedPhoneLength : Z :=
  CountryCodeLength + DDDLength + LocalPhoneNumberLength.
Definition MaxRawPhoneInputLength : Z := 30.

Definition Phone := string.

(** [nonNumericRegexPattern] is [\D+]. *)
Definition normalizePhone (phoneStr : string) : string :=
  regexp.ReplaceAllClassPlus regexp.notDigit phoneStr "".

Definition validateAndPrefixNormalizedPhone
    (normalizedNum : string) (originalInputForErrorContext : string)
  : string * option error :=
  let numLen := len normalizedNum in
  let finalNum := normalizedNum in
  let checks (finalNum : string) (numLen : Z) : string * option error :=
    if negb (numLen =? NormalizedPhoneLength) then
      let message := "Normalized phone number must have "
                     +:+ strconv.Itoa NormalizedPhoneLength
                     +:+ " digits (e.g., 55DDNNNNNNNNN), got "
                     +:+ strconv.Itoa numLen +:+ "." in
      ("", fail (NewValidationError None
                   (mapLit [("input_phone", anyString originalInputForErrorContext);
                            ("normalized_phone_after_prefix_attempt", anyString finalNum);
                            ("expected_length", anyInt NormalizedPhoneLength);
                            ("actual_length", anyInt numLen)])
                   message))
    else if negb (strings.HasPrefix finalNum DefaultCountryCode) then
      let message :=
        "Normalized 13-digit phone number must start with country code '"
        +:+ DefaultCountryCode +:+ "'." in
      ("", fail (NewValidationError None
                   (mapLit [("input_phone", anyString originalInputForErrorContext);
                            ("normalized_phone", anyString finalNum);
                            ("expected_prefix", anyString DefaultCountryCode)])
                   message))
    else (finalNum, None) in
  if numLen =? DDDLength + LocalPhoneNumberLength then
    if strings.HasPrefix finalNum DefaultCountryCode then
      let message :=
        "Invalid phone number format: 11-digit number starting with country code '"
        +:+ DefaultCountryCode +:+ "' is ambiguous or incomplete." in
      ("", fail (NewValidationError None
                   (mapLit [("input_phone", anyString originalInputForErrorContext);
                            ("normalized_phone", anyString finalNum)])
                   message))
    else
      let finalNum := DefaultCountryCode +:+ finalNum in
      let numLen := len finalNum in
      checks finalNum numLen
  else checks finalNum numLen.

Definition NewPhone (phoneStr : string) : Phone * option error :=
  let trimmedInput := strings.TrimSpace phoneStr in
  if String.eqb trimmedInput "" then
    ("", fail (NewValidationError None
                 (mapLit [("input_phone", anyString phoneStr)])
                 "Phone number cannot be empty."))
  else if MaxRawPhoneInputLength <? utf8.RuneCountInString trimmedInput then
    let message := "Raw phone input (length "
                   +:+ strconv.Itoa (utf8.RuneCountInString trimmedInput)
                   +:+ ") exceeds maximum length of "
                   +:+ strconv.Itoa MaxRawPhoneInputLength +:+ " characters." in
    ("", fail (NewValidationError None
                 (mapLit [("max_length", anyInt MaxRawPhoneInputLength);
                          ("input_phone", anyString phoneStr)])
                 message))
  else
    let normalized := normalizePhone trimmedInput in
    match validateAndPrefixNormalizedPhone normalized phoneStr with
    | (_, Some err) => ("", Some err)
    | (validatedNum, None) => (validatedNum, None)
    end.

Definition MustNewPhone (phoneStr : string) : outcome Phone :=
  match NewPhone phoneStr with
  | (_, Some err) => panics err
  | (phone, None) => returns phone
  end.

Definition Phone_String (p : Phone) : string := p.

Definition Phone_IsEmpty (p : Phone) : bool := String.eqb p "".

Definition Phone_MarshalJSON (p : Phone) : string * option error :=
  (json.MarshalString (Phone_String p), None).

Definition Phone_UnmarshalJSON (p : Phone) (data : string) : Phone * option error :=
  match json.UnmarshalString data "" with
  | (_, Some err) =>
    let message := "Phone must be a valid JSON string (received: " +:+ data +:+ ")." in
    (p, fail (NewValidationError (Some err)
                (mapLit [("input_json", anyString data)]) message))
  | (s, None) =>
    match NewPhone s with
    | (_, Some err) => (p, Some err)
    | (phone, None) => (phone, None)
    end
  end.

Definition Phone_MarshalText (p : Phone) : string * option error :=
  (Phone_String p, None).

Definition Phone_UnmarshalText (p : Phone) (text : string) : Phone * option error :=
  match NewPhone text with
  | (_, Some err) => (p, Some err)
  | (phone, None) => (phone, None)
  end.

Definition Phone_Value (p : Phone) : any * option error :=
  if Phone_IsEmpty p then
    (anyNil, fail (NewValidationError None None
       "Attempted to save an empty or invalid Phone value to the database."))
  else (anyString (Phone_String p), None).

Definition Phone_Scan (p : Phone) (src : any) : Phone * option error :=
  let scan (phoneStr : string) :=
    let normalizedFromDB := normalizePhone phoneStr in
    match validateAndPrefixNormalizedPhone normalizedFromDB phoneStr with
    | (_, Some err) =>
      match err with
      | messageError originalMsgErr =>
        (p, fail (WithContext originalMsgErr "scan_source_value_db"
                              (anyString phoneStr)))
      | _ =>
        let message := "Failed to scan database value ('" +:+ phoneStr
          +:+ "') to Phone due to invalid format after normalization." in
        (p, fail (NewValidationError (Some err)
                    (mapLit [("scan_source_value_db", anyString phoneStr)]) message))
      end
    | (validatedNum, None) => (validatedNum, None)
    end in
  match src with
  | anyNil =>
    (p, fail (NewValidationError None
                (mapLit [("target_type", anyString "Phone")])
                "Scanned nil value for non-nullable Phone type from database."))
  | anyString sval => scan sval
  | anyBytes sval => scan sval
  | _ =>
    let message := "Incompatible type (" +:+ typeName src
                   +:+ ") for Phone scan. Expected string or []byte." in
    (p, fail (NewValidationError None
                (mapLit [("received_type", anyString (typeName src))]) message))
  end.

(** *** UUID (second document of src/types/currency.go) *)

Definition UUID := uuid.UUID.

Definition Nil : UUID := uuid.Nil.

(** [NewUUID]; [v7] is what [uuid.NewV7()] returns. *)
Definition NewUUID (v7 : uuid.UUID * option error) : UUID * option error :=
  match v7 with
  | (_, Some err) =>
    (Nil, fail (NewInternalError (Some err)
                  (mapLit [("operation", anyString "generate_v7_uuid")])))
  | (id, None) => (id, None)
  end.

Definition MustNewUUID (v7 : uuid.UUID * option error) : outcome UUID :=
  match NewUUID v7 with
  | (_, Some err) => panics err
  | (id, None) => returns id
  end.

Definition ParseUUID (s : string) : UUID * option error :=
  match uuid.Parse s with
  | None =>
    let message := "Invalid UUID string format: '" +:+ s +:+ "'." in
    (Nil, fail (NewValidationError (Some (foreignError "uuid"))
                  (mapLit [("input_string", anyString s)]) message))
  | Some id => (id, None)
  end.

Definition MustParseUUID (s : string) : outcome UUID :=
  match ParseUUID s with
  | (_, Some err) => panics err
  | (id, None) => returns id
  end.

Definition UUID_String (u : UUID) : string := uuid.String u.

Definition UUID_IsNil (u : UUID) : bool := u =? uuid.Nil.

Definition UUID_MarshalText (u : UUID) : string * option error :=
  uuid.MarshalText u.

Definition UUID_UnmarshalText (u : UUID) (text : string) : UUID * option error :=
  match uuid.UnmarshalText uuid.Nil text with
  | (_, Some err) =>
    let message := "Invalid text representation for UUID: '" +:+ text +:+ "'." in
    (u, fail (NewValidationError (Some err)
                (mapLit [("input_text", anyString text)]) message))
  | (underlyingUUID, None) => (underlyingUUID, None)
  end.

Definition UUID_Value (u : UUID) : any * option error :=
  if UUID_IsNil u then (anyNil, None) else uuid.Value u.

Definition UUID_Scan (u : UUID) (src : any) : UUID * option error :=
  match uuid.Scan uuid.Nil src with
  | (_, Some err) =>
    let message := "Failed to scan database value of type " +:+ typeName src
                   +:+ " into UUID." in
    (u, fail (NewValidationError (Some err)
                (mapLit [("source_type", anyString (typeName src))]) message))
  | (underlyingUUID, None) => (underlyingUUID, None)
  end.

(** [json.Unmarshal(data, &u)] for a [UUID]: the type has [UnmarshalText], so
    a string literal is unquoted and handed to it; [null] leaves [u] as it
    is; any other value is a type error. *)
Definition UUID_jsonUnmarshal (u : UUID) (data : string) : UUID * option error :=
  match json.parseString data with
  | json.pValue s => UUID_UnmarshalText u s
  | json.pNull => (u, None)
  | json.pError => (u, Some json.jsonError)
  end.

(** [json.Marshal(u)] for a [UUID]: the text form as a string literal. *)
Definition UUID_jsonMarshal (u : UUID) : string * option error :=
  (json.MarshalString (fst (UUID_MarshalText u)), None).

(** *** CreatedAt and UpdatedAt (second document of src/types/uuid_test.go) *)

Definition LAYOUT_RFC3339_NANO_AUDIT : string := time.RFC3339Nano.
Definition LAYOUT_DB_WITH_OFFSET_COLON_AUDIT : string :=
  "2006-01-02 15:04:05.999999999-07:00".
Definition LAYOUT_DB_WITH_OFFSET_NO_COLON_AUDIT : string :=
  "2006-01-02 15:04:05.999999999Z0700".
Definition LAYOUT_DB_SPACE_NANO_OFFSET_SHORT_AUDIT : string :=
  "2006-01-02 15:04:05.999999999-07".
Definition LAYOUT_DB_NO_OFFSET_AUDIT : string := "2006-01-02 15:04:05.999999999".
Definition LAYOUT_RFC3339_NO_NANO_AUDIT : string := time.RFC3339.
Definition LAYOUT_DB_SIMPLE_AUDIT : string := "2006-01-02 15:04:05".

Definition commonAuditTimeLayouts : list string :=
  [LAYOUT_RFC3339_NANO_AUDIT; LAYOUT_DB_WITH_OFFSET_COLON_AUDIT;
   LAYOUT_DB_WITH_OFFSET_NO_COLON_AUDIT; LAYOUT_DB_SPACE_NANO_OFFSET_SHORT_AUDIT;
   LAYOUT_DB_NO_OFFSET_AUDIT; LAYOUT_RFC3339_NO_NANO_AUDIT; LAYOUT_DB_SIMPLE_AUDIT].

Fixpoint parseLayouts (layouts : list string) (timeStr : string)
    (lastErr : option error) : time.Time * option error :=
  match layouts with
  | [] =>
    (time.zero,
     Some (match lastErr with
           | Some e =>
             wrapError ("could not parse time '" +:+ timeStr
                        +:+ "' with any known layouts") e
           | None =>
             errorString ("could not parse time '" +:+ timeStr
                          +:+ "' with any known layouts: %!w(<nil>)")
           end))
  | layout :: rest =>
    match time.Parse layout timeStr with
    | Some parsedTime => (parsedTime, None)
    | None => parseLayouts rest timeStr (Some (foreignError "time"))
    end
  end.

Definition parseAuditTimeMultipleLayouts (timeStr : string)
  : time.Time * option error :=
  parseLayouts commonAuditTimeLayouts timeStr None.

Definition CreatedAt := time.Time.

(** [NewCreatedAt]; [now] is what [time.Now()] returns. *)
Definition NewCreatedAt (now : time.Time) : CreatedAt := now.

Definition CreatedAt_Time (ca : CreatedAt) : time.Time := ca.

Definition CreatedAt_MarshalJSON (ca : CreatedAt) : string * option error :=
  match time.jsonMarshal ca with
  | Some data => (data, None)
  | None => ("", Some (foreignError "json"))
  end.

(** The two audit types have the same methods but for the name of the type
    in messages and contexts. *)
Definition audit_UnmarshalJSON (name : string) (t : time.Time) (data : string)
  : time.Time * option error :=
  if String.eqb data "null" then
    (t, fail (NewValidationError None
                (mapLit [("input_json", anyString "null");
                         ("target_type", anyString name)])
                (name +:+ " cannot be null (received JSON 'null').")))
  else
    match time.jsonUnmarshal data with
    | None =>
      (t, fail (NewValidationError (Some (foreignError "json"))
                  (mapLit [("input_json", anyString data);
                           ("target_type", anyString name)])
                  (name +:+ " must be a valid JSON timestamp.")))
    | Some t' => (t', None)
    end.

Definition audit_Scan (name : string) (t : time.Time) (src : any)
  : time.Time * option error :=
  match src with
  | anyNil =>
    (t, fail (NewValidationError None
                (mapLit [("target_type", anyString name);
                         ("received_value", anyString "nil_from_db")])
                ("Scanned nil value for non-nullable " +:+ name +:+ ".")))
  | anyTime s => (s, None)
  | anyBytes strVal =>
    match parseAuditTimeMultipleLayouts strVal with
    | (_, Some err) =>
      let message := "Failed to convert []byte ('" +:+ strVal +:+ "') to "
                     +:+ name +:+ "." in
      (t, fail (NewValidationError (Some err)
                  (mapLit [("input_bytes", anyString strVal);
                           ("target_type", anyString name)]) message))
    | (parsedTime, None) => (parsedTime, None)
    end
  | anyString s =>
    match parseAuditTimeMultipleLayouts s with
    | (_, Some err) =>
      let message := "Failed to convert string ('" +:+ s +:+ "') to "
                     +:+ name +:+ "." in
      (t, fail (NewValidationError (Some err)
                  (mapLit [("input_string", anyString s);
                           ("target_type", anyString name)]) message))
    | (parsedTime, None) => (parsedTime, None)
    end
  | _ =>
    let message := "Incompatible type (" +:+ typeName src +:+ ") for "
                   +:+ name +:+ "." in
    (t, fail (NewValidationError None
                (mapLit [("received_type", anyString (typeName src));
                         ("target_type", anyString name)]) message))
  end.

Definition CreatedAt_UnmarshalJSON (ca : CreatedAt) (data : string)
  : CreatedAt * option error := audit_UnmarshalJSON "CreatedAt" ca data.

Definition CreatedAt_Value (ca : CreatedAt) : any * option error :=
  (anyTime ca, None).

Definition CreatedAt_Scan (ca : CreatedAt) (src : any) : CreatedAt * option error :=
  audit_Scan "CreatedAt" ca src.

Definition UpdatedAt := time.Time.

Definition NewUpdatedAt (now : time.Time) : UpdatedAt := now.

Definition UpdatedAt_Time (ua : UpdatedAt) : time.Time := ua.

Definition UpdatedAt_MarshalJSON (ua : UpdatedAt) : string * option error :=
  CreatedAt_MarshalJSON ua.

Definition UpdatedAt_UnmarshalJSON (ua : UpdatedAt) (data : string)
  : UpdatedAt * option error := audit_UnmarshalJSON "UpdatedAt" ua data.

Definition UpdatedAt_Value (ua : UpdatedAt) : any * option error :=
  (anyTime ua, None).

Definition UpdatedAt_Scan (ua : UpdatedAt) (src : any) : UpdatedAt * option error :=
  audit_Scan "UpdatedAt" ua src.

(** *** NullableTime (src/types/nullable_time.go) *)

(** The embedded [sql.NullTime]. *)
Record NullableTime := mkNullableTime { Time : time.Time; Valid : bool }.

Definition NewNullableTime (t : time.Time) (valid : bool) : NullableTime :=
  mkNullableTime t valid.

Definition NewValidNullableTime (t : time.Time) : NullableTime :=
  mkNullableTime t true.

Definition NewNullTime : NullableTime := mkNullableTime time.zero false.

Definition NullableTime_TimeOrZero (nt : NullableTime) : time.Time :=
  if Valid nt then Time nt else time.zero.

Definition NullableTime_Set (nt : NullableTime) (t : time.Time) : NullableTime :=
  let nt := mkNullableTime t (Valid nt) in
  mkNullableTime (Time nt) (negb (time.IsZero t)).

Definition NullableTime_SetNull (nt : NullableTime) : NullableTime :=
  let nt := mkNullableTime time.zero (Valid nt) in
  mkNullableTime (Time nt) false.

Definition NullableTime_MarshalJSON (nt : NullableTime) : string * option error :=
  if negb (Valid nt) then (json.MarshalNil, None)
  else match time.jsonMarshal (Time nt) with
       | Some data => (data, None)
       | None => ("", Some (foreignError "json"))
       end.

Definition NullableTime_UnmarshalJSON (nt : NullableTime) (data : string)
  : NullableTime * option error :=
  if String.eqb data "null" then
    let nt := mkNullableTime (Time nt) false in
    let nt := mkNullableTime time.zero (Valid nt) in
    (nt, None)
  else
    match time.jsonUnmarshal data with
    | None =>
      let nt := mkNullableTime (Time nt) false in
      let message :=
        "NullableTime must be a valid JSON timestamp or 'null'; received '"
        +:+ data +:+ "'." in
      (nt, fail (NewValidationError (Some (foreignError "json"))
                   (mapLit [("input_json", anyString data);
                            ("target_type", anyString "NullableTime")]) message))
    | Some tempTime =>
      let nt := mkNullableTime tempTime (Valid nt) in
      let nt := mkNullableTime (Time nt) true in
      (nt, None)
    end.

Definition NullableTime_IsNullable (nt : NullableTime) : bool := negb (Valid nt).

Definition NullableTime_IsZero (nt : NullableTime) : bool := time.IsZero (Time nt).

(** [DeletedAt] and [ArchivedAt] embed a [NullableTime]. *)
Definition DeletedAt := NullableTime.

Definition NewDeletedAtNow (now : time.Time) : DeletedAt := NewNullableTime now true.
Definition NewNilDeletedAt : DeletedAt := NewNullableTime time.zero false.
Definition DeletedAt_SetNow (da : DeletedAt) (now : time.Time) : DeletedAt :=
  mkNullableTime now true.
Definition DeletedAt_IsNullable (da : DeletedAt) : bool := negb (Valid da).
Definition DeletedAt_IsZero (da : DeletedAt) : bool := time.IsZero (Time da).

Definition ArchivedAt := NullableTime.

Definition NewArchivedAtNow (now : time.Time) : ArchivedAt := NewNullableTime now true.
Definition NewNilArchivedAt : ArchivedAt := NewNullableTime time.zero false.
Definition ArchivedAt_SetNow (aa : ArchivedAt) (now : time.Time) : ArchivedAt :=
  mkNullableTime now true.
Definition ArchivedAt_IsNullable (aa : ArchivedAt) : bool := negb (Valid aa).
Definition ArchivedAt_IsZero (aa : ArchivedAt) : bool := time.IsZero (Time aa).

(** *** NullableUUID (src/types/nullable_uuid.go) *)

(** The embedded [uuid.NullUUID]. *)
Record NullableUUID := mkNullableUUID { nuUUID : uuid.UUID; nuValid : bool }.

Definition NewNullableUUID (id : UUID) (valid : bool) : NullableUUID :=
  mkNullableUUID id valid.

Definition NewValidNullableUUID (id : UUID) : NullableUUID :=
  mkNullableUUID id true.

Definition NewNullUUID : NullableUUID := mkNullableUUID uuid.Nil false.

Definition NullableUUID_IsValid (nu : NullableUUID) : bool :=
  nuValid nu && negb (nuUUID nu =? uuid.Nil).

Definition NullableUUID_GetUUID (nu : NullableUUID) : UUID * bool :=
  if negb (nuValid nu) then (Nil, false) else (nuUUID nu, true).

Definition NullableUUID_MarshalJSON (nu : NullableUUID) : string * option error :=
  if negb (nuValid nu) then (json.MarshalNil, None)
  else UUID_jsonMarshal (nuUUID nu).

Definition NullableUUID_UnmarshalJSON (nu : NullableUUID) (data : string)
  : NullableUUID * option error :=
  if String.eqb data "null" then
    let nu := mkNullableUUID (nuUUID nu) false in
    let nu := mkNullableUUID uuid.Nil (nuValid nu) in
    (nu, None)
  else
    match UUID_jsonUnmarshal Nil data with
    | (_, Some err) =>
      let nu := mkNullableUUID (nuUUID nu) false in
      let message :=
        "NullableUUID must be a valid JSON UUID string or 'null'; received '"
        +:+ data +:+ "'." in
      (nu, fail (NewValidationError (Some err)
                   (mapLit [("input_json", anyString data);
                            ("target_type", anyString "NullableUUID")]) message))
    | (tempUUID, None) =>
      let nu := mkNullableUUID tempUUID (nuValid nu) in
      let nu := mkNullableUUID (nuUUID nu) true in
      (nu, None)
    end.

(** *** Storage of the nullable wrappers

    [NullableTime] and [NullableUUID] declare no [Value] and no [Scan]: a
    call reaches the methods of the embedded [sql.NullTime] (package
    database/sql) and [uuid.NullUUID] (package github.com/google/uuid). *)

(** [sql.NullTime.Value] *)
Definition NullableTime_Value (nt : NullableTime) : any * option error :=
  if negb (Valid nt) then (anyNil, None) else (anyTime (Time nt), None).

(** [sql.NullTime.Scan]: a nil source clears the value; any other source
    marks it valid and is then converted, which assigns an instant and fails
    for a source of another type. *)
Definition NullableTime_Scan (nt : NullableTime) (value : any)
  : NullableTime * option error :=
  match value with
  | anyNil => (mkNullableTime time.zero false, None)
  | anyTime t =>
    let nt := mkNullableTime (Time nt) true in
    (mkNullableTime t (Valid nt), None)
  | _ =>
    let nt := mkNullableTime (Time nt) true in
    (nt, Some (foreignError "sql"))
  end.

(** [uuid.NullUUID.Value] *)
Definition NullableUUID_Value (nu : NullableUUID) : any * option error :=
  if negb (nuValid nu) then (anyNil, None) else uuid.Value (nuUUID nu).

(** [uuid.NullUUID.Scan] *)
Definition NullableUUID_Scan (nu : NullableUUID) (value : any)
  : NullableUUID * option error :=
  match value with
  | anyNil => (mkNullableUUID uuid.Nil false, None)
  | _ =>
    match uuid.Scan (nuUUID nu) value with
    | (u, Some err) => (mkNullableUUID u false, Some err)
    | (u, None) => (mkNullableUUID u true, None)
    end
  end.

End Types.

End types.

(** ** Sample library tables

    Instances of the library interfaces for running the definitions on
    concrete inputs.  The case tables hold the four runes above [MaxASCII]
    whose image is an ASCII letter (U+0130 and U+212A in lower case, U+0131
    and U+017F in upper case) and leave the other runes as they are. *)
Module sample.

Definition caseTables : unicode.CaseTables :=
  {| unicode.lowerTable r :=
       if r =? 0x0130 then 0x69 else if r =? 0x212A then 0x6B else r;
     unicode.upperTable r :=
       if r =? 0x0131 then 0x49 else if r =? 0x017F then 0x53 else r |}.

(** A textual form for the numbers that stand for UUIDs: the decimal
    numeral. *)
Definition parseZ (s : string) : option Z :=
  match bytes s with
  | [] => None
  | c :: rest =>
    if Ascii.eqb c "-" then
      match rest with
      | [] => None
      | _ => option_map Z.opp (strconv.parseDigits rest 0)
      end
    else strconv.parseDigits (c :: rest) 0
  end.

Definition uuidText : uuid.Text :=
  {| uuid.Parse := parseZ; uuid.String := strconv.Itoa |}.

Definition timeFormats : time.Formats :=
  {| time.Parse _ _ := None;
     time.jsonUnmarshal _ := None;
     time.jsonMarshal _ := None |}.

(** A JSON form for instants, after the one of package time: RFC 3339 with
    the fraction of the second up to its last digit that is not zero, [Z] for
    the zone of offset zero and hours and minutes for another zone.  The
    writer refuses a year outside 0 to 9999 and a zone of 24 hours or more;
    the reader takes the fields at their places and checks the range of
    each. *)

(** [n] in decimal on [width] places. *)
Fixpoint appendInt (width : nat) (n : Z) : list ascii :=
  match width with
  | O => []
  | S w =>
    strconv.digitChar (n / 10 ^ Z.of_nat w) :: appendInt w (n mod 10 ^ Z.of_nat w)
  end.

(** The digits of [n] on [width] places up to the last one that is not
    zero. *)
Fixpoint fracDigits (width : nat) (n : Z) : list ascii :=
  match width with
  | O => []
  | S w =>
    if n =? 0 then []
    else strconv.digitChar (n / 10 ^ Z.of_nat w)
         :: fracDigits w (n mod 10 ^ Z.of_nat w)
  end.

Definition appendNano (nsec : Z) : list ascii :=
  if nsec =? 0 then [] else "."%char :: fracDigits 9 nsec.

Definition appendZone (offset : Z) : list ascii :=
  if offset =? 0 then ["Z"%char]
  else
    let zone := Z.quot offset 60 in
    let sign := if zone <? 0 then "-"%char else "+"%char in
    let zone := if zone <? 0 then - zone else zone in
    sign :: appendInt 2 (zone / 60) ++ ":"%char :: appendInt 2 (zone mod 60).

Definition formatRFC3339 (t : time.Time) : list ascii :=
  let '(year, month, day) := time.absDate (time.abs t) in
  let '(hour, min, s) := time.Clock t in
  appendInt 4 year ++ "-"%char :: appendInt 2 month ++ "-"%char :: appendInt 2 day
  ++ "T"%char :: appendInt 2 hour ++ ":"%char :: appendInt 2 min
  ++ ":"%char :: appendInt 2 s
  ++ appendNano (time.nsec t) ++ appendZone (time.loc t).

(** The hours of a zone offset, as written. *)
Definition zoneHour (offset : Z) : Z :=
  let zone := Z.quot offset 60 in
  (if zone <? 0 then - zone else zone) / 60.

Definition marshalTime (t : time.Time) : option string :=
  if (0 <=? time.Year t) && (time.Year t <=? 9999) && (zoneHour (time.loc t) <? 24)
  then Some (json.MarshalString (str (formatRFC3339 t)))
  else None.

Definition parseUint (s : list ascii) (min max : Z) : option Z :=
  match strconv.parseDigits s 0 with
  | Some x => if (x <? min) || (max <? x) then None else Some x
  | None => None
  end.

(** The value of the digits of a fraction, of which nine count. *)
Definition parseNanoseconds (digits : list ascii) : Z :=
  let ds := firstn 9 digits in
  match strconv.parseDigits ds 0 with
  | Some ns => ns * 10 ^ (9 - Z.of_nat (length ds))
  | None => 0
  end.

Definition parseZone (s : list ascii) : option Z :=
  match s with
  | [z] => if Ascii.eqb z "Z" then Some 0 else None
  | [sign; h1; h2; c; m1; m2] =>
    match parseUint [h1; h2] 0 23, parseUint [m1; m2] 0 59 with
    | Some hr, Some mm =>
      let zoneOffset := (hr * 60 + mm) * 60 in
      if negb (Ascii.eqb c ":") then None
      else if Ascii.eqb sign "-" then Some (- zoneOffset)
      else if Ascii.eqb sign "+" then Some zoneOffset
      else None
    | _, _ => None
    end
  | _ => None
  end.

(** The fraction of the second, if one is written, and what follows it. *)
Definition parseFraction (s : list ascii) : Z * list ascii :=
  match s with
  | dot :: c :: _ =>
    if Ascii.eqb dot "." && isDigit c then
      let '(ds, tail) := json.spanDigits (tl s) in (parseNanoseconds ds, tail)
    else (0, s)
  | _ => (0, s)
  end.

Definition parseRFC3339 (s : list ascii) : option time.Time :=
  match s with
  | y1 :: y2 :: y3 :: y4 :: c1 :: m1 :: m2 :: c2 :: d1 :: d2 :: c3
    :: h1 :: h2 :: c4 :: n1 :: n2 :: c5 :: s1 :: s2 :: s =>
    match parseUint [y1; y2; y3; y4] 0 9999, parseUint [m1; m2] 1 12 with
    | Some year, Some month =>
      match parseUint [d1; d2] 1 (time.daysIn month year),
            parseUint [h1; h2] 0 23, parseUint [n1; n2] 0 59,
            parseUint [s1; s2] 0 59 with
      | Some day, Some hour, Some min, Some sec =>
        if negb (Ascii.eqb c1 "-" && Ascii.eqb c2 "-" && Ascii.eqb c3 "T"
                 && Ascii.eqb c4 ":" && Ascii.eqb c5 ":") then None
        else
          let '(nsec, s) := parseFraction s in
          let t := time.Date year month day hour min sec nsec time.UTC in
          match parseZone s with
          | Some zoneOffset =>
            Some (time.mkTime (time.sec t - zoneOffset) (time.nsec t) zoneOffset)
          | None => None
          end
      | _, _, _, _ => None
      end
    | _, _ => None
    end
  | _ => None
  end.

Definition unmarshalTime (data : string) : option time.Time :=
  match json.parseString data with
  | json.pValue s => parseRFC3339 (bytes s)
  | _ => None
  end.

Definition rfc3339Formats : time.Formats :=
  {| time.Parse _ _ := None;
     time.jsonUnmarshal := unmarshalTime;
     time.jsonMarshal := marshalTime |}.

End sample.

(** ** Vocabulary of the statements *)

(** A call failed with a structured error of the category invalid-input. *)
Definition invalidInput (err : option msg.error) : Prop :=
  exists e, err = Some (msg.messageError e) /\ msg.Code e = msg.CodeInvalid.

(** A failed call reports the raw input [raw] under [key]: the error is
    structured, of the category invalid-input, and its context map holds
    [raw] under [key]. *)
Definition reportsInput (err : msg.error) (key : string) (raw : any) : Prop :=
  exists e, err = msg.messageError e
            /\ msg.Code e = msg.CodeInvalid
            /\ msg.ctxGet (msg.Context e) key = Some raw.

(** The outcome of [validateAndPrefixNormalizedPhone] without its errors:
    the final number, if there is one. *)
Definition phoneFinal (normalizedNum : string) : option string :=
  let checks (finalNum : string) :=
    if (len finalNum =? types.NormalizedPhoneLength)
       && strings.HasPrefix finalNum types.DefaultCountryCode
    then Some finalNum else None in
  if len normalizedNum =? types.DDDLength + types.LocalPhoneNumberLength then
    if strings.HasPrefix normalizedNum types.DefaultCountryCode then None
    else checks (types.DefaultCountryCode +:+ normalizedNum)
  else checks normalizedNum.

(** The invariant of a Phone: thirteen digits that begin with the country
    code. *)
Definition phoneInvariant (p : types.Phone) : Prop :=
  len p = 13
  /\ Forall (fun c => isDigit c = true) (bytes p)
  /\ strings.HasPrefix p types.DefaultCountryCode = true.

(** The bytes [json.Marshal] writes as they are, and the ampersand, which it
    writes as an escape. *)
Definition jsonPlain (c : ascii) : bool :=
  (byte c <? utf8.RuneSelf) && (json.htmlSafe (byte c) || (byte c =? 38)).

(** What [json.Marshal] writes for a byte of [jsonPlain]. *)
Definition jsonEnc (c : ascii) : list ascii :=
  if json.htmlSafe (byte c) then [c] else bytes ("\" +:+ "u0026").

(** The runes that occur in some class of a pattern. *)
Fixpoint reAlphabet (r : regexp.re) (c : Z) : bool :=
  match r with
  | regexp.Void | regexp.Eps => false
  | regexp.Class ranges => regexp.inRanges ranges c
  | regexp.Cat r1 r2 | regexp.Alt r1 r2 => reAlphabet r1 c || reAlphabet r2 c
  | regexp.Star r1 | regexp.Repeat r1 _ _ => reAlphabet r1 c
  end.

(** The invariant of an Email: not empty, at most 254 bytes, of the shape of
    the pattern, and without an upper-case ASCII letter. *)
Definition emailInvariant (e : types.Email) : Prop :=
  e <> ""
  /\ len e <= types.MaxEmailLength
  /\ regexp.MatchString types.emailRegexPattern e = true
  /\ Forall (fun c => isUpperASCII c = false) (bytes e).

(** The lower-case table never yields an upper-case ASCII letter. *)
Definition lowerTableSound `{unicode.CaseTables} : Prop :=
  forall r, unicode.MaxASCII < r -> ~ (65 <= unicode.lowerTable r <= 90).

(** Parsing reads back what printing wrote, and no UUID prints as the empty
    string. *)
Definition uuidTextSound `{uuid.Text} : Prop :=
  forall u, uuid.Parse (uuid.String u) = Some u /\ uuid.String u <> "".

(** A byte that is not ASCII. *)
Definition highByte (c : ascii) : Prop := utf8.RuneSelf <= byte c.

(** The last byte of a non-empty string. *)
Definition lastByte (p : list ascii) : ascii := nth (length p - 1) p zero.

(** An ASCII byte that is not a space. *)
Definition plainByte (c : ascii) : Prop :=
  byte c < utf8.RuneSelf /\ unicode.IsSpace (byte c) = false.

(** From index [i] on, [s] holds no digit. *)
Definition noDigitFrom (s : list ascii) (i : Z) : Prop :=
  List.filter isDigit (drop (Z.to_nat i) s) = [].

(** An input of thirty-seven characters whose digits are a valid number. *)
Definition longPhoneInput : string := "+55 (62) 9-8-2-8-7 - 0-0-5-3 (mobile)".

(** The number of the day of a calendar date, counted from January 1 of
    year 1, as [time.Date] adds it up. *)
Definition dayNumber (year month day : Z) : Z :=
  time.daysSinceEpoch year + time.daysBeforeAt (month - 1)
  + (if time.isLeap year && (time.March <=? month) then 1 else 0)
  + (day - 1).

(** Month and day of the month from the day of the year, as the last part of
    [time.absDate] finds them; [leap] tells whether the year is a leap
    year. *)
Definition monthDay (leap : bool) (yday : Z) : Z * Z :=
  let day := yday in
  if leap && (day =? 31 + 29 - 1) then (time.February, 29)
  else
    let day := if leap && (31 + 29 - 1 <? day) then day - 1 else day in
    let month := day / 31 in
    let end_ := time.daysBeforeAt (month + 1) in
    let '(month, begin) :=
      if end_ <=? day then (month + 1, end_) else (month, time.daysBeforeAt month) in
    (month + 1, day - begin + 1).

(** A date of the calendar: a month of the year and a day of that month. *)
Definition validDate (year month day : Z) : Prop :=
  1 <= month <= 12 /\ 1 <= day <= time.daysIn month year.

(** The whole numbers from [lo] on, [n] of them. *)
Fixpoint zrange (lo : Z) (n : nat) : list Z :=
  match n with
  | O => []
  | S n' => lo :: zrange (lo + 1) n'
  end.

(** The number of days of a month, given whether the year is a leap year. *)
Definition daysInLeap (leap : bool) (m : Z) : Z :=
  if (m =? time.February) && leap then 29
  else time.daysBeforeAt m - time.daysBeforeAt (m - 1).

(** The day of the year of a date, counted from zero. *)
Definition ydayOf (leap : bool) (m d : Z) : Z :=
  time.daysBeforeAt (m - 1) + (if leap && (time.March <=? m) then 1 else 0) + (d - 1).

(** [monthDay] finds a month and a day of that month, of which [yday] is the
    day of the year. *)
Definition monthDayOk (leap : bool) (yday : Z) : bool :=
  let '(m, d) := monthDay leap yday in
  (1 <=? m) && (m <=? 12) && (1 <=? d) && (d <=? daysInLeap leap m)
  && (ydayOf leap m d =? yday).

(** [monthDay] finds every day of month [m] from its day of the year. *)
Definition rebuildOk (leap : bool) (m : Z) : bool :=
  forallb (fun d => negb (d <=? daysInLeap leap m)
                    || (let '(m', d') := monthDay leap (ydayOf leap m d) in
                        (m' =? m) && (d' =? d)))
          (zrange 1 31).

(** Year and month as [time.Date] brings them into range, for a month from
    0 to 13. *)
Definition wrapMonth (y m : Z) : Z * Z :=
  if m =? 0 then (y - 1, 12) else if m =? 13 then (y + 1, 1) else (y, m).

(** An instant as the library keeps it: the nanoseconds are within the
    second. *)
Definition wellFormed (t : time.Time) : Prop := 0 <= time.nsec t < 1000000000.

(** The textual form of a UUID is made of bytes that [json.Marshal] writes
    as they are. *)
Definition uuidTextPlain `{uuid.Text} : Prop :=
  forall u, Forall (fun c => jsonPlain c = true) (bytes (uuid.String u)).

(** The zone of an instant is a whole number of minutes from UTC, which is
    what the JSON form of an instant can tell of a zone. *)
Definition wholeMinutes (t : time.Time) : Prop := time.loc t mod 60 = 0.

(** What [json.Marshal] writes for an instant is not [null], and
    [json.Unmarshal] reads it back as the instant. *)
Definition timeJsonSound `{time.Formats} : Prop :=
  forall t data,
    wellFormed t -> wholeMinutes t ->
    time.jsonMarshal t = Some data ->
    data <> "null" /\ time.jsonUnmarshal data = Some t.

(** A call failed with a structured error of the category invalid-input that
    wraps no error, has the message [message], and holds in its context
    every key of [ctx] with its value. *)
Definition failsWith (r : string * option msg.error) (message : string)
    (ctx : list (string * any)) : Prop :=
  exists e, r = ("", Some (msg.messageError e))
            /\ msg.Code e = msg.CodeInvalid
            /\ msg.Message e = message
            /\ msg.Err e = None
            /\ Forall (fun kv => msg.ctxGet (msg.Context e) (fst kv) = Some (snd kv)) ctx.

(** The strings of runes a pattern stands for. *)
Inductive matches : regexp.re -> list Z -> Prop :=
  | mEps : matches regexp.Eps []
  | mClass rs c : regexp.inRanges rs c = true -> matches (regexp.Class rs) [c]
  | mCat r1 r2 s1 s2 :
      matches r1 s1 -> matches r2 s2 -> matches (regexp.Cat r1 r2) (s1 ++ s2)
  | mAltL r1 r2 s : matches r1 s -> matches (regexp.Alt r1 r2) s
  | mAltR r1 r2 s : matches r2 s -> matches (regexp.Alt r1 r2) s
  | mStarNil r : matches (regexp.Star r) []
  | mStarApp r s1 s2 :
      matches r s1 -> matches (regexp.Star r) s2 -> matches (regexp.Star r) (s1 ++ s2)
  | mRepeatNil r min max :
      (min =? 0)%nat || regexp.nullable r = true -> matches (regexp.Repeat r min max) []
  | mRepeatApp r min max s1 s2 :
      matches r s1 -> matches (regexp.Repeat r (pred min) max) s2 ->
      matches (regexp.Repeat r min (S max)) (s1 ++ s2).

(** The bytes of the part of an address after the at sign: letters, digits,
    the hyphen and the dot. *)
Definition domainClass : list (Z * Z) :=
  types.alnum ++ [regexp.one "-"; regexp.one "."].

(** The part of [emailRegexPattern] after the at sign. *)
Definition domainRe : regexp.re :=
  regexp.Cat types.label
    (regexp.Star (regexp.Cat (regexp.Class [regexp.one "."]) types.label)).


(** * Properties *)

(** Linear arithmetic with division and remainder by constants. *)
Ltac dlia := Z.div_mod_to_equations; lia.

(** Boolean comparisons of the hypotheses as propositions. *)
Ltac b2p :=
  repeat match goal with
         | H : (_ <? _) = true |- _ => apply Z.ltb_lt in H
         | H : (_ <? _) = false |- _ => apply Z.ltb_ge in H
         | H : (_ <=? _) = true |- _ => apply Z.leb_le in H
         | H : (_ <=? _) = false |- _ => apply Z.leb_gt in H
         | H : (_ =? _) = true |- _ => apply Z.eqb_eq in H
         | H : (_ =? _) = false |- _ => apply Z.eqb_neq in H
         | H : (_ && _) = true |- _ => apply andb_true_iff in H; destruct H
         | H : (_ || _) = false |- _ => apply orb_false_iff in H; destruct H
         end.
Ltac blia := b2p; lia.


(** ** Sanity checks of the library models *)

Example TrimSpace_ascii : strings.TrimSpace "  a b	 " = "a b".
Proof. reflexivity. Qed.
Example Itoa_ex : strconv.Itoa (-1203) = "-1203" /\ strconv.Itoa 0 = "0" /\ strconv.Itoa 13 = "13".
Proof. vm_compute. auto. Qed.
Example ParseInt_ex : strconv.ParseInt "-0" 64 = Some 0 /\ strconv.ParseInt "+12" 32 = Some 12 /\ strconv.ParseInt "2147483648" 32 = None /\ strconv.ParseInt "-2147483648" 32 = Some (-2147483648) /\ strconv.ParseInt "-" 32 = None.
Proof. vm_compute. auto 10. Qed.
Example trim_nbsp : strings.TrimSpace (str [chr 0xC2; chr 0xA0; "a"%char; chr 0xE2; chr 0x80; chr 0xA8]) = "a".
Proof. vm_compute. reflexivity. Qed.
Example trim_bad : strings.TrimSpace (str [chr 0xE2; chr 0xC2; chr 0x85]) = str [chr 0xE2].
Proof. vm_compute. reflexivity. Qed.
Example count_ex : utf8.RuneCountInString (str [chr 0xE2; chr 0xC2; chr 0x85; "a"%char]) = 3.
Proof. vm_compute. reflexivity. Qed.
Example Date_ex :
  let t := time.Date 2024 3 15 0 0 0 0 time.UTC in
  (time.Year t, time.Month t, time.Day t) = (2024, 3, 15)
  /\ time.Day (time.Date 2024 4 0 0 0 0 0 time.UTC) = 31
  /\ time.Day (time.Date 2024 3 0 0 0 0 0 time.UTC) = 29
  /\ time.Day (time.Date 2023 3 0 0 0 0 0 time.UTC) = 28
  /\ time.Day (time.Date 2024 13 0 0 0 0 0 time.UTC) = 31
  /\ time.AddDate (time.Date 2024 3 31 10 20 30 5 3600) 0 (-1) 0 = time.Date 2024 3 2 10 20 30 5 3600
  /\ time.Date 1 1 1 0 0 0 0 time.UTC = time.zero.
Proof. vm_compute. auto 10. Qed.
Example json_ex2 :
  json.UnmarshalString (json.MarshalString "a&b@x.com") "" = ("a&b@x.com", None)
  /\ json.UnmarshalString " null " "x" = ("x", None)
  /\ json.UnmarshalString (str (bytes " " ++ [chr 34] ++ bytes "a\né😀\ud83dx" ++ [chr 34])) ""
     = (str (bytes "a" ++ [chr 10; chr 0xC3; chr 0xA9; chr 0xF0; chr 0x9F; chr 0x98; chr 0x80; chr 0xEF; chr 0xBF; chr 0xBD] ++ bytes "x"), None)
  /\ json.UnmarshalInt " -12 " 0 = (-12, None)
  /\ json.UnmarshalInt "1.0" 0 = (0, Some json.jsonError)
  /\ json.UnmarshalInt "01" 0 = (0, Some json.jsonError)
  /\ json.UnmarshalInt "null" 7 = (7, None)
  /\ json.UnmarshalInt "9223372036854775808" 0 = (0, Some json.jsonError)
  /\ json.UnmarshalInt "-9223372036854775808" 0 = (-9223372036854775808, None)
  /\ json.UnmarshalString "123" "" = ("", Some json.jsonError).
Proof. vm_compute. auto 20. Qed.


(** ** The error layer *)

Lemma ToResponse_eq (e : msg.MessageError) :
  msg.ToResponse e =
  msg.mkErrorResponse (msg.HTTPStatus e) (msg.Message e) (msg.Code e)
    (msg.Context e) (map msg.ToResponse (msg.Details e)).
Proof.
  destruct e as [err m c ctx ds]; simpl. f_equal.
  match goal with
  | |- ?loop ds [] = _ =>
    assert (Hloop : forall acc, loop ds acc = acc ++ map msg.ToResponse ds)
  end.
  { induction ds as [|d ds IH]; intros acc; simpl.
    - now rewrite app_nil_r.
    - rewrite IH, <- app_assoc. reflexivity. }
  apply Hloop.
Qed.

(** C9. The projection of an error: the status is a function of the category
    alone and is 400 for invalid-input; message, category and context are
    those of the error; the details are the projections of the children, one
    for each child, in the order of the children. *)
Theorem C9_ToResponse_projection :
  (forall err m ctx ds,
      msg.StatusCode (msg.ToResponse (msg.mkMessageError err m msg.CodeInvalid ctx ds))
      = 400)
  /\ (forall e,
        msg.HTTPStatus e
        = msg.HTTPStatus (msg.mkMessageError None "" (msg.Code e) None []))
  /\ (forall e,
        msg.StatusCode (msg.ToResponse e) = msg.HTTPStatus e
        /\ msg.respMessage (msg.ToResponse e) = msg.Message e
        /\ msg.respCode (msg.ToResponse e) = msg.Code e
        /\ msg.respContext (msg.ToResponse e) = msg.Context e
        /\ msg.respDetails (msg.ToResponse e) = map msg.ToResponse (msg.Details e))
  /\ (forall e,
        Forall2 (fun child r =>
                   msg.StatusCode r = msg.HTTPStatus child
                   /\ msg.respMessage r = msg.Message child
                   /\ msg.respCode r = msg.Code child
                   /\ msg.respContext r = msg.Context child)
                (msg.Details e) (msg.respDetails (msg.ToResponse e))).
Proof.
  split; [|split; [|split]].
  - intros. rewrite ToResponse_eq. reflexivity.
  - intros [err m c ctx ds]. reflexivity.
  - intros e. rewrite ToResponse_eq. simpl. repeat split.
  - intros e. rewrite ToResponse_eq. simpl.
    induction (msg.Details e) as [|d ds IH]; simpl; constructor; auto.
    rewrite ToResponse_eq. simpl. repeat split.
Qed.

(** The aggregate of the package's test: two validation errors under a
    parent. *)
Example ToResponse_aggregate :
  let detail1 := msg.NewValidationError None
                   (msg.mapLit [("field", anyString "email")]) "must be a valid email" in
  let detail2 := msg.NewValidationError None
                   (msg.mapLit [("field", anyString "password")])
                   "must be at least 10 chars" in
  let parent := msg.mkMessageError (Some (msg.errorString "validation failed"))
                  "One or more fields are invalid" msg.CodeInvalid
                  (msg.mapLit [("form", anyString "registration")])
                  [detail1; detail2] in
  msg.ToResponse parent
  = msg.mkErrorResponse 400 "One or more fields are invalid" "invalid_input"
      (msg.mapLit [("form", anyString "registration")])
      [msg.mkErrorResponse 400 "must be a valid email" "invalid_input"
         (msg.mapLit [("field", anyString "email")]) [];
       msg.mkErrorResponse 400 "must be at least 10 chars" "invalid_input"
         (msg.mapLit [("field", anyString "password")]) []].
Proof. reflexivity. Qed.

(** ** Claims settled by the definitions alone *)

Section Direct.
Context `{unicode.CaseTables} `{uuid.Text} `{time.Formats}.
Import msg types.

(** C6. Decoding the JSON token null clears a NullableTime and a NullableUUID
    to the absent state without error, and fails with a structured error of
    the category invalid-input for CreatedAt, UpdatedAt and Version, which are
    left as they were. *)
Theorem C6_null_token :
  (forall nt, NullableTime_UnmarshalJSON nt "null"
              = (mkNullableTime time.zero false, None))
  /\ (forall nu, NullableUUID_UnmarshalJSON nu "null"
                 = (mkNullableUUID uuid.Nil false, None))
  /\ (forall ca, fst (CreatedAt_UnmarshalJSON ca "null") = ca
                 /\ invalidInput (snd (CreatedAt_UnmarshalJSON ca "null")))
  /\ (forall ua, fst (UpdatedAt_UnmarshalJSON ua "null") = ua
                 /\ invalidInput (snd (UpdatedAt_UnmarshalJSON ua "null")))
  /\ (forall v, fst (Version_UnmarshalJSON v "null") = v
                /\ invalidInput (snd (Version_UnmarshalJSON v "null"))).
Proof.
  repeat split; try reflexivity; eexists; split; reflexivity.
Qed.

(** C8. Set derives validity from the instant: with the zero instant the
    wrapper is not valid.  A wrapper built with the flag forced to true around
    the zero instant is zero and yet not null. *)
Theorem C8_NullableTime_zero :
  (forall nt t, Valid (NullableTime_Set nt t) = negb (time.IsZero t)
                /\ Time (NullableTime_Set nt t) = t)
  /\ (forall nt, Valid (NullableTime_Set nt time.zero) = false)
  /\ NullableTime_IsZero (NewNullableTime time.zero true) = true
  /\ NullableTime_IsNullable (NewNullableTime time.zero true) = false.
Proof. repeat split. Qed.

(** C10. Scan of a nil source gives the nil UUID without error, and fails
    with an invalid-input error for Email, Phone, Version, CreatedAt and
    UpdatedAt. *)
Theorem C10_Scan_nil :
  (forall u, UUID_Scan u anyNil = (Nil, None) /\ UUID_IsNil Nil = true)
  /\ (forall e, fst (Email_Scan e anyNil) = e /\ invalidInput (snd (Email_Scan e anyNil)))
  /\ (forall p, fst (Phone_Scan p anyNil) = p /\ invalidInput (snd (Phone_Scan p anyNil)))
  /\ (forall v, fst (Version_Scan v anyNil) = v
                /\ invalidInput (snd (Version_Scan v anyNil)))
  /\ (forall ca, fst (CreatedAt_Scan ca anyNil) = ca
                 /\ invalidInput (snd (CreatedAt_Scan ca anyNil)))
  /\ (forall ua, fst (UpdatedAt_Scan ua anyNil) = ua
                 /\ invalidInput (snd (UpdatedAt_Scan ua anyNil))).
Proof.
  repeat split; try reflexivity; eexists; split; reflexivity.
Qed.

End Direct.

(** C7. The bounds of NewDay and the two wrap-around computations on
    2024-03-15. *)
Theorem C7_Day_examples :
  let today := time.Date 2024 time.March 15 0 0 0 0 time.UTC in
  types.NewDay 0 = (0, Some types.ErrInvalidDay)
  /\ types.NewDay 32 = (0, Some types.ErrInvalidDay)
  /\ types.NewDay 1 = (1, None)
  /\ types.NewDay 31 = (31, None)
  /\ types.Day_DaysUntil 10 today = 26
  /\ types.Day_DaysOverdue 20 today = 24
  /\ time.Day (time.Date 2024 (time.March + 1) 0 0 0 0 0 time.UTC) = 31
  /\ time.Day (time.Date 2024 (time.February + 1) 0 0 0 0 0 time.UTC) = 29.
Proof. vm_compute. repeat split. Qed.

(** C4. The three spellings of one number normalize to the same thirteen
    digits; thirteen digits under another country code are rejected, and
    eleven digits that begin with the country code are rejected as ambiguous,
    not prefixed. *)
Theorem C4_Phone_examples :
  types.NewPhone "(62) 98287-0053" = ("5562982870053", None)
  /\ types.NewPhone "+55 62 98287-0053" = ("5562982870053", None)
  /\ types.NewPhone "62982870053" = ("5562982870053", None)
  /\ (exists e, types.NewPhone "5462982870053" = ("", Some (msg.messageError e))
                /\ msg.Code e = msg.CodeInvalid
                /\ msg.Message e
                   = "Normalized 13-digit phone number must start with country code '55'.")
  /\ (exists e, types.NewPhone "55123456789" = ("", Some (msg.messageError e))
                /\ msg.Code e = msg.CodeInvalid
                /\ msg.Message e
                   = "Invalid phone number format: 11-digit number starting with country code '55' is ambiguous or incomplete.").
Proof.
  repeat split; try (vm_compute; reflexivity);
    eexists; (split; [vm_compute; reflexivity | split; reflexivity]).
Qed.

(** ** Bytes, strings and runes *)

Lemma byte_range (c : ascii) : 0 <= byte c < 256.
Proof.
  unfold byte. pose proof (N_ascii_bounded c). lia.
Qed.

Lemma byte_chr (b : Z) : 0 <= b < 256 -> byte (chr b) = b.
Proof.
  intros Hb. unfold byte, chr. rewrite N_ascii_embedding by lia. lia.
Qed.

Lemma chr_byte (c : ascii) : chr (byte c) = c.
Proof.
  unfold byte, chr. rewrite N2Z.id. apply ascii_N_embedding.
Qed.

Lemma byte_inj (c d : ascii) : byte c = byte d -> c = d.
Proof.
  intros Heq. rewrite <- (chr_byte c), <- (chr_byte d). now rewrite Heq.
Qed.

Lemma str_bytes (s : string) : str (bytes s) = s.
Proof. apply string_of_list_ascii_of_string. Qed.

Lemma bytes_str (l : list ascii) : bytes (str l) = l.
Proof. apply list_ascii_of_string_of_list_ascii. Qed.

Lemma length_bytes (s : string) : length (bytes s) = String.length s.
Proof. unfold bytes. induction s; simpl; congruence. Qed.

Lemma bytes_app (s t : string) : bytes (s +:+ t) = bytes s ++ bytes t.
Proof.
  unfold bytes. induction s as [|a s IH]; [reflexivity|].
  change (String a s +:+ t) with (String a (s +:+ t)). simpl. now rewrite IH.
Qed.

Lemma bytes_inj (s t : string) : bytes s = bytes t -> s = t.
Proof.
  intros Heq. rewrite <- (str_bytes s), <- (str_bytes t). now rewrite Heq.
Qed.

Lemma len_bytes (s : string) : len s = Z.of_nat (length (bytes s)).
Proof. unfold len. now rewrite length_bytes. Qed.

Lemma String_eqb_empty (s : string) : String.eqb s "" = true <-> bytes s = [].
Proof.
  destruct s; simpl; split; congruence.
Qed.

(** Bitwise or is at least either operand and at most their sum. *)
Lemma lor_lower_l (a b : Z) : 0 <= b -> a <= Z.lor a b.
Proof.
  intros Hb.
  assert (Hd : 0 <= Z.ldiff b a) by (apply Z.ldiff_nonneg; auto).
  assert (He : Z.lor a b = a + Z.ldiff b a).
  { rewrite Z.add_nocarry_lor.
    - apply Z.bits_inj'. intros n Hn.
      rewrite !Z.lor_spec, Z.ldiff_spec.
      destruct (Z.testbit a n), (Z.testbit b n); reflexivity.
    - rewrite Z.land_comm. apply Z.land_ldiff. }
  lia.
Qed.

Lemma lor_lower_r (a b : Z) : 0 <= a -> b <= Z.lor a b.
Proof. rewrite Z.lor_comm. apply lor_lower_l. Qed.

Lemma lor_upper (a b : Z) : 0 <= a -> 0 <= b -> Z.lor a b <= a + b.
Proof.
  intros Ha Hb. pose proof (Z.add_lor_land a b).
  assert (0 <= Z.land a b) by (apply Z.land_nonneg; auto). lia.
Qed.

Lemma land_mask_range (a : Z) (n : Z) :
  0 <= n -> 0 <= Z.land a (Z.ones n) < 2 ^ n.
Proof.
  intros Hn. rewrite Z.land_ones by assumption. apply Z.mod_pos_bound. lia.
Qed.

(** *** Decoding one rune *)

(** What [DecodeRune] returns on a non-empty string: an ASCII byte is its own
    rune; otherwise the rune is at least [RuneSelf], a width of one means
    [RuneError], and the bytes the rune takes are all high. *)
Lemma DecodeRune_cons (c : ascii) (t : list ascii) (r : Z) (n : nat) :
  utf8.DecodeRune (c :: t) = (r, n) ->
  (byte c < utf8.RuneSelf /\ r = byte c /\ n = 1%nat)
  \/ (utf8.RuneSelf <= byte c /\ utf8.RuneSelf <= r
      /\ (1 <= n <= 4)%nat /\ (n <= length (c :: t))%nat
      /\ (n = 1%nat -> r = utf8.RuneError)
      /\ Forall highByte (take n (c :: t))).
Proof.
  pose proof (byte_range c) as Hc.
  unfold utf8.DecodeRune.
  assert (Hone : utf8.RuneSelf <= byte c ->
                 utf8.RuneSelf <= byte c /\ utf8.RuneSelf <= utf8.RuneError
                 /\ (1 <= 1 <= 4)%nat /\ (1 <= length (c :: t))%nat
                 /\ (1%nat = 1%nat -> utf8.RuneError = utf8.RuneError)
                 /\ Forall highByte (take 1 (c :: t))).
  { intros Hh. repeat split; try (simpl; lia); try (unfold utf8.RuneSelf, utf8.RuneError; lia).
    simpl. rewrite take_0. repeat constructor. exact Hh. }
  assert (Hmulti : forall sz lo hi,
    utf8.first (byte c) = utf8.fMulti sz lo hi ->
    0xC2 <= byte c /\ utf8.locb <= lo /\ hi <= utf8.hicb
    /\ ((sz = 2%nat /\ 2 <= Z.land (byte c) utf8.mask2)
        \/ (sz = 3%nat /\ (1 <= Z.land (byte c) utf8.mask3 \/ 0xA0 <= lo))
        \/ (sz = 4%nat /\ (1 <= Z.land (byte c) utf8.mask4 \/ 0x90 <= lo)))).
  { intros sz lo hi. unfold utf8.first, utf8.locb, utf8.hicb.
    change utf8.mask2 with (Z.ones 5). change utf8.mask3 with (Z.ones 4).
    change utf8.mask4 with (Z.ones 3). rewrite !Z.land_ones by lia.
    change (2 ^ 5) with 32. change (2 ^ 4) with 16. change (2 ^ 3) with 8.
    repeat match goal with
           | |- context [if ?b then _ else _] => destruct b eqn:?
           end; intros Heq; inversion Heq; subst; dlia. }
  destruct (utf8.first (byte c)) as [| |sz lo hi] eqn:Hfirst.
  - intros Heq; inversion Heq; subst. left.
    unfold utf8.first in Hfirst. destruct (byte c <? 128) eqn:Hlt.
    + unfold utf8.RuneSelf. repeat split; lia.
    + repeat match type of Hfirst with
             | context [if ?b then _ else _] => destruct b
             end; discriminate.
  - intros Heq; inversion Heq; subst. right. apply Hone.
    unfold utf8.first in Hfirst. destruct (byte c <? 128) eqn:Hlt; [discriminate|].
    unfold utf8.RuneSelf. lia.
  - destruct (Hmulti _ _ _ eq_refl) as (Hc2 & Hlo & Hhi & Hsz).
    assert (Hh : utf8.RuneSelf <= byte c) by (unfold utf8.RuneSelf; lia).
    destruct (length (c :: t) <? sz)%nat eqn:Hlen;
      [intros Heq; inversion Heq; subst; right; now apply Hone|].
    apply Nat.ltb_ge in Hlen.
    destruct t as [|c1 t1]; [intros Heq; inversion Heq; subst; right; now apply Hone|].
    pose proof (byte_range c1) as Hc1.
    destruct ((byte c1 <? lo) || (hi <? byte c1)) eqn:Hr1;
      [intros Heq; inversion Heq; subst; right; now apply Hone|].
    apply orb_false_iff in Hr1. destruct Hr1 as [Hr1a Hr1b].
    assert (H1 : highByte c1) by (unfold highByte, utf8.RuneSelf, utf8.locb in *; lia).
    pose proof (land_mask_range (byte c1) 6 ltac:(lia)) as Hm1.
    change (Z.ones 6) with utf8.maskx in Hm1.
    destruct (sz <=? 2)%nat eqn:Hsz2.
    { intros Heq; inversion Heq; subst. right.
      repeat split; try (simpl; lia); try assumption.
      - destruct Hsz as [[_ Hb]|[[Hs _]|[Hs _]]];
          [|apply Nat.leb_le in Hsz2; lia|apply Nat.leb_le in Hsz2; lia].
        etransitivity; [|apply lor_lower_l; lia].
        rewrite Z.shiftl_mul_pow2 by lia. unfold utf8.RuneSelf. dlia.
      - simpl. rewrite take_0. repeat constructor; assumption. }
    apply Nat.leb_gt in Hsz2.
    destruct t1 as [|c2 t2]; [intros Heq; inversion Heq; subst; right; now apply Hone|].
    pose proof (byte_range c2) as Hc2'.
    destruct (negb (utf8.contb (byte c2))) eqn:Hr2;
      [intros Heq; inversion Heq; subst; right; now apply Hone|].
    apply negb_false_iff in Hr2. unfold utf8.contb in Hr2.
    apply andb_true_iff in Hr2. destruct Hr2 as [Hr2a Hr2b].
    assert (H2 : highByte c2) by (unfold highByte, utf8.RuneSelf, utf8.locb in *; lia).
    pose proof (land_mask_range (byte c2) 6 ltac:(lia)) as Hm2.
    change (Z.ones 6) with utf8.maskx in Hm2.
    assert (Hsh1 : 0 <= Z.shiftl (Z.land (byte c1) utf8.maskx) 6)
      by (rewrite Z.shiftl_mul_pow2 by lia; lia).
    assert (Hm0 : forall m, 0 <= m -> 0 <= Z.land (byte c) m)
      by (intros; apply Z.land_nonneg; lia).
    destruct (sz <=? 3)%nat eqn:Hsz3.
    { intros Heq; inversion Heq; subst. right.
      repeat split; try (simpl; lia); try assumption.
      - destruct Hsz as [[Hs _]|[[_ Hb]|[Hs _]]];
          [lia| |apply Nat.leb_le in Hsz3; lia].
        etransitivity; [|apply lor_lower_l; lia].
        destruct Hb as [Hb|Hb].
        + etransitivity; [|apply lor_lower_l; lia].
          rewrite Z.shiftl_mul_pow2 by lia. unfold utf8.RuneSelf. dlia.
        + etransitivity; [|apply lor_lower_r].
          * rewrite Z.shiftl_mul_pow2 by lia.
            change utf8.maskx with (Z.ones 6). rewrite Z.land_ones by lia.
            unfold utf8.RuneSelf, utf8.hicb in *. dlia.
          * rewrite Z.shiftl_mul_pow2 by lia.
            specialize (Hm0 utf8.mask3 ltac:(unfold utf8.mask3; lia)). lia.
      - simpl. rewrite take_0. repeat constructor; assumption. }
    apply Nat.leb_gt in Hsz3.
    destruct t2 as [|c3 t3]; [intros Heq; inversion Heq; subst; right; now apply Hone|].
    pose proof (byte_range c3) as Hc3'.
    destruct (negb (utf8.contb (byte c3))) eqn:Hr3;
      [intros Heq; inversion Heq; subst; right; now apply Hone|].
    apply negb_false_iff in Hr3. unfold utf8.contb in Hr3.
    apply andb_true_iff in Hr3. destruct Hr3 as [Hr3a Hr3b].
    assert (H3 : highByte c3) by (unfold highByte, utf8.RuneSelf, utf8.locb in *; lia).
    pose proof (land_mask_range (byte c3) 6 ltac:(lia)) as Hm3.
    change (Z.ones 6) with utf8.maskx in Hm3.
    assert (Hsh2 : 0 <= Z.shiftl (Z.land (byte c2) utf8.maskx) 6)
      by (rewrite Z.shiftl_mul_pow2 by lia; lia).
    assert (Hsh1' : 0 <= Z.shiftl (Z.land (byte c1) utf8.maskx) 12)
      by (rewrite Z.shiftl_mul_pow2 by lia; lia).
    intros Heq; inversion Heq; subst. right.
    repeat split; try (simpl; lia); try assumption.
    + destruct Hsz as [[Hs _]|[[Hs _]|[_ Hb]]]; [lia|lia|].
      etransitivity; [|apply lor_lower_l; lia].
      etransitivity; [|apply lor_lower_l; lia].
      destruct Hb as [Hb|Hb].
      * etransitivity; [|apply lor_lower_l; lia].
        rewrite Z.shiftl_mul_pow2 by lia. unfold utf8.RuneSelf. dlia.
      * etransitivity; [|apply lor_lower_r].
        -- rewrite Z.shiftl_mul_pow2 by lia.
           change utf8.maskx with (Z.ones 6). rewrite Z.land_ones by lia.
           unfold utf8.RuneSelf, utf8.hicb in *. dlia.
        -- rewrite Z.shiftl_mul_pow2 by lia.
           specialize (Hm0 utf8.mask4 ltac:(unfold utf8.mask4; lia)). lia.
    + simpl. rewrite take_0. repeat constructor; assumption.
Qed.

Lemma DecodeRune_ascii (c : ascii) (t : list ascii) :
  byte c < utf8.RuneSelf -> utf8.DecodeRune (c :: t) = (byte c, 1%nat).
Proof.
  intros Hc. unfold utf8.DecodeRune, utf8.first.
  unfold utf8.RuneSelf in Hc. destruct (byte c <? 128) eqn:Hlt; [reflexivity|lia].
Qed.

Lemma DecodeRune_width (c : ascii) (t : list ascii) :
  (1 <= snd (utf8.DecodeRune (c :: t)) <= length (c :: t))%nat.
Proof.
  destruct (utf8.DecodeRune (c :: t)) as [r n] eqn:Hd. simpl snd.
  destruct (DecodeRune_cons _ _ _ _ Hd) as [(_ & _ & ->)|(_ & _ & Hn & Hl & _)];
    simpl in *; lia.
Qed.

Lemma highByte_not_digit (c : ascii) : highByte c -> isDigit c = false.
Proof.
  unfold highByte, utf8.RuneSelf, isDigit. intros Hc.
  destruct (byte c <=? 57) eqn:Hle; [lia|]. apply andb_false_r.
Qed.

Lemma filter_digits_high (l : list ascii) :
  Forall highByte l -> List.filter isDigit l = [].
Proof.
  induction 1 as [|c l Hc _ IH]; simpl; [reflexivity|].
  now rewrite (highByte_not_digit _ Hc).
Qed.

Lemma filter_take_drop (n : nat) (l : list ascii) :
  List.filter isDigit l
  = List.filter isDigit (take n l) ++ List.filter isDigit (drop n l).
Proof. now rewrite <- List.filter_app, take_drop. Qed.

Lemma filter_drop_nil (a b : nat) (l : list ascii) :
  (a <= b)%nat -> List.filter isDigit (drop a l) = [] ->
  List.filter isDigit (drop b l) = [].
Proof.
  intros Hab Ha. replace b with (a + (b - a))%nat by lia.
  rewrite <- drop_drop.
  rewrite (filter_take_drop (b - a) (drop a l)) in Ha.
  now apply app_eq_nil in Ha.
Qed.

Lemma space_not_digit (c : ascii) :
  byte c < utf8.RuneSelf -> unicode.IsSpace (byte c) = true -> isDigit c = false.
Proof.
  unfold utf8.RuneSelf, unicode.IsSpace, unicode.MaxLatin1, isDigit.
  intros Hc Hs. pose proof (byte_range c).
  destruct ((0 <=? byte c) && (byte c <=? 255)) eqn:Hl; [|lia].
  destruct (48 <=? byte c) eqn:H48; [|reflexivity].
  destruct (byte c <=? 57) eqn:H57; [|reflexivity]. lia.
Qed.

(** The bytes of a rune that is a space hold no digit. *)
Lemma space_chunk (c : ascii) (t : list ascii) (r : Z) (n : nat) :
  utf8.DecodeRune (c :: t) = (r, n) -> unicode.IsSpace r = true ->
  List.filter isDigit (take n (c :: t)) = [].
Proof.
  intros Hd Hs.
  destruct (DecodeRune_cons _ _ _ _ Hd) as [(Hc & -> & ->)|(_ & _ & _ & _ & _ & Hh)].
  - simpl. rewrite ?take_0. simpl. now rewrite (space_not_digit c Hc Hs).
  - now apply filter_digits_high.
Qed.

(** *** TrimSpace keeps the digits *)

Lemma trimLeft_digits (fuel : nat) (s : list ascii) :
  (length s <= fuel)%nat ->
  List.filter isDigit (strings.trimLeft fuel unicode.IsSpace s)
  = List.filter isDigit s.
Proof.
  revert s. induction fuel as [|fuel IH]; intros s Hlen.
  - destruct s; [reflexivity|simpl in Hlen; lia].
  - destruct s as [|c t]; [reflexivity|].
    cbn [strings.trimLeft].
    destruct (utf8.DecodeRune (c :: t)) as [r n] eqn:Hd.
    pose proof (DecodeRune_width c t) as Hw. rewrite Hd in Hw. simpl snd in Hw.
    destruct (unicode.IsSpace r) eqn:Hs; [|reflexivity].
    rewrite IH by (rewrite length_drop; simpl in *; lia).
    rewrite (filter_take_drop n (c :: t)), (space_chunk _ _ _ _ Hd Hs).
    reflexivity.
Qed.

Lemma scanStart_le (fuel : nat) (s : list ascii) (start lim : Z) :
  utf8.scanStart fuel s start lim <= start.
Proof.
  revert start. induction fuel as [|fuel IH]; intros start; simpl; [lia|].
  destruct (start <? lim); [lia|].
  destruct (utf8.RuneStart _); [lia|]. specialize (IH (start - 1)). lia.
Qed.

(** What [DecodeLastRune] returns on a non-empty string: a width of one
    comes with the last byte, if that is ASCII, or with [RuneError]; a larger
    width is the width of the rune decoded from the last bytes. *)
Lemma DecodeLastRune_spec (p : list ascii) (r : Z) (n : nat) :
  p <> [] -> utf8.DecodeLastRune p = (r, n) ->
  (n = 1%nat /\ ((r = byte (lastByte p) /\ r < utf8.RuneSelf) \/ r = utf8.RuneError))
  \/ ((2 <= n <= length p)%nat /\ utf8.DecodeRune (drop (length p - n) p) = (r, n)).
Proof.
  intros Hne. unfold utf8.DecodeLastRune.
  assert (Hlen : (0 < length p)%nat) by (destruct p; [congruence|simpl; lia]).
  destruct (Z.of_nat (length p) =? 0) eqn:H0; [lia|].
  replace (Z.to_nat (Z.of_nat (length p) - 1)) with (length p - 1)%nat by lia.
  fold (lastByte p).
  destruct (byte (lastByte p) <? utf8.RuneSelf) eqn:Hascii.
  { intros Heq; inversion Heq; subst. left. split; [reflexivity|]. left. split; [reflexivity|lia]. }
  set (start := Z.max 0 (utf8.scanStart 4 p (Z.of_nat (length p) - 1 - 1)
                           (Z.max 0 (Z.of_nat (length p) - utf8.UTFMax)))).
  assert (Hstart : 0 <= start < Z.of_nat (length p)).
  { subst start.
    pose proof (scanStart_le 4 p (Z.of_nat (length p) - 1 - 1)
                  (Z.max 0 (Z.of_nat (length p) - utf8.UTFMax))). lia. }
  destruct (utf8.DecodeRune (drop (Z.to_nat start) p)) as [r' size] eqn:Hd.
  destruct (negb (start + Z.of_nat size =? Z.of_nat (length p))) eqn:Hchk.
  { intros Heq; inversion Heq; subst. left. split; [reflexivity|]. now right. }
  apply negb_false_iff, Z.eqb_eq in Hchk.
  intros Heq; inversion Heq; subst r' size. clear Heq.
  assert (Hst : Z.to_nat start = (length p - n)%nat) by lia.
  rewrite Hst in Hd.
  destruct (drop (length p - n) p) as [|c t] eqn:Hdrop.
  { apply (f_equal length) in Hdrop. rewrite length_drop in Hdrop. simpl in Hdrop.
    simpl in Hd. inversion Hd; subst. lia. }
  destruct (DecodeRune_cons _ _ _ _ Hd) as [(Hc & Hr & Hn)|(Hc & Hr & Hn & Hl & H1 & Hh)].
  - (* the rune is one ASCII byte, which is the last byte *)
    left. split; [assumption|]. left. subst n.
    assert (c = lastByte p).
    { unfold lastByte. rewrite <- (take_drop (length p - 1) p) at 2.
      rewrite Hdrop, app_nth2 by (rewrite length_take; lia).
      rewrite length_take. replace (length p - 1 - _)%nat with 0%nat by lia.
      reflexivity. }
    subst c. split; [assumption|lia].
  - destruct (Nat.eq_dec n 1%nat) as [->|Hn1].
    + left. split; [reflexivity|]. right. now apply H1.
    + right. split; [lia|assumption].
Qed.

Section TrimRight.
Variable s : list ascii.

Lemma lastIndex_spec (fuel : nat) (i : Z) :
  0 <= i <= Z.of_nat (length s) -> (Z.to_nat i <= fuel)%nat -> noDigitFrom s i ->
  (strings.lastIndex fuel unicode.IsSpace s i = -1 /\ noDigitFrom s 0)
  \/ (exists i' r n,
         0 < i' <= Z.of_nat (length s) /\ noDigitFrom s i'
         /\ utf8.DecodeLastRune (take (Z.to_nat i') s) = (r, n)
         /\ strings.lastIndex fuel unicode.IsSpace s i = i' - Z.of_nat n).
Proof.
  revert i. induction fuel as [|fuel IH]; intros i Hi Hfuel HP.
  - left. split; [reflexivity|]. replace 0 with i by lia. exact HP.
  - cbn [strings.lastIndex]. destruct (0 <? i) eqn:Hpos.
    2:{ left. split; [reflexivity|]. replace 0 with i by lia. exact HP. }
    destruct (utf8.DecodeLastRune (take (Z.to_nat i) s)) as [r n] eqn:Hd.
    assert (Hne : take (Z.to_nat i) s <> []).
    { intros Hnil. apply (f_equal length) in Hnil. rewrite length_take in Hnil.
      simpl in Hnil. lia. }
    assert (Hlt : length (take (Z.to_nat i) s) = Z.to_nat i)
      by (rewrite length_take; lia).
    destruct (negb (unicode.IsSpace r)) eqn:Hs.
    { right. exists i, r, n. repeat split; try assumption; lia. }
    apply negb_false_iff in Hs.
    pose proof (DecodeLastRune_spec _ _ _ Hne Hd) as Hspec. rewrite Hlt in Hspec.
    assert (Hn : (1 <= n <= Z.to_nat i)%nat) by (destruct Hspec as [[-> _]|[? _]]; lia).
    apply IH; [lia|lia|].
    unfold noDigitFrom in *.
    assert (Hsplit : drop (Z.to_nat (i - Z.of_nat n)) s
                     = drop (Z.to_nat i - n) (take (Z.to_nat i) s)
                       ++ drop (Z.to_nat i) s).
    { replace (Z.to_nat (i - Z.of_nat n)) with (Z.to_nat i - n)%nat by lia.
      rewrite <- (take_drop (Z.to_nat i) s) at 1.
      rewrite drop_app_le by (rewrite length_take; lia). reflexivity. }
    rewrite Hsplit, List.filter_app, HP, app_nil_r.
    destruct Hspec as [[-> [[Hr Hlt']|Hr]]|[Hn2 Hdr]].
    + (* an ASCII space *)
      assert (Hl1 : drop (Z.to_nat i - 1) (take (Z.to_nat i) s)
                    = [lastByte (take (Z.to_nat i) s)]).
      { unfold lastByte. rewrite Hlt.
        set (p := take (Z.to_nat i) s) in *.
        assert (Hp : length p = S (Z.to_nat i - 1)) by lia.
        clearbody p. clear -Hp. revert p Hp.
        induction (Z.to_nat i - 1)%nat as [|k IHk]; intros p Hp.
        - destruct p as [|a [|b p]]; simpl in *; try lia. reflexivity.
        - destruct p as [|a p]; simpl in *; [lia|]. apply IHk. lia. }
      rewrite Hl1. simpl. subst r.
      now rewrite (space_not_digit _ Hlt' Hs).
    + subst r. discriminate.
    + destruct (drop (Z.to_nat i - n) (take (Z.to_nat i) s)) as [|c t] eqn:Hdrop.
      * reflexivity.
      * assert (Hlen : length (c :: t) = n).
        { rewrite <- Hdrop, length_drop, Hlt. lia. }
        rewrite <- (take_ge (c :: t) n) by lia.
        eapply space_chunk; eassumption.
Qed.

Lemma TrimRightFunc_digits_aux :
  List.filter isDigit (strings.TrimRightFunc s unicode.IsSpace)
  = List.filter isDigit s.
Proof.
  unfold strings.TrimRightFunc.
  destruct (lastIndex_spec (length s) (Z.of_nat (length s))) as [[Hj HP0]|Hfound].
  { lia. } { lia. } { unfold noDigitFrom. rewrite Nat2Z.id, drop_all. reflexivity. }
  - rewrite Hj. simpl. rewrite ?take_0. unfold noDigitFrom in HP0. simpl in HP0.
    rewrite ?drop_0 in HP0. now rewrite HP0.
  - destruct Hfound as (i' & r & n & Hi' & HP & Hd & Hj). rewrite Hj.
    assert (Hne : take (Z.to_nat i') s <> []).
    { intros Hnil. apply (f_equal length) in Hnil. rewrite length_take in Hnil.
      simpl in Hnil. lia. }
    assert (Hlt : length (take (Z.to_nat i') s) = Z.to_nat i')
      by (rewrite length_take; lia).
    pose proof (DecodeLastRune_spec _ _ _ Hne Hd) as Hspec. rewrite Hlt in Hspec.
    assert (Hn : (1 <= n <= Z.to_nat i')%nat) by (destruct Hspec as [[-> _]|[? _]]; lia).
    set (j := i' - Z.of_nat n).
    assert (Hj0 : 0 <= j < Z.of_nat (length s)) by lia.
    assert (Hdropj : drop (Z.to_nat j) s
                     = drop (Z.to_nat i' - n) (take (Z.to_nat i') s)
                       ++ drop (Z.to_nat i') s).
    { replace (Z.to_nat j) with (Z.to_nat i' - n)%nat by lia.
      rewrite <- (take_drop (Z.to_nat i') s) at 1.
      rewrite drop_app_le by (rewrite length_take; lia). reflexivity. }
    assert (Hgoal : forall k : Z,
               (n = 1%nat -> i' <= k) ->
               ((2 <= n)%nat -> j <= k /\ noDigitFrom s j) ->
               List.filter isDigit (take (Z.to_nat k) s) = List.filter isDigit s).
    { intros k H1 H2.
      rewrite (filter_take_drop (Z.to_nat k) s).
      assert (Hk : List.filter isDigit (drop (Z.to_nat k) s) = []).
      { destruct (Nat.eq_dec n 1%nat) as [Hn1|Hn1].
        - apply (filter_drop_nil (Z.to_nat i')); [specialize (H1 Hn1); lia|exact HP].
        - destruct (H2 ltac:(lia)) as [Hjk HPj].
          apply (filter_drop_nil (Z.to_nat j)); [lia|exact HPj]. }
      now rewrite Hk, app_nil_r. }
    assert (Hchunk : (2 <= n)%nat ->
              exists c t, drop (Z.to_nat j) s = c :: t /\ highByte c /\ noDigitFrom s j).
    { intros Hn2. destruct Hspec as [[-> _]|[_ Hdr]]; [lia|].
      destruct (drop (Z.to_nat i' - n) (take (Z.to_nat i') s)) as [|c t] eqn:Hdrop.
      { apply (f_equal length) in Hdrop. rewrite length_drop, Hlt in Hdrop.
        simpl in Hdrop. lia. }
      assert (Hlen : length (c :: t) = n).
      { rewrite <- Hdrop, length_drop, Hlt. lia. }
      destruct (DecodeRune_cons _ _ _ _ Hdr) as [(_ & _ & ->)|(Hc & _ & _ & _ & _ & Hh)];
        [lia|].
      exists c, (t ++ drop (Z.to_nat i') s). split; [now rewrite Hdropj|].
      split; [exact Hc|].
      unfold noDigitFrom. rewrite Hdropj, List.filter_app, HP, app_nil_r.
      rewrite take_ge in Hh by lia. now apply filter_digits_high. }
    destruct ((0 <=? j) && (utf8.RuneSelf <=? byte (nth (Z.to_nat j) s zero))) eqn:Hc.
    + apply Hgoal.
      * intros ->. 
        destruct (drop (Z.to_nat j) s) as [|c t] eqn:Hdj.
        { apply (f_equal length) in Hdj. rewrite length_drop in Hdj. simpl in Hdj. lia. }
        pose proof (DecodeRune_width c t). lia.
      * intros Hn2. destruct (Hchunk Hn2) as (c & t & Hdj & _ & HPj).
        rewrite Hdj. pose proof (DecodeRune_width c t). split; [lia|exact HPj].
    + apply Hgoal.
      * intros ->. lia.
      * intros Hn2. exfalso. destruct (Hchunk Hn2) as (c & t & Hdj & Hh & _).
        assert (Hnth : nth (Z.to_nat j) s zero = c).
        { rewrite <- (take_drop (Z.to_nat j) s), Hdj.
          rewrite app_nth2 by (rewrite length_take; lia).
          rewrite length_take. replace (_ - _)%nat with 0%nat by lia. reflexivity. }
        rewrite Hnth in Hc. unfold highByte in Hh.
        apply andb_false_iff in Hc. destruct Hc as [Hc|Hc]; lia.
Qed.

End TrimRight.

Lemma TrimFunc_digits (s : list ascii) :
  List.filter isDigit (strings.TrimFunc s unicode.IsSpace) = List.filter isDigit s.
Proof.
  unfold strings.TrimFunc. rewrite TrimRightFunc_digits_aux.
  unfold strings.TrimLeftFunc. now apply trimLeft_digits.
Qed.

(** *** TrimSpace on a string without spaces *)

Lemma lastByte_In (p : list ascii) : p <> [] -> In (lastByte p) p.
Proof.
  intros Hne. unfold lastByte. apply nth_In.
  destruct p; [congruence|simpl; lia].
Qed.

Lemma TrimFunc_plain (s : list ascii) :
  Forall plainByte s -> strings.TrimFunc s unicode.IsSpace = s.
Proof.
  intros Hall. destruct s as [|c t]; [reflexivity|].
  assert (Hleft : strings.TrimLeftFunc (c :: t) unicode.IsSpace = c :: t).
  { unfold strings.TrimLeftFunc. cbn [length strings.trimLeft].
    inversion Hall as [|? ? [Hc Hs] _]; subst.
    rewrite (DecodeRune_ascii c t Hc), Hs. reflexivity. }
  unfold strings.TrimFunc. rewrite Hleft.
  set (s := c :: t) in *.
  assert (Hne : s <> []) by (subst s; congruence).
  assert (Hlen : (0 < length s)%nat) by (subst s; simpl; lia).
  pose proof (lastByte_In s Hne) as Hin.
  rewrite List.Forall_forall in Hall. destruct (Hall _ Hin) as [Hlc Hls].
  assert (Hd : utf8.DecodeLastRune s = (byte (lastByte s), 1%nat)).
  { unfold utf8.DecodeLastRune.
    destruct (Z.of_nat (length s) =? 0) eqn:H0; [lia|].
    replace (Z.to_nat (Z.of_nat (length s) - 1)) with (length s - 1)%nat by lia.
    fold (lastByte s).
    destruct (byte (lastByte s) <? utf8.RuneSelf) eqn:Hlt; [reflexivity|lia]. }
  unfold strings.TrimRightFunc.
  assert (Hidx : strings.lastIndex (length s) unicode.IsSpace s (Z.of_nat (length s))
                 = Z.of_nat (length s) - 1).
  { remember (length s) as k eqn:Hk. destruct k as [|k]; [exfalso; clear -Hlen; lia|].
    cbn [strings.lastIndex].
    destruct (0 <? Z.of_nat (S k)) eqn:Hpos; [|blia].
    rewrite Nat2Z.id, Hk, firstn_all, Hd, Hls. cbn [negb]. lia. }
  rewrite Hidx.
  replace (Z.to_nat (Z.of_nat (length s) - 1)) with (length s - 1)%nat by lia.
  fold (lastByte s).
  destruct ((0 <=? Z.of_nat (length s) - 1)
            && (utf8.RuneSelf <=? byte (lastByte s))) eqn:Hc.
  { blia. }
  replace (Z.to_nat (Z.of_nat (length s) - 1 + 1)) with (length s) by lia.
  apply firstn_all.
Qed.

(** *** Counting runes *)

Lemma countRunes_le (fuel : nat) (s : list ascii) :
  0 <= utf8.countRunes fuel s <= Z.of_nat (length s).
Proof.
  revert s. induction fuel as [|fuel IH]; intros s; [simpl; lia|].
  destruct s as [|c t]; [simpl; lia|].
  cbn [utf8.countRunes].
  pose proof (DecodeRune_width c t) as Hw.
  specialize (IH (drop (snd (utf8.DecodeRune (c :: t))) (c :: t))).
  rewrite length_drop in IH. lia.
Qed.

Lemma RuneCount_le_len (s : string) : utf8.RuneCountInString s <= len s.
Proof.
  unfold utf8.RuneCountInString. rewrite len_bytes. apply countRunes_le.
Qed.

(** *** The pattern [\D+] replaced by nothing keeps the digits *)

Lemma isDigit_notDigit (c : ascii) : regexp.notDigit (byte c) = negb (isDigit c).
Proof. reflexivity. Qed.

Lemma replaceRuns_digits (fuel : nat) (inRun : bool) (s : list ascii) :
  (length s <= fuel)%nat ->
  regexp.replaceRuns fuel regexp.notDigit [] inRun s = List.filter isDigit s.
Proof.
  revert inRun s. induction fuel as [|fuel IH]; intros inRun s Hlen.
  - destruct s; [reflexivity|simpl in Hlen; lia].
  - destruct s as [|c t]; [reflexivity|].
    cbn [regexp.replaceRuns].
    destruct (utf8.DecodeRune (c :: t)) as [r n] eqn:Hd.
    pose proof (DecodeRune_width c t) as Hw. rewrite Hd in Hw. simpl snd in Hw.
    assert (Hrec : forall b, regexp.replaceRuns fuel regexp.notDigit [] b (drop n (c :: t))
                             = List.filter isDigit (drop n (c :: t))).
    { intros b. apply IH. rewrite length_drop. simpl in *. lia. }
    rewrite (filter_take_drop n (c :: t)).
    destruct (DecodeRune_cons _ _ _ _ Hd) as [(Hc & -> & ->)|(_ & Hr & _ & _ & _ & Hh)].
    + rewrite !Hrec, isDigit_notDigit.
      change (take 1 (c :: t)) with [c].
      change (List.filter isDigit [c]) with (if isDigit c then [c] else []).
      destruct (isDigit c), inRun; reflexivity.
    + assert (Hnd : regexp.notDigit r = true).
      { unfold regexp.notDigit. unfold utf8.RuneSelf in Hr.
        destruct (r <=? 57) eqn:H57; [lia|]. now rewrite andb_false_r. }
      rewrite Hnd, !Hrec, (filter_digits_high _ Hh). now destruct inRun.
Qed.

Lemma normalizePhone_digits (s : string) :
  bytes (types.normalizePhone s) = List.filter isDigit (bytes s).
Proof.
  unfold types.normalizePhone, regexp.ReplaceAllClassPlus.
  rewrite bytes_str. apply replaceRuns_digits. now rewrite length_bytes.
Qed.

Lemma normalizePhone_TrimSpace (s : string) :
  types.normalizePhone (strings.TrimSpace s) = types.normalizePhone s.
Proof.
  apply bytes_inj. rewrite !normalizePhone_digits.
  unfold strings.TrimSpace. rewrite bytes_str. apply TrimFunc_digits.
Qed.

Lemma filter_digits_all (l : list ascii) :
  Forall (fun c => isDigit c = true) l -> List.filter isDigit l = l.
Proof.
  induction 1 as [|c l Hc _ IH]; simpl; [reflexivity|]. now rewrite Hc, IH.
Qed.

Lemma filter_digits_Forall (l : list ascii) :
  Forall (fun c => isDigit c = true) (List.filter isDigit l).
Proof.
  induction l as [|c l IH]; simpl; [constructor|].
  destruct (isDigit c) eqn:Hc; [constructor|]; assumption.
Qed.

(** *** Runes of an ASCII string *)

Lemma runesOf_ascii (fuel : nat) (s : list ascii) :
  (length s <= fuel)%nat ->
  Forall (fun r => r < utf8.RuneSelf) (regexp.runesOf fuel s) ->
  regexp.runesOf fuel s = map byte s
  /\ Forall (fun c => byte c < utf8.RuneSelf) s.
Proof.
  revert s. induction fuel as [|fuel IH]; intros s Hlen Hall.
  - destruct s; [split; [reflexivity|constructor]|simpl in Hlen; lia].
  - destruct s as [|c t]; [split; [reflexivity|constructor]|].
    cbn [regexp.runesOf] in *.
    destruct (utf8.DecodeRune (c :: t)) as [r n] eqn:Hd.
    inversion Hall as [|? ? Hr Hrest]; subst.
    destruct (DecodeRune_cons _ _ _ _ Hd) as [(Hc & -> & ->)|(_ & Hr' & _)]; [|lia].
    simpl drop in *. rewrite ?drop_0 in *.
    destruct (IH t) as [Heq Hbytes]; [simpl in Hlen; lia|assumption|].
    split; [simpl; now rewrite Heq|constructor; assumption].
Qed.

Lemma runesOf_map_byte (fuel : nat) (s : list ascii) :
  (length s <= fuel)%nat ->
  Forall (fun c => byte c < utf8.RuneSelf) s ->
  regexp.runesOf fuel s = map byte s.
Proof.
  revert s. induction fuel as [|fuel IH]; intros s Hlen Hall.
  - destruct s; [reflexivity|simpl in Hlen; lia].
  - destruct s as [|c t]; [reflexivity|].
    inversion Hall as [|? ? Hc Hrest]; subst.
    cbn [regexp.runesOf]. rewrite (DecodeRune_ascii c t Hc).
    simpl drop. rewrite ?drop_0. simpl. f_equal. apply IH; [simpl in Hlen; lia|assumption].
Qed.

(** ** Phone *)

Lemma validateAndPrefix_spec (n o : string) :
  match phoneFinal n with
  | Some v => types.validateAndPrefixNormalizedPhone n o = (v, None)
  | None => exists err, types.validateAndPrefixNormalizedPhone n o = ("", Some err)
                        /\ reportsInput err "input_phone" (anyString o)
  end.
Proof.
  unfold phoneFinal, types.validateAndPrefixNormalizedPhone.
  destruct (len n =? types.DDDLength + types.LocalPhoneNumberLength).
  - destruct (strings.HasPrefix n types.DefaultCountryCode).
    + eexists; split; [reflexivity|]. eexists; repeat split; reflexivity.
    + destruct (len (types.DefaultCountryCode +:+ n) =? types.NormalizedPhoneLength);
        cbn [negb andb].
      * destruct (strings.HasPrefix (types.DefaultCountryCode +:+ n)
                                    types.DefaultCountryCode); cbn [negb];
          [reflexivity|].
        eexists; split; [reflexivity|]. eexists; repeat split; reflexivity.
      * eexists; split; [reflexivity|]. eexists; repeat split; reflexivity.
  - destruct (len n =? types.NormalizedPhoneLength); cbn [negb andb].
    + destruct (strings.HasPrefix n types.DefaultCountryCode); cbn [negb];
        [reflexivity|].
      eexists; split; [reflexivity|]. eexists; repeat split; reflexivity.
    + eexists; split; [reflexivity|]. eexists; repeat split; reflexivity.
Qed.

(** [NewPhone] in terms of [phoneFinal]. *)
Lemma NewPhone_spec (s : string) :
  if String.eqb (strings.TrimSpace s) ""
     || (types.MaxRawPhoneInputLength <? utf8.RuneCountInString (strings.TrimSpace s))
  then exists err, types.NewPhone s = ("", Some err)
                   /\ reportsInput err "input_phone" (anyString s)
  else match phoneFinal (types.normalizePhone s) with
       | Some v => types.NewPhone s = (v, None)
       | None => exists err, types.NewPhone s = ("", Some err)
                             /\ reportsInput err "input_phone" (anyString s)
       end.
Proof.
  unfold types.NewPhone.
  destruct (String.eqb (strings.TrimSpace s) "") eqn:He; cbn [orb].
  { eexists; split; [reflexivity|]. eexists; repeat split; reflexivity. }
  destruct (types.MaxRawPhoneInputLength <? utf8.RuneCountInString (strings.TrimSpace s)).
  { eexists; split; [reflexivity|]. eexists; repeat split; reflexivity. }
  rewrite normalizePhone_TrimSpace.
  pose proof (validateAndPrefix_spec (types.normalizePhone s) s) as Hv.
  destruct (phoneFinal (types.normalizePhone s)) as [v|].
  - now rewrite Hv.
  - destruct Hv as (err & -> & Hr). eauto.
Qed.

(** [Scan] of a string or of bytes in terms of [phoneFinal]. *)
Lemma Phone_Scan_spec (p : types.Phone) (s : string) (src : any) :
  src = anyString s \/ src = anyBytes s ->
  match phoneFinal (types.normalizePhone s) with
  | Some v => types.Phone_Scan p src = (v, None)
  | None => exists err, types.Phone_Scan p src = (p, Some err)
                        /\ reportsInput err "input_phone" (anyString s)
                        /\ reportsInput err "scan_source_value_db" (anyString s)
  end.
Proof.
  intros Hsrc.
  pose proof (validateAndPrefix_spec (types.normalizePhone s) s) as Hv.
  assert (Hscan : types.Phone_Scan p src =
    match types.validateAndPrefixNormalizedPhone (types.normalizePhone s) s with
    | (_, Some err) =>
      match err with
      | msg.messageError originalMsgErr =>
        (p, types.fail (msg.WithContext originalMsgErr "scan_source_value_db"
                                        (anyString s)))
      | _ =>
        (p, types.fail (msg.NewValidationError (Some err)
                          (msg.mapLit [("scan_source_value_db", anyString s)])
                          ("Failed to scan database value ('" +:+ s
                           +:+ "') to Phone due to invalid format after normalization.")))
      end
    | (validatedNum, None) => (validatedNum, None)
    end) by (destruct Hsrc; subst; reflexivity).
  rewrite Hscan. clear Hscan.
  destruct (phoneFinal (types.normalizePhone s)) as [v|].
  - now rewrite Hv.
  - destruct Hv as (err & -> & (e & -> & Hcode & Hctx)).
    eexists; split; [reflexivity|].
    destruct e as [x m c ctx ds]. simpl in Hcode, Hctx.
    split; eexists; (split; [reflexivity|]); (split; [exact Hcode|]); simpl.
    + destruct ctx as [m'|]; [|discriminate]. simpl in Hctx.
      rewrite lookup_insert_ne by discriminate. exact Hctx.
    + destruct ctx as [m'|]; apply lookup_insert_eq.
Qed.

Lemma HasPrefix_app (p s : string) : strings.HasPrefix (p +:+ s) p = true.
Proof.
  unfold strings.HasPrefix. induction p as [|a p IH]; simpl.
  - now destruct s.
  - change (String a p +:+ s) with (String a (p +:+ s)).
    simpl. destruct (ascii_dec a a); [assumption|congruence].
Qed.

Lemma phoneFinal_invariant (n v : string) :
  Forall (fun c => isDigit c = true) (bytes n) ->
  phoneFinal n = Some v -> phoneInvariant v.
Proof.
  unfold phoneFinal, phoneInvariant. intros Hn.
  assert (Hchk : forall f, Forall (fun c => isDigit c = true) (bytes f) ->
     (if (len f =? types.NormalizedPhoneLength)
         && strings.HasPrefix f types.DefaultCountryCode
      then Some f else None) = Some v ->
     len v = 13 /\ Forall (fun c => isDigit c = true) (bytes v)
     /\ strings.HasPrefix v types.DefaultCountryCode = true).
  { intros f Hf.
    destruct (len f =? types.NormalizedPhoneLength) eqn:Hl; cbn [andb]; [|discriminate].
    destruct (strings.HasPrefix f types.DefaultCountryCode) eqn:Hp; [|discriminate].
    intros Heq; inversion Heq; subst.
    apply Z.eqb_eq in Hl. repeat split; assumption. }
  destruct (len n =? _).
  - destruct (strings.HasPrefix n _); [discriminate|].
    apply Hchk. rewrite bytes_app. apply Forall_app. split; [|assumption].
    repeat constructor.
  - now apply Hchk.
Qed.

Lemma phoneFinal_fixed (v : string) : phoneInvariant v -> phoneFinal v = Some v.
Proof.
  intros (Hl & _ & Hp). unfold phoneFinal. rewrite Hl, Hp. reflexivity.
Qed.

Lemma digit_plain (c : ascii) : isDigit c = true -> plainByte c.
Proof.
  unfold isDigit, plainByte, utf8.RuneSelf, unicode.IsSpace, unicode.MaxLatin1.
  intros Hd. apply andb_true_iff in Hd. destruct Hd as [H1 H2].
  apply Z.leb_le in H1, H2. split; [lia|].
  destruct ((0 <=? byte c) && (byte c <=? 255)) eqn:Hr.
  - repeat (apply orb_false_iff; split);
      try (apply andb_false_iff; right; apply Z.leb_gt; lia);
      apply Z.eqb_neq; lia.
  - apply andb_false_iff in Hr. destruct Hr as [Hr|Hr]; apply Z.leb_gt in Hr; lia.
Qed.

Lemma TrimSpace_digits (v : string) :
  Forall (fun c => isDigit c = true) (bytes v) -> strings.TrimSpace v = v.
Proof.
  intros Hd. unfold strings.TrimSpace. rewrite TrimFunc_plain; [apply str_bytes|].
  eapply Forall_impl; [exact Hd|]. apply digit_plain.
Qed.

Lemma normalizePhone_fixed (v : string) :
  Forall (fun c => isDigit c = true) (bytes v) -> types.normalizePhone v = v.
Proof.
  intros Hd. apply bytes_inj. rewrite normalizePhone_digits.
  now apply filter_digits_all.
Qed.

(** A valid number is a fixed point of the constructor. *)
Lemma NewPhone_fixed (v : string) : phoneInvariant v -> types.NewPhone v = (v, None).
Proof.
  intros Hinv. pose proof Hinv as (Hl & Hd & Hp).
  pose proof (NewPhone_spec v) as Hs.
  rewrite (TrimSpace_digits v Hd) in Hs.
  assert (He : String.eqb v "" = false).
  { destruct v; [discriminate Hl|reflexivity]. }
  pose proof (RuneCount_le_len v) as Hc.
  assert (Hm : (types.MaxRawPhoneInputLength <? utf8.RuneCountInString v) = false).
  { apply Z.ltb_ge. unfold types.MaxRawPhoneInputLength. lia. }
  rewrite He, Hm, (normalizePhone_fixed v Hd), (phoneFinal_fixed v Hinv) in Hs.
  exact Hs.
Qed.

(** What the constructor accepts satisfies the invariant. *)
Lemma NewPhone_invariant (s : string) (v : types.Phone) :
  types.NewPhone s = (v, None) -> phoneInvariant v.
Proof.
  intros Hok. pose proof (NewPhone_spec s) as Hs.
  destruct (_ || _).
  - destruct Hs as (err & Heq & _). congruence.
  - destruct (phoneFinal (types.normalizePhone s)) as [w|] eqn:Hf.
    + assert (w = v) by congruence. subst w.
      eapply phoneFinal_invariant; [|exact Hf].
      rewrite normalizePhone_digits. apply filter_digits_Forall.
    + destruct Hs as (err & Heq & _). congruence.
Qed.

Lemma NewPhone_error (s : string) (v : types.Phone) (err : msg.error) :
  types.NewPhone s = (v, Some err) ->
  v = "" /\ reportsInput err "input_phone" (anyString s).
Proof.
  intros Hko. pose proof (NewPhone_spec s) as Hs.
  destruct (_ || _).
  - destruct Hs as (err' & Heq & Hr). rewrite Heq in Hko. inversion Hko; subst. auto.
  - destruct (phoneFinal (types.normalizePhone s)) as [w|].
    + congruence.
    + destruct Hs as (err' & Heq & Hr). rewrite Heq in Hko. inversion Hko; subst. auto.
Qed.

(** ** JSON round trips *)

Lemma quoteBody_plain (fuel : nat) (s : list ascii) :
  (length s <= fuel)%nat -> Forall (fun c => jsonPlain c = true) s ->
  json.quoteBody fuel s = flat_map jsonEnc s.
Proof.
  revert s. induction fuel as [|fuel IH]; intros s Hlen Hall.
  - destruct s; [reflexivity|simpl in Hlen; lia].
  - destruct s as [|c t]; [reflexivity|].
    inversion Hall as [|? ? Hc Ht]; subst.
    cbn [json.quoteBody flat_map]. rewrite IH by (simpl in Hlen; lia || assumption).
    unfold jsonPlain in Hc. apply andb_true_iff in Hc. destruct Hc as [Hlt Hs].
    rewrite Hlt. f_equal. unfold jsonEnc.
    destruct (json.htmlSafe (byte c)) eqn:Hsafe; [reflexivity|].
    cbn [orb] in Hs. apply Z.eqb_eq in Hs. rewrite Hs. reflexivity.
Qed.

Lemma unquoteBody_plain (s : list ascii) :
  Forall (fun c => jsonPlain c = true) s ->
  forall fuel rest,
    (length (flat_map jsonEnc s) < fuel)%nat ->
    json.unquoteBody fuel (flat_map jsonEnc s ++ chr 34 :: rest) = Some (s, rest).
Proof.
  induction 1 as [|c t Hc _ IH]; intros fuel rest Hfuel.
  - destruct fuel as [|fuel]; [simpl in Hfuel; lia|]. reflexivity.
  - cbn [flat_map] in *. rewrite length_app in Hfuel.
    unfold jsonPlain in Hc. apply andb_true_iff in Hc. destruct Hc as [Hlt Hs].
    unfold jsonEnc at 1. unfold jsonEnc at 1 in Hfuel.
    destruct (json.htmlSafe (byte c)) eqn:Hsafe.
    + destruct fuel as [|fuel]; [simpl in Hfuel; lia|].
      cbn [app json.unquoteBody].
      unfold json.htmlSafe in Hsafe.
      apply andb_true_iff in Hsafe. destruct Hsafe as [H20 Hno].
      apply negb_true_iff in Hno. rewrite Hlt. b2p.
      destruct (byte c =? 34) eqn:E1; [b2p; lia|].
      destruct (byte c =? 92) eqn:E2; [b2p; lia|].
      destruct (byte c <? 32) eqn:E3; [b2p; lia|].
      rewrite IH by (simpl in Hfuel; lia). reflexivity.
    + cbn [orb] in Hs. apply Z.eqb_eq in Hs.
      assert (c = "&"%char) by (apply byte_inj; rewrite Hs; reflexivity). subst c.
      destruct fuel as [|fuel]; [simpl in Hfuel; lia|].
      change (bytes ("\" +:+ "u0026")) with ["\"; "u"; "0"; "0"; "2"; "6"]%char.
      cbn [app].
      change (json.unquoteBody (S fuel)
                ("\"%char :: "u"%char :: "0"%char :: "0"%char :: "2"%char :: "6"%char
                 :: flat_map jsonEnc t ++ chr 34 :: rest))
        with (match json.unquoteBody fuel (flat_map jsonEnc t ++ chr 34 :: rest) with
              | Some (v, tail) => Some (["&"%char] ++ v, tail)
              | None => None
              end).
      rewrite IH by (simpl in Hfuel; lia). reflexivity.
Qed.

Lemma isSpace_skip (c : ascii) (t : list ascii) :
  json.isSpace c = false -> json.skipSpace (c :: t) = c :: t.
Proof. intros Hc. simpl. now rewrite Hc. Qed.

(** Decoding what [Marshal] wrote for a string of plain bytes gives the
    string back. *)
Lemma json_string_roundtrip (v old : string) :
  Forall (fun c => jsonPlain c = true) (bytes v) ->
  json.UnmarshalString (json.MarshalString v) old = (v, None).
Proof.
  intros Hall. unfold json.UnmarshalString, json.parseString, json.MarshalString.
  rewrite bytes_str.
  rewrite quoteBody_plain by (rewrite ?length_bytes; auto).
  cbn [app]. rewrite isSpace_skip by reflexivity.
  change (byte (chr 34) =? 34) with true. cbv iota.
  rewrite unquoteBody_plain by (auto; rewrite length_app; simpl; lia).
  cbn [json.skipSpace]. now rewrite str_bytes.
Qed.

(** *** Integers in decimal *)

Lemma digitChar_byte (d : Z) : 0 <= d < 10 -> byte (strconv.digitChar d) = 48 + d.
Proof. intros Hd. unfold strconv.digitChar. apply byte_chr. lia. Qed.

Lemma digitChar_isDigit (d : Z) : 0 <= d < 10 -> isDigit (strconv.digitChar d) = true.
Proof.
  intros Hd. unfold isDigit. rewrite digitChar_byte by assumption.
  apply andb_true_iff. split; apply Z.leb_le; lia.
Qed.

Lemma digitsOf_acc (fuel : nat) (n : Z) (acc : list ascii) :
  strconv.digitsOf fuel n acc = strconv.digitsOf fuel n [] ++ acc.
Proof.
  revert n acc. induction fuel as [|fuel IH]; intros n acc; [reflexivity|].
  cbn [strconv.digitsOf]. destruct (n <? 10); [reflexivity|].
  rewrite IH, (IH _ [_]), <- app_assoc. reflexivity.
Qed.

Lemma digitsOf_digits (fuel : nat) (n : Z) (acc : list ascii) :
  0 <= n -> Forall (fun c => isDigit c = true) acc ->
  Forall (fun c => isDigit c = true) (strconv.digitsOf fuel n acc).
Proof.
  revert n acc. induction fuel as [|fuel IH]; intros n acc Hn Hacc; [assumption|].
  cbn [strconv.digitsOf].
  assert (Hd : isDigit (strconv.digitChar (n mod 10)) = true)
    by (apply digitChar_isDigit; dlia).
  destruct (n <? 10); [now constructor|].
  apply IH; [dlia|now constructor].
Qed.

Lemma parseDigits_digitsOf (fuel : nat) (n : Z) (acc : list ascii) :
  0 <= n < 2 ^ Z.of_nat fuel ->
  strconv.parseDigits (strconv.digitsOf fuel n acc) 0 = strconv.parseDigits acc n.
Proof.
  revert n acc. induction fuel as [|fuel IH]; intros n acc Hn.
  - simpl in *. now replace n with 0 by lia.
  - cbn [strconv.digitsOf].
    assert (Hm : 0 <= n mod 10 < 10) by dlia.
    assert (Hstep : strconv.parseDigits (strconv.digitChar (n mod 10) :: acc) (n / 10)
                    = strconv.parseDigits acc n).
    { cbn [strconv.parseDigits]. rewrite digitChar_isDigit, digitChar_byte by assumption.
      f_equal. dlia. }
    destruct (n <? 10) eqn:Hlt.
    + apply Z.ltb_lt in Hlt. rewrite <- Hstep.
      replace (n / 10) with 0 by dlia. reflexivity.
    + apply Z.ltb_ge in Hlt. rewrite IH; [exact Hstep|].
      rewrite Nat2Z.inj_succ, Z.pow_succ_r in Hn by lia. dlia.
Qed.

Lemma digitsOf_head (fuel : nat) (n : Z) :
  0 < n < 2 ^ Z.of_nat fuel ->
  exists c t, strconv.digitsOf fuel n [] = c :: t /\ 49 <= byte c <= 57.
Proof.
  revert n. induction fuel as [|fuel IH]; intros n Hn; [simpl in Hn; lia|].
  cbn [strconv.digitsOf]. destruct (n <? 10) eqn:Hlt.
  - apply Z.ltb_lt in Hlt. eexists _, _. split; [reflexivity|].
    rewrite digitChar_byte by dlia. dlia.
  - apply Z.ltb_ge in Hlt. rewrite digitsOf_acc.
    destruct (IH (n / 10)) as (c & t & -> & Hc).
    { rewrite Nat2Z.inj_succ, Z.pow_succ_r in Hn by lia. dlia. }
    eexists _, _. split; [reflexivity|assumption].
Qed.

Lemma formatUint_fuel (n : Z) :
  0 <= n -> 0 <= n < 2 ^ Z.of_nat (S (Z.to_nat (Z.log2 n))).
Proof.
  intros Hn. split; [assumption|].
  rewrite Nat2Z.inj_succ, Z2Nat.id by apply Z.log2_nonneg.
  destruct (Z.eq_dec n 0) as [->|Hne]; [reflexivity|].
  apply Z.log2_spec. lia.
Qed.

Lemma formatUint_parse (n : Z) :
  0 <= n -> strconv.parseDigits (strconv.formatUint n) 0 = Some n.
Proof.
  intros Hn. unfold strconv.formatUint.
  now rewrite parseDigits_digitsOf by now apply formatUint_fuel.
Qed.

Lemma formatUint_digits (n : Z) :
  0 <= n -> Forall (fun c => isDigit c = true) (strconv.formatUint n).
Proof. intros Hn. apply digitsOf_digits; [assumption|constructor]. Qed.

Lemma formatUint_zero : strconv.formatUint 0 = ["0"%char].
Proof. reflexivity. Qed.

Lemma formatUint_head (n : Z) :
  0 < n -> exists c t, strconv.formatUint n = c :: t /\ 49 <= byte c <= 57.
Proof.
  intros Hn. apply digitsOf_head. pose proof (formatUint_fuel n). lia.
Qed.

Lemma Ascii_eqb_byte (c d : ascii) : byte c <> byte d -> Ascii.eqb c d = false.
Proof.
  intros Hne. apply Ascii.eqb_neq. intros ->. congruence.
Qed.

(** [ParseInt] reads back what [Itoa] printed. *)
Lemma ParseInt_Itoa (n bitSize : Z) :
  - 2 ^ (bitSize - 1) <= n < 2 ^ (bitSize - 1) ->
  strconv.ParseInt (strconv.Itoa n) bitSize = Some n.
Proof.
  intros Hn. unfold strconv.ParseInt, strconv.Itoa.
  destruct (n <? 0) eqn:Hneg.
  - apply Z.ltb_lt in Hneg. rewrite bytes_str.
    destruct (formatUint_head (- n)) as (c & t & Hf & Hc); [lia|].
    change (Ascii.eqb "-" "-") with true. change (Ascii.eqb "-" "+") with false.
    cbn [orb]. rewrite Hf, <- Hf, formatUint_parse by lia.
    cbn [negb andb].
    destruct (2 ^ (bitSize - 1) <? - n) eqn:Hcut; [apply Z.ltb_lt in Hcut; lia|].
    f_equal. lia.
  - apply Z.ltb_ge in Hneg. rewrite bytes_str.
    assert (Hhd : exists c t, strconv.formatUint n = c :: t /\ 48 <= byte c <= 57).
    { destruct (Z.eq_dec n 0) as [->|Hne].
      - exists "0"%char, []. split; [reflexivity|]. vm_compute. split; discriminate.
      - destruct (formatUint_head n) as (c & t & Hf & Hc); [lia|].
        exists c, t. split; [assumption|lia]. }
    destruct Hhd as (c & t & Hf & Hc). rewrite Hf.
    rewrite (Ascii_eqb_byte c "-") by (change (byte "-") with 45; lia).
    rewrite (Ascii_eqb_byte c "+") by (change (byte "+") with 43; lia).
    cbn [orb]. rewrite <- Hf, formatUint_parse by lia.
    cbn [negb andb].
    destruct (2 ^ (bitSize - 1) <=? n) eqn:Hcut; [apply Z.leb_le in Hcut; lia|].
    reflexivity.
Qed.

Lemma spanDigits_all (l : list ascii) :
  Forall (fun c => isDigit c = true) l -> json.spanDigits l = (l, []).
Proof.
  induction 1 as [|c l Hc _ IH]; [reflexivity|].
  cbn [json.spanDigits]. now rewrite Hc, IH.
Qed.

(** The scanner takes all of what [Itoa] printed as one number literal. *)
Lemma scanNumber_Itoa (n : Z) :
  json.scanNumber (bytes (strconv.Itoa n)) = Some (bytes (strconv.Itoa n), []).
Proof.
  unfold strconv.Itoa. destruct (n <? 0) eqn:Hneg.
  - apply Z.ltb_lt in Hneg. rewrite bytes_str.
    destruct (formatUint_head (- n)) as (c & t & Hf & Hc); [lia|].
    pose proof (formatUint_digits (- n) ltac:(lia)) as Hd. rewrite Hf in *.
    inversion Hd as [|? ? Hdc Hdt]; subst.
    unfold json.scanNumber. change (byte "-" =? 45) with true. cbv iota beta.
    destruct (byte c =? 48) eqn:H48; [apply Z.eqb_eq in H48; lia|].
    rewrite Hdc, (spanDigits_all t Hdt). cbn [snd json.scanFrac].
    rewrite Nat.sub_0_r, firstn_all. reflexivity.
  - apply Z.ltb_ge in Hneg. rewrite bytes_str.
    destruct (Z.eq_dec n 0) as [->|Hne]; [reflexivity|].
    destruct (formatUint_head n) as (c & t & Hf & Hc); [lia|].
    pose proof (formatUint_digits n ltac:(lia)) as Hd. rewrite Hf in *.
    inversion Hd as [|? ? Hdc Hdt]; subst.
    unfold json.scanNumber.
    destruct (byte c =? 45) eqn:H45; [apply Z.eqb_eq in H45; lia|].
    destruct (byte c =? 48) eqn:H48; [apply Z.eqb_eq in H48; lia|].
    rewrite Hdc, (spanDigits_all t Hdt). cbn [snd json.scanFrac].
    rewrite Nat.sub_0_r, firstn_all. reflexivity.
Qed.

Lemma Itoa_head (n : Z) :
  exists c t, bytes (strconv.Itoa n) = c :: t /\ 45 <= byte c <= 57.
Proof.
  unfold strconv.Itoa. destruct (n <? 0) eqn:Hneg; rewrite bytes_str.
  - eexists _, _. split; [reflexivity|]. vm_compute. split; discriminate.
  - apply Z.ltb_ge in Hneg. destruct (Z.eq_dec n 0) as [->|Hne].
    + eexists _, _. split; [reflexivity|]. vm_compute. split; discriminate.
    + destruct (formatUint_head n) as (c & t & Hf & Hc); [lia|].
      exists c, t. split; [assumption|lia].
Qed.

(** Decoding what [Marshal] wrote for an int gives the int back. *)
Lemma json_int_roundtrip (n old : Z) :
  - 2 ^ 63 <= n < 2 ^ 63 ->
  json.UnmarshalInt (json.MarshalInt n) old = (n, None).
Proof.
  intros Hn. unfold json.UnmarshalInt, json.parseInt, json.MarshalInt.
  destruct (Itoa_head n) as (c & t & Hb & Hc).
  assert (Hskip : json.skipSpace (bytes (strconv.Itoa n)) = bytes (strconv.Itoa n)).
  { rewrite Hb. apply isSpace_skip. unfold json.isSpace.
    repeat (apply orb_false_iff; split); apply Z.eqb_neq; lia. }
  rewrite Hskip.
  assert (Hnull : json.nullTail (bytes (strconv.Itoa n)) = None).
  { rewrite Hb. unfold json.nullTail.
    destruct (byte c =? 110) eqn:E; [apply Z.eqb_eq in E; lia|].
    destruct t as [|? [|? [|? ?]]]; reflexivity. }
  rewrite Hnull, scanNumber_Itoa, str_bytes.
  unfold json.intSize. rewrite ParseInt_Itoa by (change (64 - 1) with 63; lia).
  reflexivity.
Qed.

(** ** Patterns *)

Lemma reAlphabet_cat (a b : regexp.re) (x : Z) :
  reAlphabet (regexp.cat a b) x = true -> reAlphabet a x || reAlphabet b x = true.
Proof.
  destruct a, b; simpl; intros Hx; try discriminate; try assumption;
    rewrite ?orb_false_r, ?orb_true_r in *; auto.
Qed.

Lemma reAlphabet_alt (a b : regexp.re) (x : Z) :
  reAlphabet (regexp.alt a b) x = true -> reAlphabet a x || reAlphabet b x = true.
Proof.
  destruct a, b; simpl; intros Hx; try discriminate; try assumption;
    rewrite ?orb_false_r, ?orb_true_r in *; auto.
Qed.

(** A derivative mentions no rune the pattern does not mention. *)
Lemma deriv_alphabet (c x : Z) (r : regexp.re) :
  reAlphabet (regexp.deriv c r) x = true -> reAlphabet r x = true.
Proof.
  induction r as [| |rs|r1 IH1 r2 IH2|r1 IH1 r2 IH2|r1 IH1|r1 IH1 lo hi];
    cbn [regexp.deriv reAlphabet]; intros Hx.
  - discriminate.
  - discriminate.
  - destruct (regexp.inRanges rs c); discriminate.
  - apply reAlphabet_alt in Hx. apply orb_true_iff in Hx. destruct Hx as [Hx|Hx].
    + apply reAlphabet_cat in Hx. apply orb_true_iff in Hx.
      apply orb_true_iff. destruct Hx as [Hx|Hx]; auto.
    + destruct (regexp.nullable r1); [|discriminate].
      apply orb_true_iff. auto.
  - apply reAlphabet_alt in Hx. apply orb_true_iff in Hx.
    apply orb_true_iff. destruct Hx as [Hx|Hx]; auto.
  - apply reAlphabet_cat in Hx. apply orb_true_iff in Hx.
    destruct Hx as [Hx|Hx]; auto.
  - destruct hi as [|hi]; [discriminate|].
    apply reAlphabet_cat in Hx. apply orb_true_iff in Hx.
    destruct Hx as [Hx|Hx]; auto.
Qed.

(** The derivative by a rune the pattern does not mention is void. *)
Lemma deriv_void (c : Z) (r : regexp.re) :
  reAlphabet r c = false -> regexp.deriv c r = regexp.Void.
Proof.
  induction r as [| |rs|r1 IH1 r2 IH2|r1 IH1 r2 IH2|r1 IH1|r1 IH1 lo hi];
    cbn [regexp.deriv reAlphabet]; intros Hx; try reflexivity.
  - now rewrite Hx.
  - apply orb_false_iff in Hx. destruct Hx as [H1 H2].
    rewrite IH1, IH2 by assumption. now destruct (regexp.nullable r1).
  - apply orb_false_iff in Hx. destruct Hx as [H1 H2].
    now rewrite IH1, IH2.
  - now rewrite IH1.
  - destruct hi; [reflexivity|]. now rewrite IH1.
Qed.

Lemma fold_deriv_void (cs : list Z) :
  fold_left (fun r c => regexp.deriv c r) cs regexp.Void = regexp.Void.
Proof. induction cs; simpl; auto. Qed.

(** A string that matches consists of runes of the pattern's classes. *)
Lemma match_alphabet (cs : list Z) (r : regexp.re) :
  regexp.nullable (fold_left (fun r c => regexp.deriv c r) cs r) = true ->
  Forall (fun c => reAlphabet r c = true) cs.
Proof.
  revert r. induction cs as [|c cs IH]; intros r Hm; [constructor|].
  simpl in Hm.
  destruct (reAlphabet r c) eqn:Hc.
  - constructor; [assumption|].
    eapply Forall_impl; [apply IH; exact Hm|].
    intros x. apply deriv_alphabet.
  - rewrite (deriv_void c r Hc), fold_deriv_void in Hm. discriminate.
Qed.

(** ** Email *)

(** The bytes of the classes of the pattern: ASCII, no space, and written by
    [json.Marshal] as themselves or as the escape of the ampersand. *)
Lemma emailByte_plain (c : ascii) :
  reAlphabet types.emailRegexPattern (byte c) = true ->
  plainByte c /\ jsonPlain c = true.
Proof.
  unfold plainByte.
  destruct c as [[] [] [] [] [] [] [] []]; vm_compute; intros H;
    try discriminate H; repeat split; reflexivity.
Qed.

Lemma emailRune_ascii (r : Z) :
  reAlphabet types.emailRegexPattern r = true -> r < utf8.RuneSelf.
Proof.
  intros Hr. unfold utf8.RuneSelf.
  destruct (Z_lt_dec r 128) as [|Hge]; [assumption|exfalso].
  revert Hr. cbn [reAlphabet types.emailRegexPattern types.label regexp.Plus regexp.Opt].
  unfold regexp.inRanges, types.localClass, types.alnum, regexp.rng, regexp.one.
  cbn [existsb app map].
  repeat match goal with
         | |- context [byte ?c] =>
           let v := eval vm_compute in (byte c) in change (byte c) with v
         end.
  intros Hr.
  repeat (apply orb_true_iff in Hr; destruct Hr as [Hr|Hr]);
    try discriminate; apply andb_true_iff in Hr; destruct Hr as [_ Hr];
    apply Z.leb_le in Hr; lia.
Qed.

(** What matches the pattern is made of the bytes of its classes. *)
Lemma match_email_bytes (v : string) :
  regexp.MatchString types.emailRegexPattern v = true ->
  Forall (fun c => plainByte c /\ jsonPlain c = true) (bytes v).
Proof.
  unfold regexp.MatchString, regexp.runes. intros Hm.
  apply match_alphabet in Hm.
  destruct (runesOf_ascii (String.length v) (bytes v)) as [Heq _].
  { now rewrite length_bytes. }
  { eapply Forall_impl; [exact Hm|]. apply emailRune_ascii. }
  rewrite Heq in Hm. apply Forall_map in Hm.
  eapply Forall_impl; [exact Hm|]. intros c. apply emailByte_plain.
Qed.

(** *** Lower case *)

Lemma forallb_Forall_ascii (l : list ascii) :
  forallb (fun c => byte c <? utf8.RuneSelf) l = true
  <-> Forall (fun c => byte c < utf8.RuneSelf) l.
Proof.
  induction l as [|c l IH]; simpl.
  - split; [constructor|reflexivity].
  - rewrite andb_true_iff, IH, Z.ltb_lt. split.
    + intros [? ?]; now constructor.
    + intros Hall; inversion Hall; auto.
Qed.

Lemma lowerByte_not_upper (c : ascii) : isUpperASCII (strings.lowerByte c) = false.
Proof.
  unfold strings.lowerByte. destruct (isUpperASCII c) eqn:Hu; [|assumption].
  unfold isUpperASCII in *. apply andb_true_iff in Hu. destruct Hu as [H1 H2].
  apply Z.leb_le in H1, H2. rewrite byte_chr by lia.
  apply andb_false_iff. right. apply Z.leb_gt. lia.
Qed.

Lemma lowerByte_fixed (c : ascii) :
  isUpperASCII c = false -> strings.lowerByte c = c.
Proof. unfold strings.lowerByte. now intros ->. Qed.

(** The first byte of the encoding of a rune is ASCII only for an ASCII
    rune, whose encoding is the rune itself. *)
Lemma EncodeRune_ascii (r : Z) :
  Forall (fun c => byte c < utf8.RuneSelf) (utf8.EncodeRune r) ->
  0 <= r <= 0x7F /\ utf8.EncodeRune r = [chr r].
Proof.
  unfold utf8.EncodeRune.
  destruct ((0 <=? r) && (r <=? 127)) eqn:H1.
  { intros _. split; [blia|reflexivity]. }
  assert (Hhigh : forall a x t, 0xC0 <= a -> a + x < 256 -> 0 <= x ->
             Forall (fun c => byte c < utf8.RuneSelf) (chr (Z.lor a x) :: t) -> False).
  { intros a x t Ha Hx H0 Hall. inversion Hall as [|? ? Hc _]; subst.
    pose proof (lor_lower_l a x H0). pose proof (lor_upper a x ltac:(lia) H0).
    rewrite byte_chr in Hc by lia. unfold utf8.RuneSelf in Hc. lia. }
  assert (Hsh : forall n, 0 <= n -> 0 <= r -> 0 <= Z.shiftr r n <= r / 2 ^ n).
  { intros n Hn Hr. rewrite Z.shiftr_div_pow2 by assumption.
    split; [apply Z.div_pos; lia|lia]. }
  destruct ((0 <=? r) && (r <=? 2047)) eqn:H2.
  { intros Hall. exfalso. apply andb_true_iff in H2. destruct H2 as [Ha Hb].
    apply Z.leb_le in Ha, Hb.
    destruct (Hsh 6 ltac:(lia) Ha) as [Hs0 Hs1]. change (2 ^ 6) with 64 in Hs1.
    eapply (Hhigh utf8.t2 (Z.shiftr r 6)); [| | |exact Hall];
      unfold utf8.t2; [lia|dlia|lia]. }
  destruct ((r <? 0) || (utf8.MaxRune <? r) || ((55296 <=? r) && (r <=? 57343))) eqn:H3.
  { intros Hall. exfalso. vm_compute in Hall.
    inversion Hall as [|? ? Hc _]; subst. discriminate Hc. }
  apply orb_false_iff in H3. destruct H3 as [H3 _].
  apply orb_false_iff in H3. destruct H3 as [Hneg Hmax].
  apply Z.ltb_ge in Hneg, Hmax. unfold utf8.MaxRune in Hmax.
  destruct (r <=? 65535) eqn:H4.
  { intros Hall. exfalso. apply Z.leb_le in H4.
    destruct (Hsh 12 ltac:(lia) Hneg) as [Hs0 Hs1]. change (2 ^ 12) with 4096 in Hs1.
    unfold utf8.encode3 in Hall.
    eapply (Hhigh utf8.t3 (Z.shiftr r 12)); [| | |exact Hall];
      unfold utf8.t3; [lia|dlia|lia]. }
  intros Hall. exfalso.
  destruct (Hsh 18 ltac:(lia) Hneg) as [Hs0 Hs1]. change (2 ^ 18) with 262144 in Hs1.
  eapply (Hhigh utf8.t4 (Z.shiftr r 18)); [| | |exact Hall];
    unfold utf8.t4; [lia|dlia|lia].
Qed.

Section Lower.
Context `{unicode.CaseTables}.
Hypothesis Hsound : lowerTableSound.

Lemma ToLower_rune_not_upper (c : Z) :
  ~ (65 <= unicode.ToLower c <= 90).
Proof.
  unfold unicode.ToLower, unicode.MaxASCII.
  destruct (c <=? 127) eqn:Hc.
  - destruct ((65 <=? c) && (c <=? 90)) eqn:Hu; [blia|].
    apply andb_false_iff in Hu. destruct Hu as [Hu|Hu]; b2p; lia.
  - apply Hsound. unfold unicode.MaxASCII. blia.
Qed.

Lemma mapRunes_lower_not_upper (fuel : nat) (s : list ascii) :
  Forall (fun c => byte c < utf8.RuneSelf) (strings.mapRunes fuel unicode.ToLower s) ->
  Forall (fun c => isUpperASCII c = false) (strings.mapRunes fuel unicode.ToLower s).
Proof.
  revert s. induction fuel as [|fuel IH]; intros s; [constructor|].
  destruct s as [|c t]; [constructor|].
  cbn [strings.mapRunes].
  destruct (utf8.DecodeRune (c :: t)) as [r n].
  intros Hall. apply Forall_app in Hall. destruct Hall as [Hhd Htl].
  apply Forall_app. split; [|now apply IH].
  destruct (0 <=? unicode.ToLower r); [|constructor].
  destruct (EncodeRune_ascii _ Hhd) as [Hr ->].
  repeat constructor. unfold isUpperASCII. rewrite byte_chr by lia.
  pose proof (ToLower_rune_not_upper r).
  destruct (65 <=? unicode.ToLower r) eqn:H1; [|reflexivity].
  destruct (unicode.ToLower r <=? 90) eqn:H2; [|reflexivity]. blia.
Qed.

(** An ASCII result of [ToLower] holds no upper-case letter. *)
Lemma ToLower_not_upper (x : string) :
  Forall (fun c => byte c < utf8.RuneSelf) (bytes (strings.ToLower x)) ->
  Forall (fun c => isUpperASCII c = false) (bytes (strings.ToLower x)).
Proof.
  unfold strings.ToLower. destruct (strings.isASCII x).
  - intros _. rewrite bytes_str. apply Forall_map.
    apply Forall_forall. intros c _. apply lowerByte_not_upper.
  - unfold strings.Map. rewrite bytes_str. apply mapRunes_lower_not_upper.
Qed.

End Lower.

Section EmailFacts.
Context `{unicode.CaseTables}.

(** An ASCII string without upper-case letters is its own lower case. *)
Lemma ToLower_fixed (v : string) :
  Forall (fun c => byte c < utf8.RuneSelf) (bytes v) ->
  Forall (fun c => isUpperASCII c = false) (bytes v) ->
  strings.ToLower v = v.
Proof.
  intros Ha Hu. unfold strings.ToLower, strings.isASCII.
  apply forallb_Forall_ascii in Ha. rewrite Ha.
  rewrite <- (str_bytes v) at 2. f_equal.
  rewrite <- (map_id (bytes v)) at 2. apply map_ext_Forall.
  eapply Forall_impl; [exact Hu|]. intros c. apply lowerByte_fixed.
Qed.

(** [validateEmail] either returns the normalized input, which then is not
    empty, has at most 254 bytes and matches the pattern, or reports the raw
    input. *)
Lemma validateEmail_spec (s : string) :
  let n := strings.ToLower (strings.TrimSpace s) in
  (types.validateEmail s = (n, None)
   /\ n <> "" /\ len n <= types.MaxEmailLength
   /\ regexp.MatchString types.emailRegexPattern n = true)
  \/ (exists err, types.validateEmail s = ("", Some err)
                  /\ reportsInput err "input_email" (anyString s)).
Proof.
  intros n. unfold types.validateEmail. fold n.
  destruct (String.eqb n "") eqn:He.
  { right. eexists; split; [reflexivity|]. eexists; repeat split; reflexivity. }
  destruct (types.MaxEmailLength <? len n) eqn:Hl.
  { right. eexists; split; [reflexivity|]. eexists; repeat split; reflexivity. }
  destruct (regexp.MatchString types.emailRegexPattern n) eqn:Hm; cbn [negb].
  - left. repeat split; try reflexivity.
    + intros ->. discriminate He.
    + now apply Z.ltb_ge.
  - right. eexists; split; [reflexivity|]. eexists; repeat split; reflexivity.
Qed.

Lemma emailInvariant_bytes (v : string) :
  emailInvariant v ->
  Forall plainByte (bytes v)
  /\ Forall (fun c => jsonPlain c = true) (bytes v)
  /\ Forall (fun c => byte c < utf8.RuneSelf) (bytes v).
Proof.
  intros (_ & _ & Hm & _). pose proof (match_email_bytes v Hm) as Hb.
  repeat split; (eapply Forall_impl; [exact Hb|]); intros c [Hp Hj]; auto.
  now destruct Hp.
Qed.

(** A valid address is a fixed point of the validation. *)
Lemma validateEmail_fixed (v : string) :
  emailInvariant v -> types.validateEmail v = (v, None).
Proof.
  intros Hinv. pose proof (emailInvariant_bytes v Hinv) as (Hp & _ & Ha).
  destruct Hinv as (Hne & Hl & Hm & Hu).
  assert (Ht : strings.TrimSpace v = v).
  { unfold strings.TrimSpace. rewrite TrimFunc_plain by assumption. apply str_bytes. }
  pose proof (validateEmail_spec v) as Hs. cbv zeta in Hs.
  rewrite Ht, (ToLower_fixed v Ha Hu) in Hs.
  destruct Hs as [[Hok _]|(err & Hko & _)]; [assumption|].
  exfalso. unfold types.validateEmail in Hko.
  rewrite Ht, (ToLower_fixed v Ha Hu), Hm in Hko.
  destruct (String.eqb v "") eqn:He; [apply String.eqb_eq in He; contradiction|].
  destruct (types.MaxEmailLength <? len v) eqn:Hlt; [apply Z.ltb_lt in Hlt; lia|].
  discriminate Hko.
Qed.

End EmailFacts.

Section EmailSound.
Context `{unicode.CaseTables}.
Hypothesis Hsound : lowerTableSound.

(** What the validation returns satisfies the invariant. *)
Lemma validateEmail_invariant (s v : string) :
  types.validateEmail s = (v, None) -> emailInvariant v.
Proof.
  intros Hok. destruct (validateEmail_spec s) as [(Heq & Hne & Hl & Hm)|(err & Hko & _)];
    [|congruence].
  cbv zeta in *. rewrite Heq in Hok. inversion Hok as [Hv]. rewrite Hv in *.
  repeat split; try assumption.
  rewrite <- Hv. apply (ToLower_not_upper Hsound). rewrite Hv.
  eapply Forall_impl; [exact (match_email_bytes v Hm)|].
  intros c [[Hc _] _]. exact Hc.
Qed.

End EmailSound.

(** ** The decode entry points of Phone (C3) *)

(** C3.  The claim fails at [longPhoneInput]: its trimmed form has 37
    characters, so the constructor, the text decode and the JSON decode
    reject it for its raw length; the storage decode has no such bound and
    accepts it with the canonical value of its digits. *)
Theorem C3_Scan_skips_raw_length_bound :
  utf8.RuneCountInString (strings.TrimSpace longPhoneInput) = 37
  /\ (exists e, types.NewPhone longPhoneInput = ("", Some (msg.messageError e))
                /\ msg.Code e = msg.CodeInvalid
                /\ msg.Message e
                   = "Raw phone input (length 37) exceeds maximum length of 30 characters.")
  /\ invalidInput (snd (types.Phone_UnmarshalText "" longPhoneInput))
  /\ invalidInput (snd (types.Phone_UnmarshalJSON "" (json.MarshalString longPhoneInput)))
  /\ types.Phone_Scan "" (anyString longPhoneInput) = ("5562982870053", None)
  /\ types.Phone_Scan "" (anyBytes longPhoneInput) = ("5562982870053", None).
Proof.
  split; [vm_compute; reflexivity|].
  split; [eexists; split; [vm_compute; reflexivity|split; reflexivity]|].
  repeat split;
    try (eexists; split; [vm_compute; reflexivity|reflexivity]).
Qed.

(** X1.  Where the entry points do agree.  The text decode and the JSON decode
    hand the decoded string to the constructor.  The storage decode strips
    the non-digits of the raw source and runs the prefixing and the length
    and prefix checks on them, without the trimming, the emptiness check and
    the bound on the raw length: what the constructor accepts, Scan accepts
    with the same value; Scan accepts exactly the sources whose digits make a
    final number; and on a source whose trimmed form has at most thirty runes
    Scan accepts only what the constructor accepts. *)
Theorem Phone_entry_points :
  (forall p t,
      types.Phone_UnmarshalText p t
      = match types.NewPhone t with
        | (_, Some err) => (p, Some err)
        | (phone, None) => (phone, None)
        end)
  /\ (forall p data s,
         json.UnmarshalString data "" = (s, None) ->
         types.Phone_UnmarshalJSON p data
         = match types.NewPhone s with
           | (_, Some err) => (p, Some err)
           | (phone, None) => (phone, None)
           end)
  /\ (forall p s src v,
         src = anyString s \/ src = anyBytes s ->
         (types.NewPhone s = (v, None) -> types.Phone_Scan p src = (v, None))
         /\ (types.Phone_Scan p src = (v, None)
             <-> phoneFinal (types.normalizePhone s) = Some v)
         /\ (utf8.RuneCountInString (strings.TrimSpace s)
             <= types.MaxRawPhoneInputLength ->
             types.Phone_Scan p src = (v, None) -> types.NewPhone s = (v, None))).
Proof.
  split; [reflexivity|]. split.
  { intros p data s Hd. unfold types.Phone_UnmarshalJSON. now rewrite Hd. }
  intros p s src v Hsrc.
  pose proof (Phone_Scan_spec p s src Hsrc) as Hscan.
  pose proof (NewPhone_spec s) as Hnew.
  assert (Hiff : types.Phone_Scan p src = (v, None)
                 <-> phoneFinal (types.normalizePhone s) = Some v).
  { destruct (phoneFinal (types.normalizePhone s)) as [w|].
    - rewrite Hscan. split; intros Heq; inversion Heq; reflexivity.
    - destruct Hscan as (err & -> & _). split; discriminate. }
  split; [|split; [exact Hiff|]].
  - intros Hok. apply Hiff.
    destruct (_ || _).
    + destruct Hnew as (err & Heq & _). congruence.
    + destruct (phoneFinal (types.normalizePhone s)) as [w|].
      * rewrite Hnew in Hok. now inversion Hok.
      * destruct Hnew as (err & Heq & _). congruence.
  - intros Hcount Hok. apply Hiff in Hok. rewrite Hok in Hnew.
    destruct (String.eqb (strings.TrimSpace s) "") eqn:He.
    + exfalso. apply String.eqb_eq in He.
      rewrite <- normalizePhone_TrimSpace, He in Hok. discriminate Hok.
    + destruct (types.MaxRawPhoneInputLength <? _) eqn:Hl; [b2p; lia|].
      exact Hnew.
Qed.

(** [Phone_entry_points] at two spellings of one number. *)
Lemma Phone_entry_points_witness :
  types.Phone_Scan "" (anyString "(62) 98287-0053") = ("5562982870053", None)
  /\ types.NewPhone "+55 62 98287-0053" = ("5562982870053", None).
Proof.
  destruct Phone_entry_points as (_ & _ & Hscan).
  split.
  - destruct (Hscan "" "(62) 98287-0053" (anyString "(62) 98287-0053")
                    "5562982870053" (or_introl eq_refl)) as (Hnew & _ & _).
    apply Hnew. vm_compute. reflexivity.
  - destruct (Hscan "" "+55 62 98287-0053" (anyBytes "+55 62 98287-0053")
                    "5562982870053" (or_intror eq_refl)) as (_ & _ & Hshort).
    apply Hshort.
    + vm_compute. discriminate.
    + vm_compute. reflexivity.
Defined.

(** ** Rejected input (C5) *)

Section Rejected.
Context `{unicode.CaseTables} `{uuid.Text}.

(** C5, amended.  An input that NewEmail, NewPhone or ParseUUID rejects
    comes back as a structured error of the category invalid-input whose
    context map holds the raw input; NewDay and NewCurrency return their
    plain sentinel errors, which have neither a category nor a context. *)
Theorem C5_rejected_input :
  (forall s v err, types.NewEmail s = (v, Some err) ->
                   v = "" /\ reportsInput err "input_email" (anyString s))
  /\ (forall s v err, types.NewPhone s = (v, Some err) ->
                      v = "" /\ reportsInput err "input_phone" (anyString s))
  /\ (forall s v err, types.ParseUUID s = (v, Some err) ->
                      v = types.Nil /\ reportsInput err "input_string" (anyString s))
  /\ (forall n v err, types.NewDay n = (v, Some err) ->
                      v = 0 /\ err = types.ErrInvalidDay)
  /\ (forall s v err, types.NewCurrency s = (v, Some err) ->
                      v = "" /\ err = types.ErrInvalidCurrency).
Proof.
  repeat apply conj.
  - intros s v err Hko. unfold types.NewEmail in Hko.
    destruct (validateEmail_spec s) as [(Heq & _)|(err' & Heq & Hr)];
      cbv zeta in *; rewrite Heq in Hko; inversion Hko; subst; auto.
  - apply NewPhone_error.
  - intros s v err. unfold types.ParseUUID.
    destruct (uuid.Parse s); intros Hko; inversion Hko; subst.
    split; [reflexivity|]. eexists; repeat split; reflexivity.
  - intros n v err. unfold types.NewDay.
    destruct (_ || _); intros Hko; inversion Hko; auto.
  - intros s v err. unfold types.NewCurrency.
    destruct (negb _); intros Hko; inversion Hko; auto.
Qed.

End Rejected.

(** C5, as stated, fails: the error of NewDay and of NewCurrency is a plain
    error, not the structured one, and reports nothing. *)
Lemma C5_counterexample :
  types.NewDay 0 = (0, Some types.ErrInvalidDay)
  /\ @types.NewCurrency sample.caseTables "GBP" = ("", Some types.ErrInvalidCurrency)
  /\ (forall key raw, ~ reportsInput types.ErrInvalidDay key raw)
  /\ (forall key raw, ~ reportsInput types.ErrInvalidCurrency key raw)
  /\ ~ invalidInput (snd (types.NewDay 0)).
Proof.
  repeat split; try reflexivity.
  - intros key raw (e & He & _). discriminate He.
  - intros key raw (e & He & _). discriminate He.
  - intros (e & He & _). discriminate He.
Qed.

(** [C5_rejected_input] at a blank phone number. *)
Lemma C5_witness :
  reportsInput
    (msg.messageError
       (msg.NewValidationError None
          (msg.mapLit [("input_phone", anyString "   ")])
          "Phone number cannot be empty."))
    "input_phone" (anyString "   ").
Proof.
  destruct (@C5_rejected_input sample.caseTables sample.uuidText) as (_ & Hphone & _).
  apply (Hphone "   " "" _). vm_compute. reflexivity.
Defined.

(** ** The sample tables are sound *)

Lemma sample_lowerTableSound : @lowerTableSound sample.caseTables.
Proof.
  intros r Hr. unfold unicode.MaxASCII in Hr. simpl.
  destruct (r =? 304); [lia|]. destruct (r =? 8490); lia.
Qed.

Lemma sample_uuidTextSound : @uuidTextSound sample.uuidText.
Proof.
  intros u. simpl. split.
  - unfold sample.parseZ, strconv.Itoa. destruct (u <? 0) eqn:Hneg; rewrite bytes_str.
    + apply Z.ltb_lt in Hneg. change (Ascii.eqb "-" "-") with true. cbv iota.
      destruct (formatUint_head (- u)) as (c & t & Hf & _); [lia|].
      rewrite Hf, <- Hf, formatUint_parse by lia. simpl. f_equal. lia.
    + apply Z.ltb_ge in Hneg.
      destruct (Z.eq_dec u 0) as [->|Hne]; [reflexivity|].
      destruct (formatUint_head u) as (c & t & Hf & Hc); [lia|].
      pose proof (formatUint_parse u Hneg) as Hp. rewrite Hf in *.
      rewrite Ascii_eqb_byte; [exact Hp|].
      change (byte "-") with 45. lia.
  - destruct (Itoa_head u) as (c & t & Hb & _). intros Heq. now rewrite Heq in Hb.
Qed.

(** ** Decoded values (C1) *)

(** C1, as stated, fails: the decoders of Currency and of Day store what they
    decode without a check. *)
Lemma C1_counterexample :
  types.Currency_UnmarshalJSON "" (json.MarshalString "GBP") = ("GBP", None)
  /\ types.Currency_IsValid "GBP" = false
  /\ types.Currency_Scan "BRL" (anyString "gbp") = ("gbp", None)
  /\ types.Currency_IsValid "gbp" = false
  /\ types.Currency_Scan "BRL" anyNil = ("", None)
  /\ types.Currency_IsValid "" = false
  /\ types.Day_UnmarshalJSON 1 "32" = (32, None)
  /\ types.Day_UnmarshalJSON 1 "null" = (0, None)
  /\ types.Day_Scan 1 (anyInt64 0) = (0, None)
  /\ types.Day_Scan 1 anyNil = (0, None)
  /\ snd (types.NewDay 32) = Some types.ErrInvalidDay
  /\ snd (types.NewDay 0) = Some types.ErrInvalidDay.
Proof. vm_compute. repeat split. Qed.

(** The decoders of Currency and of Day hand on what they decode. *)
Lemma Currency_Day_decoders :
  (forall c data s, json.UnmarshalString data "" = (s, None) ->
                    types.Currency_UnmarshalJSON c data = (s, None))
  /\ (forall c s, types.Currency_Scan c (anyString s) = (s, None)
                  /\ types.Currency_Scan c (anyBytes s) = (s, None))
  /\ (forall d data n, json.UnmarshalInt data 0 = (n, None) ->
                       types.Day_UnmarshalJSON d data = (n, None))
  /\ (forall d n, types.Day_Scan d (anyInt64 n) = (n, None)).
Proof.
  repeat apply conj.
  - intros c data s Hd. unfold types.Currency_UnmarshalJSON. now rewrite Hd.
  - intros c s. split; reflexivity.
  - intros d data n Hd. unfold types.Day_UnmarshalJSON. now rewrite Hd.
  - reflexivity.
Qed.

Section Decoded.
Context `{unicode.CaseTables}.
Hypothesis Hsound : lowerTableSound.

(** C1, amended.  A value that a decode entry point of Email or of Phone
    returns without error satisfies the invariant of its type.  Currency and
    Day are outside this guarantee: Scan of a nil source succeeds for both
    and stores the empty Currency and the Day 0, which the constructors
    reject. *)
Theorem C1_decoded_values :
  (forall e data v, types.Email_UnmarshalJSON e data = (v, None) -> emailInvariant v)
  /\ (forall e text v, types.Email_UnmarshalText e text = (v, None) -> emailInvariant v)
  /\ (forall e src v, types.Email_Scan e src = (v, None) -> emailInvariant v)
  /\ (forall p data v, types.Phone_UnmarshalJSON p data = (v, None) -> phoneInvariant v)
  /\ (forall p text v, types.Phone_UnmarshalText p text = (v, None) -> phoneInvariant v)
  /\ (forall p src v, types.Phone_Scan p src = (v, None) -> phoneInvariant v)
  /\ (forall c, types.Currency_Scan c anyNil = ("", None))
  /\ types.Currency_IsValid "" = false
  /\ snd (types.NewCurrency "") = Some types.ErrInvalidCurrency
  /\ (forall d, types.Day_Scan d anyNil = (0, None))
  /\ snd (types.NewDay 0) = Some types.ErrInvalidDay.
Proof.
  assert (Hemail : forall (e : types.Email) s v,
             match types.validateEmail s with
             | (_, Some err) => (e, Some err)
             | (validatedEmail, None) => (validatedEmail, None)
             end = (v, None) -> emailInvariant v).
  { intros e s v. destruct (types.validateEmail s) as [w [err|]] eqn:Hv;
      intros Heq; inversion Heq; subst.
    eapply (validateEmail_invariant Hsound); eassumption. }
  assert (Hphone : forall (p : types.Phone) s v,
             match types.NewPhone s with
             | (_, Some err) => (p, Some err)
             | (phone, None) => (phone, None)
             end = (v, None) -> phoneInvariant v).
  { intros p s v. destruct (types.NewPhone s) as [w [err|]] eqn:Hv;
      intros Heq; inversion Heq; subst.
    eapply NewPhone_invariant; eassumption. }
  repeat apply conj; try reflexivity.
  - intros e data v. unfold types.Email_UnmarshalJSON.
    destruct (json.UnmarshalString data "") as [s [err|]]; [discriminate|].
    apply Hemail.
  - intros e text v. apply Hemail.
  - intros e src v. unfold types.Email_Scan.
    assert (Hscan : forall s,
      match types.validateEmail s with
      | (_, Some err) =>
        match err with
        | msg.messageError originalMsgErr =>
          (e, types.fail (msg.WithContext originalMsgErr "scan_source_value" (anyString s)))
        | _ =>
          (e, types.fail (msg.NewValidationError (Some err)
                            (msg.mapLit [("scan_source_value", anyString s)])
                            ("Failed to scan database value ('" +:+ s +:+ "') to Email.")))
        end
      | (validatedEmail, None) => (validatedEmail, None)
      end = (v, None) -> emailInvariant v).
    { intros s. destruct (types.validateEmail s) as [w [err|]] eqn:Hv.
      - destruct err; discriminate.
      - intros Heq; inversion Heq; subst.
        eapply (validateEmail_invariant Hsound); eassumption. }
    destruct src; try discriminate; apply Hscan.
  - intros p data v. unfold types.Phone_UnmarshalJSON.
    destruct (json.UnmarshalString data "") as [s [err|]]; [discriminate|].
    apply Hphone.
  - intros p text v. apply Hphone.
  - intros p src v Hok.
    assert (Hs : exists s, src = anyString s \/ src = anyBytes s).
    { destruct src; try discriminate Hok; eauto. }
    destruct Hs as (s & Hs). pose proof (Phone_Scan_spec p s src Hs) as Hspec.
    destruct (phoneFinal (types.normalizePhone s)) as [w|] eqn:Hf.
    + rewrite Hspec in Hok. inversion Hok; subst.
      eapply phoneFinal_invariant; [|exact Hf].
      rewrite normalizePhone_digits. apply filter_digits_Forall.
    + destruct Hspec as (err & Heq & _). rewrite Heq in Hok. discriminate Hok.
Qed.

End Decoded.

(** [C1_decoded_values] at an address and at a phone number. *)
Lemma C1_witness :
  emailInvariant "user.name+tag@example.com" /\ phoneInvariant "5562982870053".
Proof.
  destruct (@C1_decoded_values sample.caseTables sample_lowerTableSound)
    as (_ & Htext & _ & _ & _ & Hscan & _).
  split.
  - apply (Htext "" "  User.Name+tag@Example.COM "). vm_compute. reflexivity.
  - apply (Hscan "" (anyBytes "(62) 98287-0053")). vm_compute. reflexivity.
Defined.

(** ** Round trips (C2) *)

Lemma Itoa_not_null (n : Z) : String.eqb (strconv.Itoa n) "null" = false.
Proof.
  apply String.eqb_neq. intros Heq.
  destruct (Itoa_head n) as (c & t & Hb & Hc). rewrite Heq in Hb.
  inversion Hb; subst. vm_compute in Hc. destruct Hc as [_ Hc]. now apply Hc.
Qed.

Lemma digits_jsonPlain (v : string) :
  Forall (fun c => isDigit c = true) (bytes v) ->
  Forall (fun c => jsonPlain c = true) (bytes v).
Proof.
  intros Hd. eapply Forall_impl; [exact Hd|]. intros c.
  destruct c as [[] [] [] [] [] [] [] []]; vm_compute; intros Hc;
    try discriminate Hc; reflexivity.
Qed.

Lemma Currency_valid_cases (c : types.Currency) :
  types.Currency_IsValid c = true ->
  c = types.BRL \/ c = types.USD \/ c = types.EUR.
Proof.
  unfold types.Currency_IsValid. intros Hv.
  apply orb_true_iff in Hv. destruct Hv as [Hv|Hv].
  - apply orb_true_iff in Hv. destruct Hv as [Hv|Hv]; apply String.eqb_eq in Hv; auto.
  - apply String.eqb_eq in Hv. auto.
Qed.

Lemma parseString_MarshalString (v : string) :
  Forall (fun c => jsonPlain c = true) (bytes v) ->
  json.parseString (json.MarshalString v) = json.pValue v.
Proof.
  intros Hp.
  pose proof (json_string_roundtrip v (v +:+ "x") Hp) as Hr.
  unfold json.UnmarshalString in Hr.
  destruct (json.parseString (json.MarshalString v)) as [w| |].
  - inversion Hr. reflexivity.
  - exfalso. inversion Hr as [Heq].
    assert (Hl : len (v +:+ "x") = len v) by now rewrite Heq.
    rewrite !len_bytes, bytes_app, length_app in Hl. cbn in Hl. lia.
  - discriminate Hr.
Qed.

Lemma MarshalString_not_null (v : string) :
  String.eqb (json.MarshalString v) "null" = false.
Proof.
  apply String.eqb_neq. intros Heq. apply (f_equal bytes) in Heq.
  unfold json.MarshalString in Heq. rewrite bytes_str in Heq. discriminate Heq.
Qed.


Section RoundTrips.
Context `{unicode.CaseTables} `{uuid.Text} `{time.Formats}.
Hypothesis Hlower : lowerTableSound.
Hypothesis Huuid : uuidTextSound.
Hypothesis Hplain : uuidTextPlain.
Hypothesis Htime : timeJsonSound.


End RoundTrips.
(** * Further properties *)

(** ** The calendar of package time *)

Lemma rem_zero (a b : Z) : 0 < b -> (Z.rem a b =? 0) = (a mod b =? 0).
Proof.
  intros Hb. destruct (Z.eqb_spec (Z.rem a b) 0) as [Hr|Hr];
    destruct (Z.eqb_spec (a mod b) 0) as [Hm|Hm]; try reflexivity; exfalso.
  - apply Hm. apply Z.rem_divide in Hr; [|lia]. apply Z.mod_divide; [lia|exact Hr].
  - apply Hr. apply Z.mod_divide in Hm; [|lia]. apply Z.rem_divide; [lia|exact Hm].
Qed.

Lemma isLeap_mod (y : Z) :
  time.isLeap y = (y mod 4 =? 0) && (negb (y mod 100 =? 0) || (y mod 400 =? 0)).
Proof. unfold time.isLeap. rewrite !rem_zero by lia. reflexivity. Qed.

Lemma daysSinceEpoch_succ (y : Z) :
  time.daysSinceEpoch (y + 1)
  = time.daysSinceEpoch y + 365 + (if time.isLeap y then 1 else 0).
Proof.
  rewrite isLeap_mod. unfold time.daysSinceEpoch.
  unfold time.daysPer400Years, time.daysPer100Years, time.daysPer4Years.
  cbv zeta.
  replace (y + 1 - 1) with y by lia.
  destruct (Z.eqb_spec (y mod 4) 0), (Z.eqb_spec (y mod 100) 0),
    (Z.eqb_spec (y mod 400) 0); cbn [andb orb negb];
    (Z.div_mod_to_equations; lia).
Qed.

Lemma absDate_year (a : Z) :
  exists y yday,
    time.absDate a = (y, fst (monthDay (time.isLeap y) yday),
                      snd (monthDay (time.isLeap y) yday))
    /\ time.daysSinceEpoch y + yday = a / time.secondsPerDay
    /\ 0 <= yday < 365 + (if time.isLeap y then 1 else 0).
Proof.
  unfold time.absDate. cbv zeta.
  set (d0 := a / time.secondsPerDay).
  set (n400 := d0 / time.daysPer400Years).
  set (d1 := d0 - time.daysPer400Years * n400).
  set (n100 := d1 / time.daysPer100Years).
  set (n100' := n100 - Z.shiftr n100 2).
  set (d2 := d1 - time.daysPer100Years * n100').
  set (n4 := d2 / time.daysPer4Years).
  set (d3 := d2 - time.daysPer4Years * n4).
  set (n1 := d3 / 365).
  set (n1' := n1 - Z.shiftr n1 2).
  set (d4 := d3 - 365 * n1').
  set (y := 400 * n400 + 100 * n100' + 4 * n4 + n1' + 1).
  exists y, d4.
  assert (Hd1 : 0 <= d1 < 146097).
  { subst d1 n400. unfold time.daysPer400Years. Z.div_mod_to_equations. lia. }
  assert (Hn100 : 0 <= n100 <= 4 /\ 36524 * n100 <= d1 < 36524 * n100 + 36524).
  { subst n100. unfold time.daysPer100Years. Z.div_mod_to_equations. lia. }
  assert (Hn100' : n100' = if n100 =? 4 then 3 else n100).
  { subst n100'. rewrite Z.shiftr_div_pow2 by lia. change (2 ^ 2) with 4.
    destruct (Z.eqb_spec n100 4); Z.div_mod_to_equations; lia. }
  assert (Hd2 : 0 <= d2 <= 36524 /\ (d2 = 36524 -> n100' = 3)).
  { subst d2. unfold time.daysPer100Years. destruct (Z.eqb_spec n100 4); lia. }
  assert (Hn4 : 0 <= n4 <= 24 /\ 1461 * n4 <= d2 < 1461 * n4 + 1461).
  { subst n4. unfold time.daysPer4Years. Z.div_mod_to_equations. lia. }
  assert (Hd3 : 0 <= d3 <= 1460 /\ (d3 = 1460 -> n4 = 24 -> n100' = 3)).
  { subst d3. unfold time.daysPer4Years. lia. }
  assert (Hn1 : 0 <= n1 <= 4 /\ 365 * n1 <= d3 < 365 * n1 + 365).
  { subst n1. Z.div_mod_to_equations. lia. }
  assert (Hn1' : n1' = if n1 =? 4 then 3 else n1).
  { subst n1'. rewrite Z.shiftr_div_pow2 by lia. change (2 ^ 2) with 4.
    destruct (Z.eqb_spec n1 4); Z.div_mod_to_equations; lia. }
  assert (Hd4 : 0 <= d4 <= 365 /\ (d4 = 365 -> n1' = 3)).
  { subst d4. destruct (Z.eqb_spec n1 4); lia. }
  assert (Hn100'r : 0 <= n100' <= 3) by (destruct (Z.eqb_spec n100 4); lia).
  assert (Hn1'r : 0 <= n1' <= 3) by (destruct (Z.eqb_spec n1 4); lia).
  assert (Hy : y = 400 * n400 + 100 * n100' + 4 * n4 + n1' + 1) by reflexivity.
  assert (Hleap : time.isLeap y = true <->
                  n1' = 3 /\ (n4 <> 24 \/ n100' = 3)).
  { rewrite isLeap_mod.
    rewrite andb_true_iff, orb_true_iff, negb_true_iff, !Z.eqb_eq, Z.eqb_neq.
    clearbody y n400 n100' n4 n1'. clear -Hy Hn100'r Hn4 Hn1'r.
    Z.div_mod_to_equations. lia. }
  split; [|split].
  - replace (400 * n400 + 100 * n100' + 4 * n4 + n1' + 1) with y by reflexivity.
    unfold monthDay. cbv zeta.
    destruct (time.isLeap y && (d4 =? 31 + 29 - 1)); [reflexivity|].
    match goal with
    | |- (let '(_, _) := ?c in _) = _ => destruct c
    end. reflexivity.
  - unfold time.daysSinceEpoch. cbv zeta.
    unfold time.daysPer400Years, time.daysPer100Years, time.daysPer4Years in *.
    replace (y - 1) with (400 * n400 + 100 * n100' + 4 * n4 + n1') by lia.
    assert (E1 : (400 * n400 + 100 * n100' + 4 * n4 + n1') / 400 = n400).
    { clear -Hn100'r Hn4 Hn1'r. Z.div_mod_to_equations. lia. }
    rewrite E1.
    replace (400 * n400 + 100 * n100' + 4 * n4 + n1' - 400 * n400)
      with (100 * n100' + 4 * n4 + n1') by lia.
    assert (E2 : (100 * n100' + 4 * n4 + n1') / 100 = n100').
    { clear -Hn100'r Hn4 Hn1'r. Z.div_mod_to_equations. lia. }
    rewrite E2.
    replace (100 * n100' + 4 * n4 + n1' - 100 * n100') with (4 * n4 + n1') by lia.
    assert (E3 : (4 * n4 + n1') / 4 = n4).
    { clear -Hn100'r Hn4 Hn1'r. Z.div_mod_to_equations. lia. }
    rewrite E3. subst d4 d3 d2 d1. fold d0. lia.
  - destruct (time.isLeap y) eqn:El.
    + lia.
    + assert (d4 <> 365); [|lia]. intros E.
      enough (Hft : false = true) by discriminate Hft.
      apply Hleap. split; [apply Hd4; exact E|].
      destruct (Z.eq_dec n4 24) as [E4|]; [right|left; assumption].
      apply Hd3; [|exact E4]. subst d4. destruct (Z.eqb_spec n1 4); lia.
Qed.

Lemma In_zrange (n : nat) (lo x : Z) :
  lo <= x < lo + Z.of_nat n -> In x (zrange lo n).
Proof.
  revert lo. induction n as [|n IH]; intros lo Hx; [lia|].
  simpl. destruct (Z.eq_dec lo x) as [E|E]; [left; exact E|right].
  apply IH. lia.
Qed.

Lemma monthDay_ok (leap : bool) (yday : Z) :
  0 <= yday < 365 + (if leap then 1 else 0) ->
  let '(m, d) := monthDay leap yday in
  1 <= m <= 12 /\ 1 <= d <= daysInLeap leap m /\ ydayOf leap m d = yday.
Proof.
  intros Hy.
  assert (Hall : forallb (monthDayOk true) (zrange 0 366) = true
                 /\ forallb (monthDayOk false) (zrange 0 365) = true).
  { split; vm_compute; reflexivity. }
  assert (Hok : monthDayOk leap yday = true).
  { destruct Hall as [Ht Hf]. destruct leap.
    - eapply forallb_forall in Ht; [exact Ht|]. apply In_zrange. lia.
    - eapply forallb_forall in Hf; [exact Hf|]. apply In_zrange. lia. }
  unfold monthDayOk in Hok. destruct (monthDay leap yday) as [m d].
  rewrite !andb_true_iff in Hok. lia.
Qed.

Lemma monthDay_ydayOf (leap : bool) (m d : Z) :
  1 <= m <= 12 -> 1 <= d <= daysInLeap leap m ->
  monthDay leap (ydayOf leap m d) = (m, d).
Proof.
  intros Hm Hd.
  assert (Hall : forallb (rebuildOk true) (zrange 1 12) = true
                 /\ forallb (rebuildOk false) (zrange 1 12) = true).
  { split; vm_compute; reflexivity. }
  assert (Hd31 : d <= 31).
  { assert (Hle : forallb (fun m => daysInLeap leap m <=? 31) (zrange 1 12) = true)
      by (destruct leap; vm_compute; reflexivity).
    eapply forallb_forall in Hle; [|apply (In_zrange 12 1 m); lia]. lia. }
  assert (Hok : rebuildOk leap m = true).
  { destruct Hall as [Ht Hf]. destruct leap.
    - eapply forallb_forall in Ht; [exact Ht|]. apply In_zrange. lia.
    - eapply forallb_forall in Hf; [exact Hf|]. apply In_zrange. lia. }
  unfold rebuildOk in Hok.
  eapply forallb_forall in Hok; [|apply (In_zrange 31 1 d); lia].
  destruct (monthDay leap (ydayOf leap m d)) as [m' d'].
  rewrite orb_true_iff, negb_true_iff, andb_true_iff in Hok.
  destruct Hok as [Hok|[E1 E2]]; [lia|]. f_equal; lia.
Qed.

Lemma daysIn_leap (m y : Z) : time.daysIn m y = daysInLeap (time.isLeap y) m.
Proof. reflexivity. Qed.

Lemma dayNumber_ydayOf (y m d : Z) :
  dayNumber y m d = time.daysSinceEpoch y + ydayOf (time.isLeap y) m d.
Proof. unfold dayNumber, ydayOf. lia. Qed.

Lemma ydayOf_range (leap : bool) (m d : Z) :
  1 <= m <= 12 -> 1 <= d <= daysInLeap leap m ->
  0 <= ydayOf leap m d < 365 + (if leap then 1 else 0).
Proof.
  intros Hm Hd.
  assert (Hall : forall l, forallb (fun m =>
             (0 <=? ydayOf l m 1)
             && (ydayOf l m (daysInLeap l m) <? 365 + (if l then 1 else 0)))
             (zrange 1 12) = true)
    by (intros []; vm_compute; reflexivity).
  specialize (Hall leap). eapply forallb_forall in Hall; [|apply (In_zrange 12 1 m); lia].
  rewrite andb_true_iff in Hall. unfold ydayOf in *. lia.
Qed.

(** The calendar date of an instant is a date of the calendar, and its day
    number is the number of whole days of the instant. *)
Lemma absDate_valid (a : Z) :
  let '(y, m, d) := time.absDate a in
  validDate y m d /\ dayNumber y m d = a / time.secondsPerDay.
Proof.
  destruct (absDate_year a) as (y & yday & Heq & Hsum & Hrange).
  rewrite Heq. pose proof (monthDay_ok (time.isLeap y) yday Hrange) as Hok.
  destruct (monthDay (time.isLeap y) yday) as [m d]. simpl.
  destruct Hok as (Hm & Hd & Hy). unfold validDate. rewrite daysIn_leap.
  repeat split; try lia. rewrite dayNumber_ydayOf. lia.
Qed.

Lemma daysSinceEpoch_mono (y y' : Z) :
  y <= y' -> time.daysSinceEpoch y <= time.daysSinceEpoch y'.
Proof.
  intros Hle. replace y' with (y + Z.of_nat (Z.to_nat (y' - y))) by lia.
  induction (Z.to_nat (y' - y)) as [|k IH].
  - replace (y + Z.of_nat 0) with y by lia. lia.
  - replace (y + Z.of_nat (S k)) with (y + Z.of_nat k + 1) by lia.
    rewrite daysSinceEpoch_succ. destruct (time.isLeap _); lia.
Qed.

Lemma year_unique (y y' yd yd' : Z) :
  0 <= yd < 365 + (if time.isLeap y then 1 else 0) ->
  0 <= yd' < 365 + (if time.isLeap y' then 1 else 0) ->
  time.daysSinceEpoch y + yd = time.daysSinceEpoch y' + yd' ->
  y = y' /\ yd = yd'.
Proof.
  intros Hyd Hyd' Heq.
  assert (Hy : y = y').
  { destruct (Z.lt_trichotomy y y') as [Hlt|[E|Hgt]]; [exfalso|exact E|exfalso].
    - pose proof (daysSinceEpoch_mono (y + 1) y' ltac:(lia)) as Hm.
      rewrite daysSinceEpoch_succ in Hm. lia.
    - pose proof (daysSinceEpoch_mono (y' + 1) y ltac:(lia)) as Hm.
      rewrite daysSinceEpoch_succ in Hm. lia. }
  subst y'. split; [reflexivity|lia].
Qed.

(** The calendar date of any second of the day of a date of the calendar is
    that date. *)
Lemma absDate_dayNumber (y m d s : Z) :
  validDate y m d -> 0 <= s < time.secondsPerDay ->
  time.absDate (dayNumber y m d * time.secondsPerDay + s) = (y, m, d).
Proof.
  intros [Hm Hd] Hs. rewrite daysIn_leap in Hd.
  destruct (absDate_year (dayNumber y m d * time.secondsPerDay + s))
    as (y' & yd' & Heq & Hsum & Hrange).
  rewrite Heq.
  assert (Hdiv : (dayNumber y m d * time.secondsPerDay + s) / time.secondsPerDay
                 = dayNumber y m d).
  { unfold time.secondsPerDay, time.secondsPerHour, time.secondsPerMinute in *.
    Z.div_mod_to_equations. lia. }
  rewrite Hdiv, dayNumber_ydayOf in Hsum.
  pose proof (ydayOf_range (time.isLeap y) m d Hm Hd) as Hr.
  destruct (year_unique y' y yd' _ Hrange Hr Hsum) as [-> ->].
  rewrite monthDay_ydayOf by assumption. reflexivity.
Qed.

Lemma norm_id (hi lo base : Z) : 0 <= lo < base -> time.norm hi lo base = (hi, lo).
Proof.
  intros H. unfold time.norm.
  destruct (Z.ltb_spec lo 0); [lia|]. destruct (Z.leb_spec base lo); [lia|reflexivity].
Qed.

Lemma norm_month (y m : Z) :
  0 <= m <= 13 ->
  time.norm y (m - 1) 12 = (fst (wrapMonth y m), snd (wrapMonth y m) - 1).
Proof.
  intros Hm. unfold wrapMonth.
  destruct (Z.eqb_spec m 0) as [->|H0]; [reflexivity|].
  destruct (Z.eqb_spec m 13) as [->|H13]; [reflexivity|].
  simpl fst. simpl snd. apply norm_id. lia.
Qed.

Lemma Date_abs (y m d h mi s ns loc : Z) :
  0 <= m <= 13 -> 0 <= h < 24 -> 0 <= mi < 60 -> 0 <= s < 60 ->
  0 <= ns < 1000000000 ->
  time.Date y m d h mi s ns loc
  = time.mkTime (dayNumber (fst (wrapMonth y m)) (snd (wrapMonth y m)) d
                 * time.secondsPerDay
                 + (h * time.secondsPerHour + mi * time.secondsPerMinute + s) - loc)
                ns loc.
Proof.
  intros Hm Hh Hmi Hs Hns. unfold time.Date.
  rewrite norm_month by assumption.
  rewrite (norm_id s ns) by assumption.
  rewrite (norm_id mi s) by assumption.
  rewrite (norm_id h mi) by assumption.
  rewrite (norm_id d h) by assumption.
  destruct (wrapMonth y m) as [y' m']. simpl fst. simpl snd.
  replace (m' - 1 + 1) with m' by lia.
  unfold dayNumber. f_equal.
  destruct (time.isLeap y' && (time.March <=? m')); lia.
Qed.

Lemma Clock_range (t : time.Time) :
  let '(h, mi, s) := time.Clock t in
  0 <= h < 24 /\ 0 <= mi < 60 /\ 0 <= s < 60
  /\ h * time.secondsPerHour + mi * time.secondsPerMinute + s
     = time.abs t mod time.secondsPerDay.
Proof.
  unfold time.Clock. cbv zeta.
  unfold time.secondsPerDay, time.secondsPerHour, time.secondsPerMinute.
  change (60 * 60) with 3600. change (24 * 3600) with 86400.
  set (s := time.abs t mod 86400).
  assert (Hs : 0 <= s < 86400) by (subst s; apply Z.mod_pos_bound; lia).
  clearbody s. Z.div_mod_to_equations. lia.
Qed.

Lemma daysIn_range (m y : Z) : 1 <= m <= 12 -> 28 <= time.daysIn m y <= 31.
Proof.
  intros Hm. rewrite daysIn_leap.
  assert (Hall : forall l, forallb (fun m => (28 <=? daysInLeap l m)
                                             && (daysInLeap l m <=? 31))
                             (zrange 1 12) = true)
    by (intros []; vm_compute; reflexivity).
  specialize (Hall (time.isLeap y)).
  eapply forallb_forall in Hall; [|apply (In_zrange 12 1 m); lia].
  rewrite andb_true_iff in Hall. lia.
Qed.

(** The first day of the month after a month follows its last day. *)
Lemma dayNumber_next (y m : Z) :
  1 <= m <= 12 ->
  dayNumber (fst (wrapMonth y (m + 1))) (snd (wrapMonth y (m + 1))) 1
  = dayNumber y m (time.daysIn m y) + 1.
Proof.
  intros Hm. unfold wrapMonth.
  destruct (Z.eqb_spec (m + 1) 0); [lia|].
  destruct (Z.eqb_spec (m + 1) 13) as [E|E]; simpl fst; simpl snd.
  - assert (m = 12) by lia. subst m. rewrite !dayNumber_ydayOf, daysIn_leap.
    rewrite daysSinceEpoch_succ.
    assert (H1 : forall l, ydayOf l 1 1 = 0) by (intros []; reflexivity).
    assert (H12 : forall l, ydayOf l 12 (daysInLeap l 12)
                            = 364 + (if l then 1 else 0)) by (intros []; reflexivity).
    rewrite H1, H12. lia.
  - rewrite !dayNumber_ydayOf, daysIn_leap.
    assert (Hall : forall l, forallb (fun m =>
               ydayOf l (m + 1) 1 =? ydayOf l m (daysInLeap l m) + 1)
               (zrange 1 11) = true)
      by (intros []; vm_compute; reflexivity).
    specialize (Hall (time.isLeap y)).
    eapply forallb_forall in Hall; [|apply (In_zrange 11 1 m); lia].
    lia.
Qed.

Lemma dayNumber_shift (y m d k : Z) : dayNumber y m (d + k) = dayNumber y m d + k.
Proof. unfold dayNumber. lia. Qed.

Lemma wrapMonth_valid (y m : Z) :
  0 <= m <= 13 -> 1 <= snd (wrapMonth y m) <= 12.
Proof.
  intros Hm. unfold wrapMonth.
  destruct (Z.eqb_spec m 0); [simpl; lia|].
  destruct (Z.eqb_spec m 13); simpl; lia.
Qed.

(** Day zero of the next month is the last day of the month. *)
Lemma daysInMonth (y m loc : Z) :
  1 <= m <= 12 ->
  time.Day (time.Date y (m + 1) 0 0 0 0 0 loc) = time.daysIn m y.
Proof.
  intros Hm. rewrite Date_abs by lia.
  unfold time.Day, time.abs. cbn [time.sec time.loc].
  pose proof (dayNumber_next y m Hm) as Hnext.
  destruct (wrapMonth y (m + 1)) as [y' m']. cbn [fst snd] in *.
  assert (E : dayNumber y' m' 0 = dayNumber y m (time.daysIn m y))
    by (unfold dayNumber in *; lia).
  rewrite E.
  match goal with
  | |- snd (time.absDate ?a) = _ =>
    replace a with (dayNumber y m (time.daysIn m y) * time.secondsPerDay + 0) by lia
  end.
  rewrite absDate_dayNumber; [reflexivity| |unfold time.secondsPerDay, time.secondsPerHour, time.secondsPerMinute; lia].
  pose proof (daysIn_range m y Hm). unfold validDate. lia.
Qed.

Lemma today_valid (t : time.Time) :
  validDate (time.Year t) (time.Month t) (time.Day t)
  /\ dayNumber (time.Year t) (time.Month t) (time.Day t)
     = time.abs t / time.secondsPerDay.
Proof.
  pose proof (absDate_valid (time.abs t)) as H.
  unfold time.Year, time.Month, time.Day.
  destruct (time.absDate (time.abs t)) as [[y m] d]. exact H.
Qed.

Lemma secondsPerDay_eq : time.secondsPerDay = 86400.
Proof. reflexivity. Qed.

Lemma abs_split (a : Z) :
  a = a / time.secondsPerDay * time.secondsPerDay + a mod time.secondsPerDay
  /\ 0 <= a mod time.secondsPerDay < time.secondsPerDay.
Proof. rewrite secondsPerDay_eq. Z.div_mod_to_equations. lia. Qed.

Lemma absDate_plus (a k y m d : Z) :
  time.absDate a = (y, m, d) ->
  time.absDate (a + k * time.secondsPerDay)
  = time.absDate (dayNumber y m (d + k) * time.secondsPerDay
                  + a mod time.secondsPerDay).
Proof.
  intros Ha. pose proof (absDate_valid a) as Hv. rewrite Ha in Hv.
  destruct Hv as [_ Hn]. f_equal. rewrite dayNumber_shift, Hn.
  pose proof (abs_split a) as [Hs _]. lia.
Qed.

Lemma absDate_plus_same (a k y m d : Z) :
  time.absDate a = (y, m, d) -> 1 <= d + k <= time.daysIn m y ->
  time.absDate (a + k * time.secondsPerDay) = (y, m, d + k).
Proof.
  intros Ha Hk. rewrite (absDate_plus a k y m d Ha).
  pose proof (absDate_valid a) as Hv. rewrite Ha in Hv. destruct Hv as [[Hm _] _].
  apply absDate_dayNumber; [split; assumption|apply abs_split].
Qed.

Lemma absDate_plus_next (a k y m d : Z) :
  time.absDate a = (y, m, d) ->
  time.daysIn m y < d + k <= time.daysIn m y + 28 ->
  time.absDate (a + k * time.secondsPerDay)
  = (fst (wrapMonth y (m + 1)), snd (wrapMonth y (m + 1)),
     d + k - time.daysIn m y).
Proof.
  intros Ha Hk. rewrite (absDate_plus a k y m d Ha).
  pose proof (absDate_valid a) as Hv. rewrite Ha in Hv. destruct Hv as [[Hm _] _].
  pose proof (dayNumber_next y m Hm) as Hnext.
  pose proof (wrapMonth_valid y (m + 1) ltac:(lia)) as Hv.
  destruct (wrapMonth y (m + 1)) as [y' m']. cbn [fst snd] in *.
  replace (dayNumber y m (d + k)) with (dayNumber y' m' (d + k - time.daysIn m y))
    by (unfold dayNumber in *; lia).
  apply absDate_dayNumber; [|apply abs_split].
  split; [assumption|]. pose proof (daysIn_range m' y' Hv). lia.
Qed.

Lemma wrapMonth_prev_next (y m : Z) :
  1 <= m <= 12 ->
  wrapMonth (fst (wrapMonth y (m - 1))) (snd (wrapMonth y (m - 1)) + 1) = (y, m).
Proof.
  intros Hm. unfold wrapMonth.
  destruct (Z.eqb_spec (m - 1) 0) as [E|E]; cbn [fst snd].
  - change (12 + 1 =? 0) with false. change (12 + 1 =? 13) with true.
    cbv iota. f_equal; lia.
  - destruct (Z.eqb_spec (m - 1) 13); [lia|]. cbn [fst snd].
    destruct (Z.eqb_spec (m - 1 + 1) 0); [lia|].
    destruct (Z.eqb_spec (m - 1 + 1) 13); [lia|]. f_equal; lia.
Qed.

Lemma absDate_plus_prev (a k y m d y' m' : Z) :
  time.absDate a = (y, m, d) ->
  wrapMonth y (m - 1) = (y', m') ->
  - time.daysIn m' y' < d + k <= 0 ->
  time.absDate (a + k * time.secondsPerDay)
  = (y', m', d + k + time.daysIn m' y').
Proof.
  intros Ha Hw Hk. rewrite (absDate_plus a k y m d Ha).
  pose proof (absDate_valid a) as Hv. rewrite Ha in Hv. destruct Hv as [[Hm _] _].
  pose proof (wrapMonth_valid y (m - 1) ltac:(lia)) as Hv.
  pose proof (wrapMonth_prev_next y m Hm) as Hpn.
  rewrite Hw in Hv, Hpn. cbn [fst snd] in *.
  pose proof (dayNumber_next y' m' Hv) as Hnext. rewrite Hpn in Hnext.
  cbn [fst snd] in Hnext.
  replace (dayNumber y m (d + k))
    with (dayNumber y' m' (d + k + time.daysIn m' y'))
    by (unfold dayNumber in *; lia).
  apply absDate_dayNumber; [|apply abs_split].
  split; [assumption|]. pose proof (daysIn_range m' y' Hv). lia.
Qed.

(** Adding days to an instant moves it by that many times twenty-four
    hours. *)
Lemma AddDate_days (t : time.Time) (k : Z) :
  0 <= time.nsec t < 1000000000 ->
  time.AddDate t 0 0 k
  = time.mkTime (time.sec t + k * time.secondsPerDay) (time.nsec t) (time.loc t).
Proof.
  intros Hns. unfold time.AddDate.
  pose proof (Clock_range t) as Hc. destruct (time.Clock t) as [[h mi] s].
  destruct Hc as (Hh & Hmi & Hs & Hsum).
  pose proof (today_valid t) as [[Hm Hd] Hn].
  rewrite Date_abs by (try assumption; lia).
  assert (Hw : wrapMonth (time.Year t + 0) (time.Month t + 0)
               = (time.Year t, time.Month t)).
  { unfold wrapMonth. rewrite !Z.add_0_r.
    destruct (Z.eqb_spec (time.Month t) 0); [lia|].
    destruct (Z.eqb_spec (time.Month t) 13); [lia|reflexivity]. }
  rewrite Hw. cbn [fst snd]. unfold time.Location. f_equal.
  rewrite dayNumber_shift, Hn, Hsum.
  pose proof (abs_split (time.abs t)) as [Hsplit _]. unfold time.abs in *. lia.
Qed.

Lemma Day_AddDate_days (t : time.Time) (k : Z) :
  0 <= time.nsec t < 1000000000 ->
  time.Day (time.AddDate t 0 0 k)
  = snd (time.absDate (time.abs t + k * time.secondsPerDay)).
Proof.
  intros Hns. rewrite AddDate_days by assumption.
  unfold time.Day, time.abs. cbn [time.sec time.loc]. f_equal. f_equal. lia.
Qed.

Lemma date_of_mk (y m d s ns l : Z) :
  validDate y m d -> 0 <= s < time.secondsPerDay ->
  let t := time.mkTime (dayNumber y m d * time.secondsPerDay + s - l) ns l in
  time.Year t = y /\ time.Month t = m /\ time.Day t = d.
Proof.
  intros Hv Hs. cbv zeta. unfold time.Year, time.Month, time.Day, time.abs.
  cbn [time.sec time.loc].
  replace (dayNumber y m d * time.secondsPerDay + s - l + l)
    with (dayNumber y m d * time.secondsPerDay + s) by lia.
  rewrite absDate_dayNumber by assumption. auto.
Qed.

(** The instant a month before one whose day of the month every month
    has. *)
Lemma AddDate_prev_month (t : time.Time) :
  0 <= time.nsec t < 1000000000 -> time.Day t <= 28 ->
  let p := time.AddDate t 0 (-1) 0 in
  (time.Year p, time.Month p) = wrapMonth (time.Year t) (time.Month t - 1)
  /\ time.Day p = time.Day t.
Proof.
  intros Hns H28. cbv zeta. unfold time.AddDate.
  pose proof (Clock_range t) as Hc. destruct (time.Clock t) as [[h mi] s].
  destruct Hc as (Hh & Hmi & Hs & Hsum).
  pose proof (today_valid t) as [[Hm Hd] Hn].
  rewrite Date_abs by (try assumption; lia).
  replace (time.Month t + -1) with (time.Month t - 1) by lia.
  rewrite !Z.add_0_r.
  pose proof (wrapMonth_valid (time.Year t) (time.Month t - 1) ltac:(lia)) as Hv.
  destruct (wrapMonth (time.Year t) (time.Month t - 1)) as [y' m']. cbn [fst snd] in *.
  rewrite Hsum.
  destruct (date_of_mk y' m' (time.Day t) (time.abs t mod time.secondsPerDay)
              (time.nsec t) (time.Location t)) as (-> & -> & ->);
    [|apply abs_split|auto].
  split; [assumption|]. pose proof (daysIn_range m' y' Hv). lia.
Qed.

(** ** Day *)

Lemma DaysUntil_eq (d : types.Day) (today : time.Time) :
  types.Day_DaysUntil d today
  = if time.Day today <=? d then d - time.Day today
    else time.daysIn (time.Month today) (time.Year today) - time.Day today + d.
Proof.
  unfold types.Day_DaysUntil, types.Day_Int. cbv zeta.
  destruct (time.Day today <=? d); [reflexivity|].
  pose proof (today_valid today) as [[Hm _] _].
  rewrite daysInMonth by assumption. reflexivity.
Qed.

Lemma DaysOverdue_eq (d : types.Day) (today : time.Time) :
  types.Day_DaysOverdue d today
  = if d <=? time.Day today then time.Day today - d
    else let prevMonth := time.AddDate today 0 (-1) 0 in
         time.daysIn (time.Month prevMonth) (time.Year prevMonth) - d
         + time.Day today.
Proof.
  unfold types.Day_DaysOverdue, types.Day_Int. cbv zeta.
  destruct (d <=? time.Day today); [reflexivity|].
  pose proof (today_valid (time.AddDate today 0 (-1) 0)) as [[Hm _] _].
  rewrite daysInMonth by assumption. reflexivity.
Qed.



(** X14.  For a day of the month from 1 to 28, [today] moved on by DaysUntil
    days is on that day of the month, and no day from [today] up to it
    is. *)
Theorem Day_DaysUntil_next (d : types.Day) (today : time.Time) :
  wellFormed today -> 1 <= d <= 28 ->
  time.Day (time.AddDate today 0 0 (types.Day_DaysUntil d today)) = d
  /\ forall k, 0 <= k < types.Day_DaysUntil d today ->
               time.Day (time.AddDate today 0 0 k) <> d.
Proof.
  intros Hns Hd. unfold wellFormed in Hns. rewrite DaysUntil_eq.
  pose proof (today_valid today) as [[Hm Ht] _].
  pose proof (daysIn_range _ (time.Year today) Hm) as Hin.
  assert (Ha : time.absDate (time.abs today)
               = (time.Year today, time.Month today, time.Day today)).
  { unfold time.Year, time.Month, time.Day.
    destruct (time.absDate (time.abs today)) as [[? ?] ?]. reflexivity. }
  set (Y := time.Year today) in *. set (M := time.Month today) in *.
  set (D := time.Day today) in *.
  assert (Hstep : forall k, 0 <= k <= time.daysIn M Y - D + 28 ->
            time.Day (time.AddDate today 0 0 k)
            = if D + k <=? time.daysIn M Y then D + k
              else D + k - time.daysIn M Y).
  { intros k Hk. rewrite Day_AddDate_days by assumption.
    destruct (Z.leb_spec (D + k) (time.daysIn M Y)).
    - rewrite (absDate_plus_same _ k Y M D Ha) by lia. reflexivity.
    - rewrite (absDate_plus_next _ k Y M D Ha) by lia. reflexivity. }
  destruct (Z.leb_spec D d) as [Hle|Hlt].
  - split.
    + rewrite Hstep by lia. destruct (Z.leb_spec (D + (d - D)) (time.daysIn M Y)); lia.
    + intros k Hk. rewrite Hstep by lia.
      destruct (Z.leb_spec (D + k) (time.daysIn M Y)); lia.
  - split.
    + rewrite Hstep by lia.
      destruct (Z.leb_spec (D + (time.daysIn M Y - D + d)) (time.daysIn M Y)); lia.
    + intros k Hk. rewrite Hstep by lia.
      destruct (Z.leb_spec (D + k) (time.daysIn M Y)); lia.
Qed.

(** X16.  For a day of the month from 1 to 28, DaysOverdue is not negative,
    [today] moved back by DaysOverdue days is on that day of the month, and
    no day after it up to [today] is. *)
Theorem Day_DaysOverdue_last (d : types.Day) (today : time.Time) :
  wellFormed today -> 1 <= d <= 28 ->
  0 <= types.Day_DaysOverdue d today
  /\ time.Day (time.AddDate today 0 0 (- types.Day_DaysOverdue d today)) = d
  /\ forall k, 0 <= k < types.Day_DaysOverdue d today ->
               time.Day (time.AddDate today 0 0 (- k)) <> d.
Proof.
  intros Hns Hd. unfold wellFormed in Hns. rewrite DaysOverdue_eq. cbv zeta.
  pose proof (today_valid today) as [[Hm Ht] _].
  pose proof (daysIn_range _ (time.Year today) Hm) as Hin.
  assert (Ha : time.absDate (time.abs today)
               = (time.Year today, time.Month today, time.Day today)).
  { unfold time.Year, time.Month, time.Day.
    destruct (time.absDate (time.abs today)) as [[? ?] ?]. reflexivity. }
  destruct (Z.leb_spec d (time.Day today)) as [Hle|Hlt].
  - assert (Hstep : forall k, 0 <= k < time.Day today ->
              time.Day (time.AddDate today 0 0 (- k)) = time.Day today - k).
    { intros k Hk. rewrite Day_AddDate_days by assumption.
      rewrite (absDate_plus_same _ (- k) _ _ _ Ha) by lia. cbn [snd]. lia. }
    split; [lia|]. split.
    + rewrite Hstep by lia. lia.
    + intros k Hk. rewrite Hstep by lia. lia.
  - destruct (AddDate_prev_month today Hns ltac:(lia)) as (Ep & _).
    pose proof (wrapMonth_valid (time.Year today) (time.Month today - 1) ltac:(lia)) as Hv.
    destruct (wrapMonth (time.Year today) (time.Month today - 1)) as [y' m'] eqn:Hw.
    injection Ep as Ey Em. rewrite Ey, Em.
    cbn [fst snd] in *.
    pose proof (daysIn_range m' y' Hv) as Hin'.
    assert (Hstep : forall k, 0 <= k < time.Day today + time.daysIn m' y' ->
              time.Day (time.AddDate today 0 0 (- k))
              = if k <? time.Day today then time.Day today - k
                else time.Day today - k + time.daysIn m' y').
    { intros k Hk. rewrite Day_AddDate_days by assumption.
      destruct (Z.ltb_spec k (time.Day today)).
      - rewrite (absDate_plus_same _ (- k) _ _ _ Ha) by lia. cbn [snd]. lia.
      - rewrite (absDate_plus_prev _ (- k) _ _ _ y' m' Ha Hw) by lia.
        cbn [snd]. lia. }
    split; [lia|]. split.
    + rewrite Hstep by lia.
      destruct (Z.ltb_spec (time.daysIn m' y' - d + time.Day today) (time.Day today)); lia.
    + intros k Hk. rewrite Hstep by lia. destruct (Z.ltb_spec k (time.Day today)); lia.
Qed.



(** [Day_DaysUntil_next] at a concrete input. *)
Lemma Day_DaysUntil_next_witness :
  time.Day (time.AddDate (time.Date 2024 3 15 12 30 0 0 time.UTC) 0 0
              (types.Day_DaysUntil 10 (time.Date 2024 3 15 12 30 0 0 time.UTC)))
  = 10.
Proof.
  apply (Day_DaysUntil_next 10 (time.Date 2024 3 15 12 30 0 0 time.UTC)).
  - vm_compute. split; [discriminate|reflexivity].
  - lia.
Defined.

(** [Day_DaysOverdue_last] at a concrete input. *)
Lemma Day_DaysOverdue_last_witness :
  time.Day (time.AddDate (time.Date 2024 3 15 12 30 0 0 time.UTC) 0 0
              (- types.Day_DaysOverdue 20 (time.Date 2024 3 15 12 30 0 0 time.UTC)))
  = 20.
Proof.
  apply (Day_DaysOverdue_last 20 (time.Date 2024 3 15 12 30 0 0 time.UTC)).
  - vm_compute. split; [discriminate|reflexivity].
  - lia.
Defined.

(** ** Errors (package msg) *)

(** X22.  After WithContext the context holds the value under the key and
    every other key as before, also when there was no context; a second
    value for the key replaces the first; the wrapped error, the message, the
    code, the details and the projected status are unchanged. *)
Theorem WithContext_lookup (e : msg.MessageError) (key : string) (value : any) :
  msg.ctxGet (msg.Context (msg.WithContext e key value)) key = Some value
  /\ (forall k, k <> key ->
        msg.ctxGet (msg.Context (msg.WithContext e key value)) k
        = msg.ctxGet (msg.Context e) k)
  /\ (forall value', msg.WithContext (msg.WithContext e key value') key value
                     = msg.WithContext e key value)
  /\ msg.Err (msg.WithContext e key value) = msg.Err e
  /\ msg.Message (msg.WithContext e key value) = msg.Message e
  /\ msg.Code (msg.WithContext e key value) = msg.Code e
  /\ msg.Details (msg.WithContext e key value) = msg.Details e
  /\ msg.ToResponse (msg.WithContext e key value)
     = msg.mkErrorResponse (msg.HTTPStatus e) (msg.Message e) (msg.Code e)
         (msg.Context (msg.WithContext e key value))
         (map msg.ToResponse (msg.Details e)).
Proof.
  destruct e as [err m code ctx ds]. unfold msg.WithContext.
  cbn [msg.Context msg.Err msg.Message msg.Code msg.Details msg.ctxGet].
  split; [apply lookup_insert_eq|].
  split.
  { intros k Hk. rewrite lookup_insert_ne by congruence.
    destruct ctx as [m0|]; [reflexivity|apply lookup_empty]. }
  split; [intros value'; now rewrite insert_insert_eq|].
  repeat split. rewrite ToResponse_eq. reflexivity.
Qed.

(** X23.  HTTPStatus is 409, 400, 404, 401 or 403 exactly for the codes
    conflict, invalid_input, not_found, unauthorized and forbidden, and 500
    for every other code.  So what NewValidationError and NewBadRequestError
    make has status 400, NewInternalError 500, NewUnauthorizedError 401,
    NewForbiddenError 403, and NewDomainError 500, its code having no status
    of its own.  NewMessageError keeps the wrapped error, the message, the
    code and the context, and has no details. *)
Theorem HTTPStatus_table :
  (forall e,
      (msg.HTTPStatus e = msg.StatusConflict <-> msg.Code e = msg.CodeConflict)
      /\ (msg.HTTPStatus e = msg.StatusBadRequest <-> msg.Code e = msg.CodeInvalid)
      /\ (msg.HTTPStatus e = msg.StatusNotFound <-> msg.Code e = msg.CodeNotFound)
      /\ (msg.HTTPStatus e = msg.StatusUnauthorized
          <-> msg.Code e = msg.CodeUnauthorized)
      /\ (msg.HTTPStatus e = msg.StatusForbidden <-> msg.Code e = msg.CodeForbidden)
      /\ (msg.HTTPStatus e = msg.StatusInternalServerError <->
          msg.Code e <> msg.CodeConflict /\ msg.Code e <> msg.CodeInvalid
          /\ msg.Code e <> msg.CodeNotFound /\ msg.Code e <> msg.CodeUnauthorized
          /\ msg.Code e <> msg.CodeForbidden))
  /\ (forall err ctx message,
         msg.HTTPStatus (msg.NewValidationError err ctx message) = 400
         /\ msg.HTTPStatus (msg.NewBadRequestError err ctx) = 400
         /\ msg.HTTPStatus (msg.NewInternalError err ctx) = 500
         /\ msg.HTTPStatus (msg.NewUnauthorizedError err ctx) = 401
         /\ msg.HTTPStatus (msg.NewForbiddenError err ctx) = 403
         /\ msg.HTTPStatus (msg.NewDomainError err message ctx) = 500)
  /\ (forall err ctx message code,
         let e := msg.NewMessageError err message code ctx in
         msg.Unwrap e = err /\ msg.Message e = message /\ msg.Code e = code
         /\ msg.Context e = ctx
         /\ msg.ToResponse e
            = msg.mkErrorResponse (msg.HTTPStatus e) message code ctx []).
Proof.
  split; [|split; intros; repeat split].
  intros e. unfold msg.HTTPStatus. generalize (msg.Code e) as c. intros c.
  destruct (String.eqb_spec c msg.CodeConflict) as [->|N1];
    [repeat split; intros; try discriminate; tauto|].
  destruct (String.eqb_spec c msg.CodeInvalid) as [->|N2];
    [repeat split; intros; try discriminate; tauto|].
  destruct (String.eqb_spec c msg.CodeNotFound) as [->|N3];
    [repeat split; intros; try discriminate; tauto|].
  destruct (String.eqb_spec c msg.CodeUnauthorized) as [->|N4];
    [repeat split; intros; try discriminate; tauto|].
  destruct (String.eqb_spec c msg.CodeForbidden) as [->|N5];
    [repeat split; intros; try discriminate; tauto|].
  destruct (String.eqb_spec c msg.CodeInternal) as [->|N6];
    repeat split; intros; try discriminate; try contradiction; try assumption.
Qed.

(** ** Version *)

(** X17.  For a version from 1 on that Increment does not overflow,
    Previous undoes Increment and Increment undoes Previous; Previous is
    smaller and never negative. *)
Theorem Version_steps (v : types.Version) :
  1 <= v < types.maxInt ->
  types.Version_Previous (types.Version_Increment v) = v
  /\ types.Version_Increment (types.Version_Previous v) = v
  /\ 0 <= types.Version_Previous v < v
  /\ types.NewVersion <= types.Version_Increment v.
Proof.
  intros Hv. unfold types.Version_Previous, types.Version_Increment, types.NewVersion.
  destruct (Z.leb_spec (v + 1) 1), (Z.leb_spec v 1); lia.
Qed.

(** [Version_steps] at a concrete input. *)
Lemma Version_steps_witness :
  types.Version_Previous (types.Version_Increment types.NewVersion) = types.NewVersion
  /\ types.Version_Previous types.NewVersion = 0.
Proof.
  destruct (Version_steps types.NewVersion) as (H1 & _ & H3 & _).
  - vm_compute. split; [discriminate|reflexivity].
  - split; [exact H1|]. reflexivity.
Defined.

Lemma parseDigits_nonneg (s : list ascii) (acc n : Z) :
  0 <= acc -> strconv.parseDigits s acc = Some n -> 0 <= n.
Proof.
  revert acc. induction s as [|c s IH]; intros acc Hacc Hp; cbn in Hp.
  - inversion Hp; subst; assumption.
  - destruct (isDigit c) eqn:Hd; [|discriminate].
    apply (IH (10 * acc + (byte c - 48))); [|exact Hp].
    unfold isDigit in Hd. blia.
Qed.

Lemma ParseInt_range (s : string) (bitSize n : Z) :
  1 <= bitSize ->
  strconv.ParseInt s bitSize = Some n ->
  - 2 ^ (bitSize - 1) <= n < 2 ^ (bitSize - 1).
Proof.
  intros Hb. unfold strconv.ParseInt. destruct (bytes s) as [|c rest]; [discriminate|].
  set (body := if (Ascii.eqb c "+" || Ascii.eqb c "-")%bool then rest else c :: rest).
  destruct body as [|b body']; [discriminate|].
  destruct (strconv.parseDigits (b :: body') 0) as [un|] eqn:Hp; [|discriminate].
  pose proof (parseDigits_nonneg _ _ _ (Z.le_refl 0) Hp) as Hun.
  assert (Hpow : 0 < 2 ^ (bitSize - 1)) by (apply Z.pow_pos_nonneg; lia).
  destruct (Ascii.eqb c "-"); cbn [negb andb].
  - destruct (Z.ltb_spec (2 ^ (bitSize - 1)) un); [discriminate|].
    intros Heq; inversion Heq; subst. lia.
  - destruct (Z.leb_spec (2 ^ (bitSize - 1)) un); [discriminate|].
    intros Heq; inversion Heq; subst. lia.
Qed.

Lemma ParseInt_Itoa_out (n bitSize : Z) :
  1 <= bitSize ->
  n < - 2 ^ (bitSize - 1) \/ 2 ^ (bitSize - 1) <= n ->
  strconv.ParseInt (strconv.Itoa n) bitSize = None.
Proof.
  intros Hb Hn.
  destruct (strconv.ParseInt (strconv.Itoa n) bitSize) as [m|] eqn:Hp; [|reflexivity].
  exfalso. pose proof (ParseInt_range _ _ _ Hb Hp) as Hr.
  assert (Hpow : 0 < 2 ^ (bitSize - 1)) by (apply Z.pow_pos_nonneg; lia).
  assert (Hm : m = n); [|lia].
  revert Hp. unfold strconv.ParseInt, strconv.Itoa.
  destruct (n <? 0) eqn:Hneg.
  - apply Z.ltb_lt in Hneg. rewrite bytes_str.
    destruct (formatUint_head (- n)) as (c & t & Hf & Hc); [lia|].
    change (Ascii.eqb "-" "-") with true. change (Ascii.eqb "-" "+") with false.
    cbn [orb]. rewrite Hf, <- Hf, formatUint_parse by lia.
    cbn [negb andb].
    destruct (2 ^ (bitSize - 1) <? - n); [discriminate|].
    intros Heq; inversion Heq. lia.
  - apply Z.ltb_ge in Hneg. rewrite bytes_str.
    assert (Hhd : exists c t, strconv.formatUint n = c :: t /\ 48 <= byte c <= 57).
    { destruct (Z.eq_dec n 0) as [->|Hne].
      - exists "0"%char, []. split; [reflexivity|]. vm_compute. split; discriminate.
      - destruct (formatUint_head n) as (c & t & Hf & Hc); [lia|].
        exists c, t. split; [assumption|lia]. }
    destruct Hhd as (c & t & Hf & Hc). rewrite Hf.
    rewrite (Ascii_eqb_byte c "-") by (change (byte "-") with 45; lia).
    rewrite (Ascii_eqb_byte c "+") by (change (byte "+") with 43; lia).
    cbn [orb]. rewrite <- Hf, formatUint_parse by lia.
    cbn [negb andb].
    destruct (2 ^ (bitSize - 1) <=? n); [discriminate|].
    intros Heq; inversion Heq. reflexivity.
Qed.

(** X18.  Version.Scan reads a []byte source as a 32-bit decimal number: a
    value it yields is within the 32-bit range, the decimal text of a number
    within that range reads as the number, and the text of a number outside
    is rejected with an invalid-input error that leaves the version as it
    was.  An int64 source is taken over the whole range of int. *)
Theorem Version_Scan_ranges (v0 : types.Version) :
  (forall s n, types.Version_Scan v0 (anyBytes s) = (n, None) ->
               - 2 ^ 31 <= n < 2 ^ 31)
  /\ (forall n, - 2 ^ 31 <= n < 2 ^ 31 ->
                types.Version_Scan v0 (anyBytes (strconv.Itoa n)) = (n, None))
  /\ (forall n, n < - 2 ^ 31 \/ 2 ^ 31 <= n ->
                fst (types.Version_Scan v0 (anyBytes (strconv.Itoa n))) = v0
                /\ invalidInput (snd (types.Version_Scan v0 (anyBytes (strconv.Itoa n)))))
  /\ (forall n, types.minInt <= n <= types.maxInt ->
                types.Version_Scan v0 (anyInt64 n) = (n, None)).
Proof.
  repeat apply conj.
  - intros s n. cbn [types.Version_Scan].
    destruct (strconv.ParseInt s 32) as [p|] eqn:Hp; [|discriminate].
    intros Heq; inversion Heq; subst. apply (ParseInt_range s 32 n ltac:(lia) Hp).
  - intros n Hn. cbn [types.Version_Scan].
    now rewrite (ParseInt_Itoa n 32) by exact Hn.
  - intros n Hn. cbn [types.Version_Scan].
    rewrite (ParseInt_Itoa_out n 32 ltac:(lia) Hn).
    split; [reflexivity|]. eexists. split; reflexivity.
  - intros n Hn. cbn [types.Version_Scan].
    destruct (Z.ltb_spec types.maxInt n); [lia|].
    destruct (Z.ltb_spec n types.minInt); [lia|]. reflexivity.
Qed.

(** [Version_Scan_ranges] at a concrete input. *)
Lemma Version_Scan_ranges_witness :
  types.Version_Scan 1 (anyBytes "2147483647") = (2147483647, None)
  /\ fst (types.Version_Scan 1 (anyBytes "2147483648")) = 1
  /\ types.Version_Scan 1 (anyInt64 2147483648) = (2147483648, None).
Proof.
  destruct (Version_Scan_ranges 1) as (_ & Hin & Hout & H64).
  split; [|split].
  - apply (Hin 2147483647). vm_compute. split; [discriminate|reflexivity].
  - apply (Hout 2147483648). right. vm_compute. discriminate.
  - apply (H64 2147483648). vm_compute. split; discriminate.
Defined.

(** ** Currency *)

Section Currency.
Context `{unicode.CaseTables}.

Lemma len_3 (s : string) : String.length s = 3%nat -> len s = 3.
Proof. unfold len. intros ->. reflexivity. Qed.

(** X11.  A Currency that NewCurrency returns is BRL, USD or EUR, the input
    in upper case, valid and not empty, and NewCurrency returns it unchanged.
    An ASCII input is accepted exactly when its bytes in upper case spell one
    of the three codes, so it has three bytes; any other ASCII input fails
    with ErrInvalidCurrency. *)
Theorem NewCurrency_spec :
  (forall s c,
      types.NewCurrency s = (c, None) ->
      (c = types.BRL \/ c = types.USD \/ c = types.EUR)
      /\ c = strings.ToUpper s
      /\ types.Currency_IsValid c = true
      /\ types.Currency_IsEmpty c = false
      /\ types.NewCurrency (types.Currency_String c) = (c, None))
  /\ (forall s,
         strings.isASCII s = true ->
         let u := str (map strings.upperByte (bytes s)) in
         if types.Currency_IsValid u
         then types.NewCurrency s = (u, None) /\ len s = 3
         else types.NewCurrency s = ("", Some types.ErrInvalidCurrency)).
Proof.
  split.
  - intros s c. unfold types.NewCurrency.
    destruct (types.Currency_IsValid (strings.ToUpper s)) eqn:Hv; [|discriminate].
    cbn [negb]. intros Heq; inversion Heq; subst c.
    pose proof (Currency_valid_cases _ Hv) as Hc.
    split; [exact Hc|]. split; [reflexivity|]. split; [exact Hv|].
    destruct Hc as [Hc|[Hc|Hc]]; rewrite Hc; split; reflexivity.
  - intros s Hascii u. unfold types.NewCurrency, strings.ToUpper.
    rewrite Hascii. fold u. destruct (types.Currency_IsValid u) eqn:Hv; [|reflexivity].
    split; [reflexivity|].
    assert (Hl : String.length u = 3%nat).
    { destruct (Currency_valid_cases _ Hv) as [Hc|[Hc|Hc]]; rewrite Hc; reflexivity. }
    apply len_3. rewrite <- Hl. subst u.
    rewrite <- !length_bytes, bytes_str, length_map. reflexivity.
Qed.

End Currency.

(** [NewCurrency_spec] at a concrete input. *)
Lemma NewCurrency_spec_witness :
  @types.NewCurrency sample.caseTables "usd" = ("USD", None)
  /\ @types.NewCurrency sample.caseTables "USD" = ("USD", None).
Proof.
  destruct (@NewCurrency_spec sample.caseTables) as [Hc Ha].
  assert (Hlow : @types.NewCurrency sample.caseTables "usd" = ("USD", None)).
  { pose proof (Ha "usd" eq_refl) as Hs. cbv zeta in Hs.
    change (types.Currency_IsValid (str (map strings.upperByte (bytes "usd"))))
      with true in Hs. cbv iota in Hs. exact (proj1 Hs). }
  split; [exact Hlow|].
  exact (proj2 (proj2 (proj2 (proj2 (Hc "usd" "USD" Hlow))))).
Defined.

(** X12.  The codecs of Currency and of Day bring back every value, not only
    those the constructors accept: Scan reads back what Value wrote for every
    Currency (the empty one as NULL) and every Day, and UnmarshalJSON reads
    back what MarshalJSON wrote for every Currency of plain ASCII bytes and
    every Day within the 64-bit range. *)
Theorem Currency_Day_codecs_all :
  (forall c c0, types.Currency_Scan c0 (fst (types.Currency_Value c)) = (c, None)
                /\ snd (types.Currency_Value c) = None)
  /\ (forall c c0,
         Forall (fun b => jsonPlain b = true) (bytes c) ->
         types.Currency_UnmarshalJSON c0 (fst (types.Currency_MarshalJSON c))
         = (c, None))
  /\ (forall d d0, types.Day_Scan d0 (fst (types.Day_Value d)) = (d, None))
  /\ (forall d d0,
         - 2 ^ 63 <= d < 2 ^ 63 ->
         types.Day_UnmarshalJSON d0 (fst (types.Day_MarshalJSON d)) = (d, None)).
Proof.
  repeat apply conj.
  - intros c c0. unfold types.Currency_Value, types.Currency_IsEmpty.
    destruct (String.eqb_spec c "") as [->|Hne]; [split; reflexivity|].
    split; reflexivity.
  - intros c c0 Hp. unfold types.Currency_UnmarshalJSON, types.Currency_MarshalJSON.
    cbn [fst]. unfold types.Currency_String. now rewrite json_string_roundtrip.
  - reflexivity.
  - intros d d0 Hd. unfold types.Day_UnmarshalJSON, types.Day_MarshalJSON.
    cbn [fst]. unfold types.Day_Int. now rewrite json_int_roundtrip.
Qed.

(** [Currency_Day_codecs_all] at a concrete input. *)
Lemma Currency_Day_codecs_all_witness :
  types.Currency_UnmarshalJSON "BRL" (fst (types.Currency_MarshalJSON "gbp"))
  = ("gbp", None)
  /\ types.Day_UnmarshalJSON 1 (fst (types.Day_MarshalJSON (-40))) = (-40, None).
Proof.
  destruct Currency_Day_codecs_all as (_ & Hc & _ & Hd). split.
  - apply (Hc "gbp" "BRL"). repeat constructor.
  - apply (Hd (-40) 1). vm_compute. split; [discriminate|reflexivity].
Defined.

(** ** Phone *)

(** X2.  normalizePhone keeps the ASCII digits of its input, in their order,
    and nothing else, whatever the other bytes are.  So it changes nothing
    when applied again, and trimming the input first makes no difference. *)
Theorem normalizePhone_keeps_digits (s : string) :
  bytes (types.normalizePhone s) = List.filter isDigit (bytes s)
  /\ types.normalizePhone (types.normalizePhone s) = types.normalizePhone s
  /\ types.normalizePhone (strings.TrimSpace s) = types.normalizePhone s.
Proof.
  split; [apply normalizePhone_digits|]. split; [|apply normalizePhone_TrimSpace].
  apply bytes_inj. rewrite !normalizePhone_digits.
  induction (bytes s) as [|c l IH]; [reflexivity|].
  cbn [List.filter]. destruct (isDigit c) eqn:Hc; [|exact IH].
  cbn [List.filter]. rewrite Hc. now f_equal.
Qed.

Lemma len_app (s t : string) : len (s +:+ t) = len s + len t.
Proof. rewrite !len_bytes, bytes_app, length_app. lia. Qed.

Lemma phoneFinal_iff (n v : string) :
  phoneFinal n = Some v <->
  (len n = 11 /\ strings.HasPrefix n "55" = false /\ v = "55" +:+ n)
  \/ (len n = 13 /\ strings.HasPrefix n "55" = true /\ v = n).
Proof.
  unfold phoneFinal.
  change (types.DDDLength + types.LocalPhoneNumberLength) with 11.
  change types.NormalizedPhoneLength with 13.
  change types.DefaultCountryCode with "55"%string.
  destruct (Z.eqb_spec (len n) 11) as [E11|N11].
  - destruct (strings.HasPrefix n "55") eqn:Hp.
    + split; [discriminate|]. intros [(_ & Hc & _)|(Hl & _)]; [discriminate|lia].
    + rewrite len_app, E11, HasPrefix_app. change (len "55") with 2.
      change (2 + 11 =? 13) with true. cbn [andb].
      split.
      * intros Heq; inversion Heq; subst. left. auto.
      * intros [(_ & _ & ->)|(Hl & _)]; [reflexivity|lia].
  - destruct (Z.eqb_spec (len n) 13) as [E13|N13]; cbn [andb].
    + destruct (strings.HasPrefix n "55") eqn:Hp.
      * split.
        -- intros Heq; inversion Heq; subst. right. auto.
        -- intros [(Hl & _)|(_ & _ & ->)]; [lia|reflexivity].
      * split; [discriminate|]. intros [(Hl & _)|(_ & Hc & _)]; [lia|discriminate].
    + split; [discriminate|]. intros [(Hl & _)|(Hl & _)]; lia.
Qed.

(** X3.  NewPhone accepts an input exactly when its trimmed form is not
    empty and has at most thirty characters and its digits are either eleven
    digits that do not begin with 55, which come back after 55, or thirteen
    digits that begin with 55, which come back as they are. *)
Theorem NewPhone_accepts (s : string) (v : types.Phone) :
  types.NewPhone s = (v, None) <->
  strings.TrimSpace s <> ""
  /\ utf8.RuneCountInString (strings.TrimSpace s) <= types.MaxRawPhoneInputLength
  /\ ((len (types.normalizePhone s) = 11
       /\ strings.HasPrefix (types.normalizePhone s) "55" = false
       /\ v = "55" +:+ types.normalizePhone s)
      \/ (len (types.normalizePhone s) = 13
          /\ strings.HasPrefix (types.normalizePhone s) "55" = true
          /\ v = types.normalizePhone s)).
Proof.
  rewrite <- phoneFinal_iff. pose proof (NewPhone_spec s) as Hspec.
  destruct (String.eqb_spec (strings.TrimSpace s) "") as [He|He].
  - cbn [orb] in Hspec. destruct Hspec as (err & Heq & _). rewrite Heq.
    split; [discriminate|]. intros (Hne & _). contradiction.
  - cbn [orb] in Hspec.
    destruct (Z.ltb_spec types.MaxRawPhoneInputLength
                (utf8.RuneCountInString (strings.TrimSpace s))) as [Hlong|Hshort].
    + destruct Hspec as (err & Heq & _). rewrite Heq.
      split; [discriminate|]. intros (_ & Hle & _). lia.
    + destruct (phoneFinal (types.normalizePhone s)) as [w|] eqn:Hf.
      * rewrite Hspec. split.
        -- intros Heq; inversion Heq; subst. auto.
        -- intros (_ & _ & Heq). inversion Heq; subst. reflexivity.
      * destruct Hspec as (err & Heq & _). rewrite Heq.
        split; [discriminate|]. intros (_ & _ & Hc). discriminate.
Qed.

(** X5.  A Phone that NewPhone returns has thirteen digits that begin with
    55 and is not empty; NewPhone returns it unchanged, and Value writes it
    as its string. *)
Theorem NewPhone_canonical (s : string) (v : types.Phone) :
  types.NewPhone s = (v, None) ->
  phoneInvariant v
  /\ types.NewPhone (types.Phone_String v) = (v, None)
  /\ types.Phone_IsEmpty v = false
  /\ types.Phone_Value v = (anyString v, None).
Proof.
  intros Hnew. pose proof (NewPhone_invariant s v Hnew) as Hinv.
  split; [exact Hinv|]. split; [apply NewPhone_fixed; exact Hinv|].
  assert (He : types.Phone_IsEmpty v = false).
  { destruct Hinv as (Hl & _). unfold types.Phone_IsEmpty.
    destruct (String.eqb_spec v "") as [->|]; [discriminate Hl|reflexivity]. }
  split; [exact He|]. unfold types.Phone_Value. now rewrite He.
Qed.

(** [NewPhone_canonical] at a concrete input. *)
Lemma NewPhone_canonical_witness :
  phoneInvariant "5562982870053"
  /\ types.NewPhone "5562982870053" = ("5562982870053", None).
Proof.
  destruct (NewPhone_canonical "(62) 98287-0053" "5562982870053") as (Hi & Hf & _).
  - vm_compute. reflexivity.
  - split; [exact Hi|exact Hf].
Defined.

(** [NewPhone_accepts] at a concrete input. *)
Lemma NewPhone_accepts_witness :
  types.NewPhone " 62 98287-0053 " = ("5562982870053", None).
Proof.
  apply (proj2 (NewPhone_accepts " 62 98287-0053 " "5562982870053")).
  split; [vm_compute; discriminate|]. split; [vm_compute; discriminate|].
  left. vm_compute. auto.
Defined.

(** X4.  The errors of NewPhone, in the order of its checks: an input that
    is empty after trimming; a trimmed input of more than thirty characters;
    eleven digits that begin with 55; a number of digits other than eleven
    and thirteen; thirteen digits that do not begin with 55.  Each is an
    invalid-input error with its own message and the raw input, and what
    was counted or compared, in its context. *)
Theorem NewPhone_rejects (s : string) :
  let t := strings.TrimSpace s in
  let n := types.normalizePhone s in
  (t = "" ->
   failsWith (types.NewPhone s) "Phone number cannot be empty."
     [("input_phone", anyString s)])
  /\ (t <> "" -> types.MaxRawPhoneInputLength < utf8.RuneCountInString t ->
      failsWith (types.NewPhone s)
        ("Raw phone input (length " +:+ strconv.Itoa (utf8.RuneCountInString t)
         +:+ ") exceeds maximum length of 30 characters.")
        [("input_phone", anyString s); ("max_length", anyInt 30)])
  /\ (t <> "" -> utf8.RuneCountInString t <= types.MaxRawPhoneInputLength ->
      (len n = 11 -> strings.HasPrefix n "55" = true ->
       failsWith (types.NewPhone s)
         "Invalid phone number format: 11-digit number starting with country code '55' is ambiguous or incomplete."
         [("input_phone", anyString s); ("normalized_phone", anyString n)])
      /\ (len n <> 11 -> len n <> 13 ->
          failsWith (types.NewPhone s)
            ("Normalized phone number must have 13 digits (e.g., 55DDNNNNNNNNN), got "
             +:+ strconv.Itoa (len n) +:+ ".")
            [("input_phone", anyString s);
             ("normalized_phone_after_prefix_attempt", anyString n);
             ("expected_length", anyInt 13); ("actual_length", anyInt (len n))])
      /\ (len n = 13 -> strings.HasPrefix n "55" = false ->
          failsWith (types.NewPhone s)
            "Normalized 13-digit phone number must start with country code '55'."
            [("input_phone", anyString s); ("normalized_phone", anyString n);
             ("expected_prefix", anyString "55")])).
Proof.
  cbv zeta. unfold types.NewPhone. rewrite normalizePhone_TrimSpace.
  repeat apply conj.
  - intros ->. cbn [String.eqb]. eexists. repeat split. repeat constructor.
  - intros Hne Hlong.
    destruct (String.eqb_spec (strings.TrimSpace s) ""); [contradiction|].
    destruct (Z.ltb_spec types.MaxRawPhoneInputLength
                (utf8.RuneCountInString (strings.TrimSpace s))); [|lia].
    eexists. repeat split. repeat constructor.
  - intros Hne Hshort.
    destruct (String.eqb_spec (strings.TrimSpace s) ""); [contradiction|].
    destruct (Z.ltb_spec types.MaxRawPhoneInputLength
                (utf8.RuneCountInString (strings.TrimSpace s))); [lia|].
    unfold types.validateAndPrefixNormalizedPhone.
    change (types.DDDLength + types.LocalPhoneNumberLength) with 11.
    change types.NormalizedPhoneLength with 13.
    change types.DefaultCountryCode with "55"%string.
    repeat apply conj.
    + intros Hlen Hpre. rewrite Hlen, Hpre. cbn [Z.eqb Pos.eqb].
      eexists. repeat split. repeat constructor.
    + intros H11 H13.
      destruct (Z.eqb_spec (len (types.normalizePhone s)) 11); [contradiction|].
      destruct (Z.eqb_spec (len (types.normalizePhone s)) 13); [contradiction|].
      cbn [negb]. eexists. repeat split. repeat constructor.
    + intros Hlen Hpre. rewrite Hlen, Hpre. cbn [Z.eqb Pos.eqb negb].
      eexists. repeat split. repeat constructor.
Qed.

(** [NewPhone_rejects] at a concrete input. *)
Lemma NewPhone_rejects_witness :
  failsWith (types.NewPhone "55123456789")
    "Invalid phone number format: 11-digit number starting with country code '55' is ambiguous or incomplete."
    [("input_phone", anyString "55123456789");
     ("normalized_phone", anyString "55123456789")].
Proof.
  destruct (NewPhone_rejects "55123456789") as (_ & _ & Hrest).
  destruct Hrest as (Hamb & _).
  - vm_compute. discriminate.
  - vm_compute. discriminate.
  - apply Hamb; reflexivity.
Defined.

(** ** Email *)

Section EmailRejects.
Context `{unicode.CaseTables}.

(** X9.  The errors of NewEmail, in the order of its checks, on the input
    trimmed and in lower case: it is empty; it is longer than 254 bytes; it
    is not of the shape of the pattern.  Each is an invalid-input error with
    its own message and the raw input in its context, the second also with
    the length found and the length allowed. *)
Theorem NewEmail_rejects (s : string) :
  let n := strings.ToLower (strings.TrimSpace s) in
  (n = "" ->
   failsWith (types.NewEmail s) "Email address cannot be empty."
     [("input_email", anyString s)])
  /\ (n <> "" -> types.MaxEmailLength < len n ->
      failsWith (types.NewEmail s)
        ("Email address (length " +:+ strconv.Itoa (len n)
         +:+ ") exceeds maximum length of 254 characters.")
        [("input_email", anyString s); ("length", anyInt (len n));
         ("max_length", anyInt 254)])
  /\ (n <> "" -> len n <= types.MaxEmailLength ->
      regexp.MatchString types.emailRegexPattern n = false ->
      failsWith (types.NewEmail s)
        ("Email address '" +:+ s +:+ "' has an invalid format.")
        [("input_email", anyString s)]).
Proof.
  cbv zeta. unfold types.NewEmail, types.validateEmail. repeat apply conj.
  - intros ->. cbn [String.eqb]. eexists. repeat split. repeat constructor.
  - intros Hne Hlong.
    destruct (String.eqb_spec (strings.ToLower (strings.TrimSpace s)) "");
      [contradiction|].
    destruct (Z.ltb_spec types.MaxEmailLength
                (len (strings.ToLower (strings.TrimSpace s)))); [|lia].
    eexists. repeat split. repeat constructor.
  - intros Hne Hshort Hno.
    destruct (String.eqb_spec (strings.ToLower (strings.TrimSpace s)) "");
      [contradiction|].
    destruct (Z.ltb_spec types.MaxEmailLength
                (len (strings.ToLower (strings.TrimSpace s)))); [lia|].
    rewrite Hno. cbn [negb]. eexists. repeat split. repeat constructor.
Qed.

End EmailRejects.

(** [NewEmail_rejects] at a concrete input. *)
Lemma NewEmail_rejects_witness :
  failsWith (@types.NewEmail sample.caseTables "  ") "Email address cannot be empty."
    [("input_email", anyString "  ")].
Proof.
  destruct (@NewEmail_rejects sample.caseTables "  ") as (He & _).
  apply He. reflexivity.
Defined.

(** ** The decoders of Email *)

Lemma reportsInput_WithContext (e : msg.MessageError) (key k : string) (raw value : any) :
  reportsInput (msg.messageError e) k raw -> k <> key ->
  reportsInput (msg.messageError (msg.WithContext e key value)) k raw
  /\ reportsInput (msg.messageError (msg.WithContext e key value)) key value.
Proof.
  intros (e' & Heq & Hcode & Hctx) Hne. inversion Heq; subst e'.
  destruct e as [err m code ctx ds]. cbn in Hcode, Hctx. split.
  - eexists. split; [reflexivity|]. split; [exact Hcode|].
    unfold msg.WithContext. cbn [msg.Context msg.ctxGet].
    rewrite lookup_insert_ne by congruence.
    destruct ctx as [m0|]; [exact Hctx|discriminate Hctx].
  - eexists. split; [reflexivity|]. split; [exact Hcode|].
    unfold msg.WithContext. cbn [msg.Context msg.ctxGet]. apply lookup_insert_eq.
Qed.

Section Email.
Context `{unicode.CaseTables}.

Lemma validateEmail_error (s v : string) (err : msg.error) :
  types.validateEmail s = (v, Some err) ->
  v = "" /\ reportsInput err "input_email" (anyString s).
Proof.
  intros Hv. destruct (validateEmail_spec s) as [(Heq & _)|(err' & Heq & Hr)];
    rewrite Heq in Hv; inversion Hv; subst; auto.
Qed.

Lemma Email_Scan_spec (e : types.Email) (s : string) (src : any) :
  src = anyString s \/ src = anyBytes s ->
  match types.validateEmail s with
  | (v, None) => types.Email_Scan e src = (v, None)
  | (_, Some _) =>
    exists err, types.Email_Scan e src = (e, Some err)
                /\ reportsInput err "input_email" (anyString s)
                /\ reportsInput err "scan_source_value" (anyString s)
  end.
Proof.
  intros Hsrc.
  assert (Hscan : types.Email_Scan e src = types.Email_Scan e (anyString s))
    by (destruct Hsrc as [->| ->]; reflexivity).
  rewrite Hscan. cbn [types.Email_Scan].
  destruct (types.validateEmail s) as [v [err|]] eqn:Hv; [|reflexivity].
  destruct (validateEmail_error s v err Hv) as (_ & Hr).
  pose proof Hr as (e0 & -> & _).
  eexists. split; [reflexivity|].
  apply reportsInput_WithContext; [exact Hr|discriminate].
Qed.

(** X7.  The three decoders of Email go through the validator of NewEmail:
    UnmarshalText and UnmarshalJSON behave as NewEmail on the text and on the
    decoded string, keeping the value on an error, and Scan of a string or of
    bytes accepts exactly what NewEmail accepts, with the same value. *)
Theorem Email_entry_points :
  (forall e t,
      types.Email_UnmarshalText e t
      = match types.NewEmail t with
        | (_, Some err) => (e, Some err)
        | (email, None) => (email, None)
        end)
  /\ (forall e data s,
         json.UnmarshalString data "" = (s, None) ->
         types.Email_UnmarshalJSON e data
         = match types.NewEmail s with
           | (_, Some err) => (e, Some err)
           | (email, None) => (email, None)
           end)
  /\ (forall e s src v,
         src = anyString s \/ src = anyBytes s ->
         (types.Email_Scan e src = (v, None) <-> types.NewEmail s = (v, None))).
Proof.
  repeat apply conj.
  - intros e t. unfold types.Email_UnmarshalText, types.NewEmail.
    destruct (types.validateEmail t) as [v [err|]]; reflexivity.
  - intros e data s Hd. unfold types.Email_UnmarshalJSON, types.NewEmail.
    rewrite Hd. destruct (types.validateEmail s) as [v [err|]]; reflexivity.
  - intros e s src v Hsrc. pose proof (Email_Scan_spec e s src Hsrc) as Hspec.
    unfold types.NewEmail.
    destruct (types.validateEmail s) as [w [err|]].
    + destruct Hspec as (err' & Heq & _). rewrite Heq. split; discriminate.
    + rewrite Hspec. reflexivity.
Qed.

Hypothesis Hsound : lowerTableSound.

(** X8.  An Email that NewEmail returns is the input trimmed and in lower
    case; it is not empty, at most 254 bytes long, of the shape of the
    pattern, made of ASCII bytes that are neither spaces nor upper-case
    letters, and NewEmail returns it unchanged. *)
Theorem NewEmail_canonical (s : string) (v : types.Email) :
  types.NewEmail s = (v, None) ->
  emailInvariant v
  /\ v = strings.ToLower (strings.TrimSpace s)
  /\ Forall plainByte (bytes v)
  /\ types.NewEmail (types.Email_String v) = (v, None)
  /\ types.Email_IsEmpty v = false.
Proof.
  unfold types.NewEmail.
  destruct (types.validateEmail s) as [w [err|]] eqn:Hv; [discriminate|].
  intros Heq; inversion Heq; subst w.
  pose proof (validateEmail_invariant Hsound s v Hv) as Hinv.
  split; [exact Hinv|]. split.
  { destruct (validateEmail_spec s) as [(Hs & _)|(err' & Hs & _)];
      rewrite Hs in Hv; inversion Hv; reflexivity. }
  split; [apply emailInvariant_bytes; exact Hinv|]. split.
  - unfold types.Email_String. now rewrite (validateEmail_fixed v Hinv).
  - destruct Hinv as (Hne & _). unfold types.Email_IsEmpty.
    destruct (String.eqb_spec v ""); [contradiction|reflexivity].
Qed.

End Email.

(** [Email_entry_points] at a concrete input. *)
Lemma Email_entry_points_witness :
  @types.Email_Scan sample.caseTables "" (anyBytes " A@B.io ") = ("a@b.io", None).
Proof.
  destruct (@Email_entry_points sample.caseTables) as (_ & _ & Hscan).
  apply (Hscan "" " A@B.io " (anyBytes " A@B.io ") "a@b.io"); [right; reflexivity|].
  vm_compute. reflexivity.
Defined.

(** [NewEmail_canonical] at a concrete input. *)
Lemma NewEmail_canonical_witness :
  emailInvariant "user.name+tag@example.com"
  /\ @types.NewEmail sample.caseTables "user.name+tag@example.com"
     = ("user.name+tag@example.com", None).
Proof.
  destruct (@NewEmail_canonical sample.caseTables sample_lowerTableSound
              "  User.Name+tag@Example.COM " "user.name+tag@example.com")
    as (Hi & _ & _ & Hf & _).
  - vm_compute. reflexivity.
  - split; [exact Hi|exact Hf].
Defined.

(** ** Failed scans *)

Section Scans.
Context `{unicode.CaseTables}.

(** X6.  A Scan of Phone or of Email that rejects a string or bytes leaves
    the value as it was and returns the validator's invalid-input error,
    whose context still holds the raw input under input_phone or input_email
    and now also under scan_source_value_db or scan_source_value.  A source
    of another type, nil apart, is rejected with its type name under
    received_type. *)
Theorem Scan_failure_context :
  (forall p s src v err,
      src = anyString s \/ src = anyBytes s ->
      types.Phone_Scan p src = (v, Some err) ->
      v = p /\ reportsInput err "input_phone" (anyString s)
      /\ reportsInput err "scan_source_value_db" (anyString s))
  /\ (forall e s src v err,
         src = anyString s \/ src = anyBytes s ->
         types.Email_Scan e src = (v, Some err) ->
         v = e /\ reportsInput err "input_email" (anyString s)
         /\ reportsInput err "scan_source_value" (anyString s))
  /\ (forall p e src,
         src <> anyNil -> (forall s, src <> anyString s /\ src <> anyBytes s) ->
         fst (types.Phone_Scan p src) = p
         /\ fst (types.Email_Scan e src) = e
         /\ (exists err, snd (types.Phone_Scan p src) = Some err
                         /\ reportsInput err "received_type" (anyString (typeName src)))
         /\ (exists err, snd (types.Email_Scan e src) = Some err
                         /\ reportsInput err "received_type" (anyString (typeName src)))).
Proof.
  repeat apply conj.
  - intros p s src v err Hsrc Hscan.
    pose proof (Phone_Scan_spec p s src Hsrc) as Hspec.
    destruct (phoneFinal (types.normalizePhone s)) as [w|].
    + rewrite Hspec in Hscan. discriminate.
    + destruct Hspec as (err' & Heq & H1 & H2). rewrite Heq in Hscan.
      inversion Hscan; subst. auto.
  - intros e s src v err Hsrc Hscan.
    pose proof (Email_Scan_spec e s src Hsrc) as Hspec.
    destruct (types.validateEmail s) as [w [err0|]].
    + destruct Hspec as (err' & Heq & H1 & H2). rewrite Heq in Hscan.
      inversion Hscan; subst. auto.
    + rewrite Hspec in Hscan. discriminate.
  - intros p e src Hnil Hstr.
    destruct src; try contradiction;
      try (exfalso; destruct (Hstr s) as [H1 H2]; congruence);
      (split; [reflexivity|]; split; [reflexivity|];
       split; eexists; (split; [reflexivity|]);
       (eexists; split; [reflexivity|]; split; reflexivity)).
Qed.

End Scans.

(** [Scan_failure_context] at a concrete input. *)
Lemma Scan_failure_context_witness :
  exists err, snd (types.Phone_Scan "5562982870053" (anyString "12345")) = Some err
              /\ reportsInput err "scan_source_value_db" (anyString "12345").
Proof.
  destruct (types.Phone_Scan "5562982870053" (anyString "12345")) as [v [err|]] eqn:Hs.
  - exists err. split; [reflexivity|].
    destruct (@Scan_failure_context sample.caseTables) as (Hp & _).
    apply (Hp "5562982870053" "12345" (anyString "12345") v err);
      [left; reflexivity|exact Hs].
  - vm_compute in Hs. discriminate Hs.
Defined.

(** ** The shape of an address *)

Lemma matches_nullable (r : regexp.re) : regexp.nullable r = true -> matches r [].
Proof.
  induction r as [| |rs|r1 IH1 r2 IH2|r1 IH1 r2 IH2|r1 IH1|r1 IH1 lo hi];
    cbn [regexp.nullable]; intros Hn; try discriminate.
  - constructor.
  - apply andb_true_iff in Hn. destruct Hn as [H1 H2].
    change (@nil Z) with (@nil Z ++ []). constructor; auto.
  - apply orb_true_iff in Hn. destruct Hn as [Hn|Hn];
      [apply mAltL|apply mAltR]; auto.
  - constructor.
  - constructor. exact Hn.
Qed.

Lemma matches_cat (a b : regexp.re) (s : list Z) :
  matches (regexp.cat a b) s -> matches (regexp.Cat a b) s.
Proof.
  destruct a; cbn [regexp.cat]; intros Hm;
    try (inversion Hm; fail);
    try (destruct b; try exact Hm; inversion Hm; fail).
  destruct b; try (inversion Hm; fail);
    (change s with ([] ++ s); constructor; [constructor|exact Hm]).
Qed.

Lemma matches_alt (a b : regexp.re) (s : list Z) :
  matches (regexp.alt a b) s -> matches (regexp.Alt a b) s.
Proof.
  destruct a; cbn [regexp.alt]; intros Hm;
    try (apply mAltR; exact Hm);
    destruct b; try exact Hm; apply mAltL; exact Hm.
Qed.

Lemma matches_deriv (c : Z) (r : regexp.re) (s : list Z) :
  matches (regexp.deriv c r) s -> matches r (c :: s).
Proof.
  revert s. induction r as [| |rs|r1 IH1 r2 IH2|r1 IH1 r2 IH2|r1 IH1|r1 IH1 lo hi];
    cbn [regexp.deriv]; intros s Hm.
  - inversion Hm.
  - inversion Hm.
  - destruct (regexp.inRanges rs c) eqn:Hc; inversion Hm; subst. now constructor.
  - apply matches_alt in Hm. inversion Hm as [| | |? ? ? Hl|? ? ? Hr| | | |]; subst.
    + apply matches_cat in Hl. inversion Hl as [| |? ? s1 s2 H1 H2| | | | | |]; subst.
      change (c :: s1 ++ s2) with ((c :: s1) ++ s2). constructor; auto.
    + destruct (regexp.nullable r1) eqn:Hn; [|inversion Hr].
      change (c :: s) with ([] ++ c :: s). constructor; [now apply matches_nullable|auto].
  - apply matches_alt in Hm. inversion Hm; subst; [apply mAltL|apply mAltR]; auto.
  - apply matches_cat in Hm. inversion Hm as [| |? ? s1 s2 H1 H2| | | | | |]; subst.
    change (c :: s1 ++ s2) with ((c :: s1) ++ s2). constructor; auto.
  - destruct hi as [|hi]; [inversion Hm|].
    apply matches_cat in Hm. inversion Hm as [| |? ? s1 s2 H1 H2| | | | | |]; subst.
    change (c :: s1 ++ s2) with ((c :: s1) ++ s2). constructor; auto.
Qed.

Lemma matches_fold (cs : list Z) (r : regexp.re) :
  regexp.nullable (fold_left (fun r c => regexp.deriv c r) cs r) = true ->
  matches r cs.
Proof.
  revert r. induction cs as [|c cs IH]; intros r Hm.
  - now apply matches_nullable.
  - apply matches_deriv, IH. exact Hm.
Qed.

Lemma matches_alphabet (r : regexp.re) (s : list Z) :
  matches r s -> Forall (fun c => reAlphabet r c = true) s.
Proof.
  induction 1; cbn [reAlphabet]; try constructor; try assumption;
    try (apply Forall_app; split);
    try (eapply Forall_impl; [eassumption|];
         intros x Hx; cbn beta; rewrite Hx, ?orb_true_r; reflexivity);
    try assumption.
  constructor.
Qed.

Lemma local_byte (c : ascii) :
  reAlphabet (regexp.Plus (regexp.Class types.localClass)) (byte c) = true ->
  regexp.inRanges types.localClass (byte c) = true /\ c <> "@"%char.
Proof.
  destruct c as [[] [] [] [] [] [] [] []]; vm_compute; intros H;
    try discriminate H; (split; [reflexivity|discriminate]).
Qed.

Lemma domain_byte (c : ascii) :
  reAlphabet domainRe (byte c) = true ->
  regexp.inRanges domainClass (byte c) = true /\ c <> "@"%char.
Proof.
  destruct c as [[] [] [] [] [] [] [] []]; vm_compute; intros H;
    try discriminate H; (split; [reflexivity|discriminate]).
Qed.

Lemma at_byte (c : ascii) :
  regexp.inRanges [regexp.one "@"] (byte c) = true -> c = "@"%char.
Proof.
  destruct c as [[] [] [] [] [] [] [] []]; vm_compute; intros H;
    try discriminate H; reflexivity.
Qed.

Lemma matches_Cat_inv (r1 r2 : regexp.re) (s : list Z) :
  matches (regexp.Cat r1 r2) s ->
  exists s1 s2, s = s1 ++ s2 /\ matches r1 s1 /\ matches r2 s2.
Proof. intros Hm. inversion Hm; subst. eauto. Qed.

Lemma matches_Class_inv (rs : list (Z * Z)) (s : list Z) :
  matches (regexp.Class rs) s -> exists c, s = [c] /\ regexp.inRanges rs c = true.
Proof. intros Hm. inversion Hm; subst. eauto. Qed.

Lemma matches_Repeat0_inv (r : regexp.re) (min : nat) (s : list Z) :
  matches (regexp.Repeat r min 0) s -> s = [].
Proof. intros Hm. inversion Hm; subst. reflexivity. Qed.

Lemma label_last (s : list Z) :
  matches types.label s ->
  exists pre z, s = pre ++ [z] /\ regexp.inRanges types.alnum z = true.
Proof.
  unfold types.label, regexp.Opt. intros Hm.
  apply matches_Cat_inv in Hm. destruct Hm as (x & y & -> & Hx & Hy).
  apply matches_Class_inv in Hx. destruct Hx as (x0 & -> & Hx0).
  inversion Hy as [| | | | | | |? ? ? Hn|? ? ? s1 s2 H1 H2]; subst.
  - exists [], x0. auto.
  - apply matches_Repeat0_inv in H2. subst s2.
    apply matches_Cat_inv in H1. destruct H1 as (u & w & -> & _ & Hw).
    apply matches_Class_inv in Hw. destruct Hw as (z & -> & Hz).
    exists ([x0] ++ u), z. rewrite app_nil_r, !app_assoc. auto.
Qed.

Lemma labels_last (r : regexp.re) (s : list Z) :
  matches r s ->
  r = regexp.Star (regexp.Cat (regexp.Class [regexp.one "."]) types.label) ->
  s = [] \/ exists pre z, s = pre ++ [z] /\ regexp.inRanges types.alnum z = true.
Proof.
  induction 1 as [| | | | | |r0 s1 s2 H1 _ H2 IH2| |]; intros Hr; try discriminate Hr.
  - left. reflexivity.
  - right. injection Hr as ->. destruct (IH2 eq_refl) as [->|(pre & z & -> & Hz)].
    + apply matches_Cat_inv in H1. destruct H1 as (dot & lab & -> & _ & Hlab).
      apply label_last in Hlab. destruct Hlab as (pre & z & -> & Hz).
      exists (dot ++ pre), z. rewrite app_nil_r, app_assoc. auto.
    + exists (s1 ++ pre), z. rewrite app_assoc. auto.
Qed.

Lemma domain_last (s : list Z) :
  matches domainRe s ->
  exists pre z, s = pre ++ [z] /\ regexp.inRanges types.alnum z = true.
Proof.
  unfold domainRe. intros Hm.
  apply matches_Cat_inv in Hm. destruct Hm as (lab & more & -> & Hlab & Hmore).
  destruct (labels_last _ _ Hmore eq_refl) as [->|(pre & z & -> & Hz)].
  - rewrite app_nil_r. now apply label_last.
  - exists (lab ++ pre), z. rewrite app_assoc. auto.
Qed.

Section Shape.
Context `{unicode.CaseTables}.

(** X10.  An Email that NewEmail returns is a local part, one at sign and a
    domain.  Neither part is empty or holds an at sign; the local part is
    made of the bytes of the pattern's first class; the domain is made of
    letters, digits, hyphens and dots and begins and ends with a letter or a
    digit. *)
Theorem NewEmail_shape (s : string) (v : types.Email) :
  types.NewEmail s = (v, None) ->
  exists local domain : string,
    v = local +:+ "@" +:+ domain
    /\ local <> "" /\ domain <> ""
    /\ Forall (fun c => regexp.inRanges types.localClass (byte c) = true
                        /\ c <> "@"%char) (bytes local)
    /\ Forall (fun c => regexp.inRanges domainClass (byte c) = true
                        /\ c <> "@"%char) (bytes domain)
    /\ (exists c t, bytes domain = c :: t
                    /\ regexp.inRanges types.alnum (byte c) = true)
    /\ (exists t c, bytes domain = t ++ [c]
                    /\ regexp.inRanges types.alnum (byte c) = true).
Proof.
  unfold types.NewEmail.
  destruct (types.validateEmail s) as [w [err|]] eqn:Hv; [discriminate|].
  intros Heq; inversion Heq; subst w. clear Heq.
  assert (Hm : regexp.MatchString types.emailRegexPattern v = true).
  { destruct (validateEmail_spec s) as [(Hs & _ & _ & Hm)|(err' & Hs & _)];
      rewrite Hs in Hv; inversion Hv; subst; exact Hm. }
  pose proof (match_email_bytes v Hm) as Hbytes.
  assert (Hascii : Forall (fun c => byte c < utf8.RuneSelf) (bytes v)).
  { eapply Forall_impl; [exact Hbytes|]. intros c [[Hc _] _]. exact Hc. }
  unfold regexp.MatchString, regexp.runes in Hm.
  rewrite runesOf_map_byte in Hm by (rewrite ?length_bytes; auto).
  apply matches_fold in Hm. unfold types.emailRegexPattern in Hm.
  apply matches_Cat_inv in Hm. destruct Hm as (l & rest & Hsplit & Hl & Hrest).
  apply matches_Cat_inv in Hrest. destruct Hrest as (a & d & Hsplit2 & Ha & Hd).
  apply matches_Class_inv in Ha. destruct Ha as (a0 & Ha0 & Hin).
  fold domainRe in Hd.
  apply map_eq_app in Hsplit. destruct Hsplit as (bl & brest & Hv' & Hbl & Hbrest).
  rewrite Hsplit2, Ha0 in Hbrest. cbn [app] in Hbrest.
  destruct brest as [|ca bd]; [discriminate Hbrest|].
  cbn [map] in Hbrest. injection Hbrest as Hca Hbd.
  rewrite <- Hca in Hin. apply at_byte in Hin.
  assert (Hlocal : Forall (fun c => regexp.inRanges types.localClass (byte c) = true
                                    /\ c <> "@"%char) bl).
  { pose proof (matches_alphabet _ _ Hl) as Hal. rewrite <- Hbl in Hal.
    apply Forall_map in Hal. eapply Forall_impl; [exact Hal|].
    intros c. apply local_byte. }
  assert (Hdomain : Forall (fun c => regexp.inRanges domainClass (byte c) = true
                                     /\ c <> "@"%char) bd).
  { pose proof (matches_alphabet _ _ Hd) as Hal. rewrite <- Hbd in Hal.
    apply Forall_map in Hal. eapply Forall_impl; [exact Hal|].
    intros c. apply domain_byte. }
  assert (Hlne : bl <> []).
  { intros ->. cbn [map] in Hbl. subst l. unfold regexp.Plus in Hl.
    apply matches_Cat_inv in Hl. destruct Hl as (s1 & s2 & Happ & H1 & _).
    apply matches_Class_inv in H1. destruct H1 as (c & -> & _). discriminate Happ. }
  assert (Hfirst : exists c t, bd = c :: t
                               /\ regexp.inRanges types.alnum (byte c) = true).
  { unfold domainRe, types.label in Hd.
    apply matches_Cat_inv in Hd. destruct Hd as (lab & more & Happ & Hlab & _).
    apply matches_Cat_inv in Hlab. destruct Hlab as (x & y & Happ' & Hx & _).
    apply matches_Class_inv in Hx. destruct Hx as (x0 & -> & Hx0).
    rewrite Happ, Happ' in Hbd. cbn [app] in Hbd.
    destruct bd as [|c t]; [discriminate Hbd|].
    cbn [map] in Hbd. injection Hbd as Hc _. exists c, t. now rewrite Hc. }
  assert (Hlast : exists t c, bd = t ++ [c]
                              /\ regexp.inRanges types.alnum (byte c) = true).
  { apply domain_last in Hd. destruct Hd as (pre & z & Heq & Hz).
    rewrite Heq in Hbd. apply map_eq_app in Hbd.
    destruct Hbd as (t & u & -> & _ & Hu).
    destruct u as [|c [|c' u']]; try discriminate Hu.
    cbn [map] in Hu. injection Hu as Hc. exists t, c. now rewrite Hc. }
  exists (str bl), (str bd). rewrite !bytes_str.
  split.
  { apply bytes_inj. rewrite !bytes_app, !bytes_str, Hv', Hin. reflexivity. }
  split.
  { intros Hempty. apply (f_equal bytes) in Hempty. rewrite bytes_str in Hempty.
    apply Hlne. exact Hempty. }
  split.
  { intros Hempty. apply (f_equal bytes) in Hempty. rewrite bytes_str in Hempty.
    destruct Hfirst as (c & t & Hc & _). rewrite Hc in Hempty. discriminate Hempty. }
  auto.
Qed.

End Shape.

(** [NewEmail_shape] at a concrete input. *)
Lemma NewEmail_shape_witness :
  exists local domain : string,
    "user.name+tag@example.com" = local +:+ "@" +:+ domain
    /\ local <> "" /\ domain <> "".
Proof.
  destruct (@NewEmail_shape sample.caseTables "  User.Name+tag@Example.COM "
              "user.name+tag@example.com")
    as (local & domain & Hv & Hl & Hd & _).
  - vm_compute. reflexivity.
  - exists local, domain. auto.
Defined.

(** ** Failed decodes *)

Lemma reportsInput_invalid (err : msg.error) (k : string) (raw : any) :
  reportsInput err k raw -> invalidInput (Some err).
Proof. intros (e & -> & Hc & _). exists e. auto. Qed.

Ltac invalid_now := eexists; split; reflexivity.

Section Failures.
Context `{unicode.CaseTables} `{uuid.Text} `{time.Formats}.

(** X19.  Every decoder of Email, Phone, Version, UUID, CreatedAt and
    UpdatedAt that fails leaves the value it was called on as it was, and its
    error is a structured error of the category invalid-input. *)
Theorem decode_failure_structured :
  (forall e data v err, types.Email_UnmarshalJSON e data = (v, Some err) ->
                        v = e /\ invalidInput (Some err))
  /\ (forall e text v err, types.Email_UnmarshalText e text = (v, Some err) ->
                           v = e /\ invalidInput (Some err))
  /\ (forall e src v err, types.Email_Scan e src = (v, Some err) ->
                          v = e /\ invalidInput (Some err))
  /\ (forall p data v err, types.Phone_UnmarshalJSON p data = (v, Some err) ->
                           v = p /\ invalidInput (Some err))
  /\ (forall p text v err, types.Phone_UnmarshalText p text = (v, Some err) ->
                           v = p /\ invalidInput (Some err))
  /\ (forall p src v err, types.Phone_Scan p src = (v, Some err) ->
                          v = p /\ invalidInput (Some err))
  /\ (forall n data v err, types.Version_UnmarshalJSON n data = (v, Some err) ->
                           v = n /\ invalidInput (Some err))
  /\ (forall n src v err, types.Version_Scan n src = (v, Some err) ->
                          v = n /\ invalidInput (Some err))
  /\ (forall u text v err, types.UUID_UnmarshalText u text = (v, Some err) ->
                           v = u /\ invalidInput (Some err))
  /\ (forall u src v err, types.UUID_Scan u src = (v, Some err) ->
                          v = u /\ invalidInput (Some err))
  /\ (forall t data v err, types.CreatedAt_UnmarshalJSON t data = (v, Some err) ->
                           v = t /\ invalidInput (Some err))
  /\ (forall t src v err, types.CreatedAt_Scan t src = (v, Some err) ->
                          v = t /\ invalidInput (Some err))
  /\ (forall t data v err, types.UpdatedAt_UnmarshalJSON t data = (v, Some err) ->
                           v = t /\ invalidInput (Some err))
  /\ (forall t src v err, types.UpdatedAt_Scan t src = (v, Some err) ->
                          v = t /\ invalidInput (Some err)).
Proof.
  assert (Hemail : forall (e : types.Email) s v err,
             match types.validateEmail s with
             | (_, Some err) => (e, Some err)
             | (validatedEmail, None) => (validatedEmail, None)
             end = (v, Some err) -> v = e /\ invalidInput (Some err)).
  { intros e s v err. destruct (types.validateEmail s) as [w [err0|]] eqn:Hv;
      intros Heq; inversion Heq; subst.
    split; [reflexivity|]. destruct (validateEmail_error s w err Hv) as (_ & Hr).
    eapply reportsInput_invalid; exact Hr. }
  assert (Hphone : forall (p : types.Phone) s v err,
             match types.NewPhone s with
             | (_, Some err) => (p, Some err)
             | (phone, None) => (phone, None)
             end = (v, Some err) -> v = p /\ invalidInput (Some err)).
  { intros p s v err. destruct (types.NewPhone s) as [w [err0|]] eqn:Hv;
      intros Heq; inversion Heq; subst.
    split; [reflexivity|]. destruct (NewPhone_error s w err Hv) as (_ & Hr).
    eapply reportsInput_invalid; exact Hr. }
  assert (Haudit_json : forall name (t : time.Time) data v err,
             types.audit_UnmarshalJSON name t data = (v, Some err) ->
             v = t /\ invalidInput (Some err)).
  { intros name t data v err. unfold types.audit_UnmarshalJSON.
    destruct (String.eqb data "null"); [|destruct (time.jsonUnmarshal data)];
      intros Heq; inversion Heq; subst; split; try reflexivity; invalid_now. }
  assert (Haudit_scan : forall name (t : time.Time) src v err,
             types.audit_Scan name t src = (v, Some err) ->
             v = t /\ invalidInput (Some err)).
  { intros name t src v err. unfold types.audit_Scan.
    destruct src; try destruct (types.parseAuditTimeMultipleLayouts s) as [w [e0|]];
      intros Heq; inversion Heq; subst; split; try reflexivity; invalid_now. }
  repeat apply conj.
  - intros e data v err. unfold types.Email_UnmarshalJSON.
    destruct (json.UnmarshalString data "") as [s [e0|]]; [|apply Hemail].
    intros Heq; inversion Heq; subst. split; [reflexivity|invalid_now].
  - intros e text v err. apply Hemail.
  - intros e src v err Hs.
    destruct src;
      try (cbn in Hs; inversion Hs; subst; split; [reflexivity|invalid_now]).
    + pose proof (Email_Scan_spec e s (anyString s) (or_introl eq_refl)) as Hspec.
      destruct (types.validateEmail s) as [w [e0|]];
        [|rewrite Hspec in Hs; discriminate].
      destruct Hspec as (err' & Heq & Hr & _). rewrite Heq in Hs.
      inversion Hs; subst. split; [reflexivity|eapply reportsInput_invalid; exact Hr].
    + pose proof (Email_Scan_spec e s (anyBytes s) (or_intror eq_refl)) as Hspec.
      destruct (types.validateEmail s) as [w [e0|]];
        [|rewrite Hspec in Hs; discriminate].
      destruct Hspec as (err' & Heq & Hr & _). rewrite Heq in Hs.
      inversion Hs; subst. split; [reflexivity|eapply reportsInput_invalid; exact Hr].
  - intros p data v err. unfold types.Phone_UnmarshalJSON.
    destruct (json.UnmarshalString data "") as [s [e0|]]; [|apply Hphone].
    intros Heq; inversion Heq; subst. split; [reflexivity|invalid_now].
  - intros p text v err. apply Hphone.
  - intros p src v err Hs.
    destruct src;
      try (cbn in Hs; inversion Hs; subst; split; [reflexivity|invalid_now]).
    + pose proof (Phone_Scan_spec p s (anyString s) (or_introl eq_refl)) as Hspec.
      destruct (phoneFinal (types.normalizePhone s));
        [rewrite Hspec in Hs; discriminate|].
      destruct Hspec as (err' & Heq & Hr & _). rewrite Heq in Hs.
      inversion Hs; subst. split; [reflexivity|eapply reportsInput_invalid; exact Hr].
    + pose proof (Phone_Scan_spec p s (anyBytes s) (or_intror eq_refl)) as Hspec.
      destruct (phoneFinal (types.normalizePhone s));
        [rewrite Hspec in Hs; discriminate|].
      destruct Hspec as (err' & Heq & Hr & _). rewrite Heq in Hs.
      inversion Hs; subst. split; [reflexivity|eapply reportsInput_invalid; exact Hr].
  - intros n data v err. unfold types.Version_UnmarshalJSON.
    destruct (String.eqb data "null"); [|destruct (json.UnmarshalInt data 0) as [i [e0|]]];
      intros Heq; inversion Heq; subst; split; try reflexivity; invalid_now.
  - intros n src v err. unfold types.Version_Scan.
    destruct src; try destruct ((types.maxInt <? n0) || (n0 <? types.minInt));
      try destruct (strconv.ParseInt s 32);
      intros Heq; inversion Heq; subst; split; try reflexivity; invalid_now.
  - intros u text v err. unfold types.UUID_UnmarshalText.
    destruct (uuid.UnmarshalText uuid.Nil text) as [w [e0|]];
      intros Heq; inversion Heq; subst; split; try reflexivity; invalid_now.
  - intros u src v err. unfold types.UUID_Scan.
    destruct (uuid.Scan uuid.Nil src) as [w [e0|]];
      intros Heq; inversion Heq; subst; split; try reflexivity; invalid_now.
  - intros t data v err. apply Haudit_json.
  - intros t src v err. apply Haudit_scan.
  - intros t data v err. apply Haudit_json.
  - intros t src v err. apply Haudit_scan.
Qed.

(** X20.  The decoders of Currency and of Day fail with plain errors and
    leave the value as it was: UnmarshalJSON with the error of the JSON
    package, Currency.Scan with ErrInvalidCurrency and Day.Scan with an error
    that names the type of the source, both only for a source that is not
    nil and not of the types they read. *)
Theorem decode_failure_plain :
  (forall c data v err, types.Currency_UnmarshalJSON c data = (v, Some err) ->
                        v = c /\ err = json.jsonError)
  /\ (forall c src v err, types.Currency_Scan c src = (v, Some err) ->
                          v = c /\ err = types.ErrInvalidCurrency
                          /\ src <> anyNil
                          /\ forall s, src <> anyString s /\ src <> anyBytes s)
  /\ (forall d data v err, types.Day_UnmarshalJSON d data = (v, Some err) ->
                           v = d /\ err = json.jsonError)
  /\ (forall d src v err, types.Day_Scan d src = (v, Some err) ->
                          v = d
                          /\ err = msg.errorString
                                     ("unsupported scan type for Day: " +:+ typeName src)
                          /\ src <> anyNil /\ forall n, src <> anyInt64 n).
Proof.
  repeat apply conj.
  - intros c data v err. unfold types.Currency_UnmarshalJSON, json.UnmarshalString.
    destruct (json.parseString data); intros Heq; inversion Heq; auto.
  - intros c src v err. destruct src; cbn; intros Heq; inversion Heq; subst;
      repeat split; congruence.
  - intros d data v err. unfold types.Day_UnmarshalJSON, json.UnmarshalInt.
    destruct (json.parseInt data); intros Heq; inversion Heq; auto.
  - intros d src v err. destruct src; cbn; intros Heq; inversion Heq; subst;
      repeat split; congruence.
Qed.

End Failures.

(** [decode_failure_structured] at a concrete input. *)
Lemma decode_failure_structured_witness :
  invalidInput (snd (@types.Email_UnmarshalText sample.caseTables "a@b.io" "not an address"))
  /\ invalidInput (snd (types.Version_Scan 3 (anyString "4"))).
Proof.
  destruct (@decode_failure_structured sample.caseTables sample.uuidText
              sample.timeFormats)
    as (_ & Htext & _ & _ & _ & _ & _ & Hscan & _).
  split.
  - destruct (@types.Email_UnmarshalText sample.caseTables "a@b.io" "not an address")
      as [v [err|]] eqn:Hd; [|vm_compute in Hd; discriminate Hd].
    exact (proj2 (Htext _ _ _ _ Hd)).
  - destruct (types.Version_Scan 3 (anyString "4")) as [v [err|]] eqn:Hd;
      [|vm_compute in Hd; discriminate Hd].
    exact (proj2 (Hscan _ _ _ _ Hd)).
Defined.

(** [decode_failure_plain] at a concrete input. *)
Lemma decode_failure_plain_witness :
  snd (types.Currency_Scan "BRL" (anyInt64 7)) = Some types.ErrInvalidCurrency
  /\ fst (types.Day_UnmarshalJSON 5 (json.MarshalString "x")) = 5.
Proof.
  destruct decode_failure_plain as (_ & Hc & Hd & _). split.
  - destruct (types.Currency_Scan "BRL" (anyInt64 7)) as [v [err|]] eqn:Hs;
      [|vm_compute in Hs; discriminate Hs].
    destruct (Hc _ _ _ _ Hs) as (_ & -> & _). reflexivity.
  - destruct (types.Day_UnmarshalJSON 5 (json.MarshalString "x")) as [v [err|]] eqn:Hs;
      [|vm_compute in Hs; discriminate Hs].
    exact (proj1 (Hd _ _ _ _ Hs)).
Defined.

(** ** Audit timestamps *)

Section Audit.
Context `{time.Formats}.

Lemma parseLayouts_ok (layouts : list string) (s : string) (lastErr : option msg.error)
    (t : time.Time) :
  types.parseLayouts layouts s lastErr = (t, None) <->
  exists pre layout post,
    layouts = pre ++ layout :: post
    /\ time.Parse layout s = Some t
    /\ Forall (fun l => time.Parse l s = None) pre.
Proof.
  revert lastErr. induction layouts as [|l ls IH]; intros lastErr; cbn [types.parseLayouts].
  - split; [discriminate|]. intros (pre & layout & post & Heq & _).
    destruct pre; discriminate Heq.
  - destruct (time.Parse l s) as [p|] eqn:Hp.
    + split.
      * intros Heq; inversion Heq; subst. exists [], l, ls.
        split; [reflexivity|]. split; [exact Hp|constructor].
      * intros (pre & layout & post & Heq & Hl & Hpre).
        destruct pre as [|a pre]; cbn in Heq; inversion Heq; subst.
        -- congruence.
        -- inversion Hpre; congruence.
    + rewrite IH. split.
      * intros (pre & layout & post & -> & Hl & Hpre).
        exists (l :: pre), layout, post.
        split; [reflexivity|]. split; [exact Hl|constructor; assumption].
      * intros (pre & layout & post & Heq & Hl & Hpre).
        destruct pre as [|a pre]; cbn in Heq; inversion Heq; subst.
        -- congruence.
        -- inversion Hpre; subst. exists pre, layout, post.
           split; [reflexivity|]. split; assumption.
Qed.

Lemma parseLayouts_none (layouts : list string) (s : string) (lastErr : option msg.error) :
  Forall (fun l => time.Parse l s = None) layouts ->
  types.parseLayouts layouts s lastErr
  = types.parseLayouts [] s (match layouts with
                             | [] => lastErr
                             | _ => Some (msg.foreignError "time")
                             end).
Proof.
  intros Hall. revert lastErr. induction Hall as [|l ls Hl _ IH]; intros lastErr.
  - reflexivity.
  - cbn [types.parseLayouts]. rewrite Hl, IH. destruct ls; reflexivity.
Qed.

(** X21.  parseAuditTimeMultipleLayouts returns what the first layout of
    the list that parses the text yields; when no layout parses it, the zero
    instant and an error that wraps the last parse error.  Scan of CreatedAt
    and of UpdatedAt, from a string or from bytes, succeeds exactly when it
    does, with the same instant. *)
Theorem parseAudit_first_layout (s : string) :
  (forall t,
      types.parseAuditTimeMultipleLayouts s = (t, None) <->
      exists pre layout post,
        types.commonAuditTimeLayouts = pre ++ layout :: post
        /\ time.Parse layout s = Some t
        /\ Forall (fun l => time.Parse l s = None) pre)
  /\ (Forall (fun l => time.Parse l s = None) types.commonAuditTimeLayouts ->
      types.parseAuditTimeMultipleLayouts s
      = (time.zero,
         Some (msg.wrapError ("could not parse time '" +:+ s
                              +:+ "' with any known layouts")
                             (msg.foreignError "time"))))
  /\ (forall ca t,
         (types.CreatedAt_Scan ca (anyString s) = (t, None)
          <-> types.parseAuditTimeMultipleLayouts s = (t, None))
         /\ (types.CreatedAt_Scan ca (anyBytes s) = (t, None)
             <-> types.parseAuditTimeMultipleLayouts s = (t, None))
         /\ (types.UpdatedAt_Scan ca (anyString s) = (t, None)
             <-> types.parseAuditTimeMultipleLayouts s = (t, None))
         /\ (types.UpdatedAt_Scan ca (anyBytes s) = (t, None)
             <-> types.parseAuditTimeMultipleLayouts s = (t, None))).
Proof.
  split; [intros t; apply parseLayouts_ok|]. split.
  - intros Hall. unfold types.parseAuditTimeMultipleLayouts.
    rewrite parseLayouts_none by exact Hall. reflexivity.
  - intros ca t.
    unfold types.CreatedAt_Scan, types.UpdatedAt_Scan, types.audit_Scan.
    destruct (types.parseAuditTimeMultipleLayouts s) as [w [err|]];
      repeat split; intros Heq; try discriminate Heq; exact Heq.
Qed.

End Audit.

(** [parseAudit_first_layout] at a concrete input. *)
Lemma parseAudit_first_layout_witness :
  snd (@types.parseAuditTimeMultipleLayouts sample.timeFormats "yesterday")
  = Some (msg.wrapError "could not parse time 'yesterday' with any known layouts"
                        (msg.foreignError "time")).
Proof.
  destruct (@parseAudit_first_layout sample.timeFormats "yesterday") as (_ & Hnone & _).
  rewrite Hnone; [reflexivity|]. repeat constructor.
Defined.

(** ** Nullable values *)

Section Nullable.
Context `{uuid.Text} `{time.Formats}.

(** X24.  A NullableUUID is valid exactly when it is marked valid and its
    UUID is not the nil UUID.  GetUUID reports the mark: the UUID and true
    for a marked value, also when the UUID is nil, and the nil UUID and false
    otherwise. *)
Theorem NullableUUID_validity (nu : types.NullableUUID) :
  (types.NullableUUID_IsValid nu = true
   <-> types.nuValid nu = true /\ types.nuUUID nu <> uuid.Nil)
  /\ snd (types.NullableUUID_GetUUID nu) = types.nuValid nu
  /\ (types.NullableUUID_IsValid nu = true ->
      types.NullableUUID_GetUUID nu = (types.nuUUID nu, true))
  /\ (types.nuValid nu = false -> types.NullableUUID_GetUUID nu = (types.Nil, false))
  /\ (forall id, types.NullableUUID_IsValid (types.NewValidNullableUUID id)
                 = negb (types.UUID_IsNil id)
                 /\ types.NullableUUID_GetUUID (types.NewValidNullableUUID id)
                    = (id, true))
  /\ types.NullableUUID_IsValid types.NewNullUUID = false.
Proof.
  destruct nu as [u valid].
  unfold types.NullableUUID_IsValid, types.NullableUUID_GetUUID.
  cbn [types.nuValid types.nuUUID].
  repeat split; try (destruct valid; reflexivity).
  - destruct valid; [reflexivity|discriminate].
  - apply andb_true_iff in H1. destruct H1 as [_ Hn].
    apply negb_true_iff, Z.eqb_neq in Hn. exact Hn.
  - intros [-> Hn]. apply Z.eqb_neq in Hn. now rewrite Hn.
  - intros Hv. apply andb_true_iff in Hv. destruct Hv as [-> _]. reflexivity.
  - intros ->. reflexivity.
Qed.

(** X25.  A failed UnmarshalJSON of a NullableTime or NullableUUID keeps the
    instant or UUID the value held but marks it null, so TimeOrZero and
    GetUUID yield the zero values; the error is of the category
    invalid-input.  A successful one either read null and yields the null
    value, or yields a valid value with what the text decodes to. *)
Theorem Nullable_decode_outcomes :
  (forall nt data v err,
      types.NullableTime_UnmarshalJSON nt data = (v, Some err) ->
      types.Time v = types.Time nt /\ types.NullableTime_IsNullable v = true
      /\ types.NullableTime_TimeOrZero v = time.zero
      /\ invalidInput (Some err))
  /\ (forall nt data v,
         types.NullableTime_UnmarshalJSON nt data = (v, None) ->
         (data = "null" /\ v = types.NewNullTime)
         \/ (data <> "null" /\ types.Valid v = true
             /\ time.jsonUnmarshal data = Some (types.Time v)))
  /\ (forall nu data v err,
         types.NullableUUID_UnmarshalJSON nu data = (v, Some err) ->
         types.nuUUID v = types.nuUUID nu /\ types.nuValid v = false
         /\ types.NullableUUID_GetUUID v = (types.Nil, false)
         /\ invalidInput (Some err))
  /\ (forall nu data v,
         types.NullableUUID_UnmarshalJSON nu data = (v, None) ->
         (data = "null" /\ v = types.NewNullUUID)
         \/ (data <> "null" /\ types.nuValid v = true
             /\ types.UUID_jsonUnmarshal types.Nil data = (types.nuUUID v, None))).
Proof.
  repeat apply conj.
  - intros nt data v err. unfold types.NullableTime_UnmarshalJSON.
    destruct (String.eqb data "null"); [discriminate|].
    destruct (time.jsonUnmarshal data); [discriminate|].
    intros Heq; inversion Heq; subst. repeat split. invalid_now.
  - intros nt data v. unfold types.NullableTime_UnmarshalJSON.
    destruct (String.eqb_spec data "null") as [->|Hne].
    + intros Heq; inversion Heq; subst. left. auto.
    + destruct (time.jsonUnmarshal data); [|discriminate].
      intros Heq; inversion Heq; subst. right. auto.
  - intros nu data v err. unfold types.NullableUUID_UnmarshalJSON.
    destruct (String.eqb data "null"); [discriminate|].
    destruct (types.UUID_jsonUnmarshal types.Nil data) as [w [e0|]]; [|discriminate].
    intros Heq; inversion Heq; subst. repeat split. invalid_now.
  - intros nu data v. unfold types.NullableUUID_UnmarshalJSON.
    destruct (String.eqb_spec data "null") as [->|Hne].
    + intros Heq; inversion Heq; subst. left. auto.
    + destruct (types.UUID_jsonUnmarshal types.Nil data) as [w [e0|]] eqn:Hu;
        [discriminate|].
      intros Heq; inversion Heq; subst. right. auto.
Qed.

End Nullable.

(** [NullableUUID_validity] at a concrete input. *)
Lemma NullableUUID_validity_witness :
  types.NullableUUID_GetUUID (types.NewValidNullableUUID 7) = (7, true).
Proof.
  destruct (NullableUUID_validity (types.NewValidNullableUUID 7)) as (_ & _ & Hg & _).
  apply Hg. reflexivity.
Defined.

(** [Nullable_decode_outcomes] at a concrete input. *)
Lemma Nullable_decode_outcomes_witness :
  types.NullableUUID_GetUUID
    (fst (@types.NullableUUID_UnmarshalJSON sample.uuidText
            (types.NewValidNullableUUID 7) "7"))
  = (types.Nil, false).
Proof.
  destruct (@Nullable_decode_outcomes sample.uuidText sample.timeFormats)
    as (_ & _ & Hu & _).
  destruct (@types.NullableUUID_UnmarshalJSON sample.uuidText
              (types.NewValidNullableUUID 7) "7") as [v [err|]] eqn:Hd;
    [|vm_compute in Hd; discriminate Hd].
  destruct (Hu _ _ _ _ Hd) as (_ & _ & Hg & _). exact Hg.
Defined.

(** ** JSON of identifiers *)

Section UUIDJson.
Context `{uuid.Text}.
Hypothesis Hsound : uuidTextSound.
Hypothesis Hplain : uuidTextPlain.

(** X26.  Where parsing reads back the textual form of a UUID and that form
    is made of plain bytes, decoding the JSON of a UUID yields the UUID, and
    decoding the JSON of a NullableUUID yields it marked valid, or the null
    value when it was null. *)
Theorem UUID_json_round_trip :
  (forall u u0, types.UUID_jsonUnmarshal u0 (fst (types.UUID_jsonMarshal u)) = (u, None))
  /\ (forall nu nu0,
         types.NullableUUID_UnmarshalJSON nu0 (fst (types.NullableUUID_MarshalJSON nu))
         = (if types.nuValid nu then types.NewValidNullableUUID (types.nuUUID nu)
            else types.NewNullUUID, None)).
Proof.
  assert (Hu : forall u u0,
             types.UUID_jsonUnmarshal u0 (fst (types.UUID_jsonMarshal u)) = (u, None)).
  { intros u u0. unfold types.UUID_jsonUnmarshal, types.UUID_jsonMarshal.
    cbn [fst]. unfold types.UUID_MarshalText, uuid.MarshalText. cbn [fst].
    rewrite parseString_MarshalString by apply Hplain.
    unfold types.UUID_UnmarshalText, uuid.UnmarshalText.
    destruct (Hsound u) as [-> _]. reflexivity. }
  split; [exact Hu|].
  intros [u valid] [u0 valid0]. unfold types.NullableUUID_MarshalJSON.
  cbn [types.nuValid types.nuUUID]. destruct valid; cbn [negb].
  - unfold types.NullableUUID_UnmarshalJSON.
    unfold types.UUID_jsonMarshal at 1. cbn [fst].
    rewrite MarshalString_not_null, (Hu u types.Nil). reflexivity.
  - reflexivity.
Qed.

End UUIDJson.

Lemma sample_uuidTextPlain : @uuidTextPlain sample.uuidText.
Proof.
  intros u. cbn [uuid.String sample.uuidText]. unfold strconv.Itoa.
  assert (Hd : forall n, 0 <= n ->
             Forall (fun c => jsonPlain c = true) (strconv.formatUint n)).
  { intros n Hn. pose proof (digits_jsonPlain (str (strconv.formatUint n))) as Hp.
    rewrite bytes_str in Hp. apply Hp. now apply formatUint_digits. }
  destruct (Z.ltb_spec u 0); rewrite bytes_str.
  - constructor; [reflexivity|apply Hd; lia].
  - apply Hd. assumption.
Qed.

(** [UUID_json_round_trip] at a concrete input. *)
Lemma UUID_json_round_trip_witness :
  @types.NullableUUID_UnmarshalJSON sample.uuidText types.NewNullUUID
    (fst (@types.NullableUUID_MarshalJSON sample.uuidText (types.NewValidNullableUUID 7)))
  = (types.NewValidNullableUUID 7, None).
Proof.
  destruct (@UUID_json_round_trip sample.uuidText sample_uuidTextSound
              sample_uuidTextPlain) as (_ & Hn).
  exact (Hn (types.NewValidNullableUUID 7) types.NewNullUUID).
Defined.

(** ** Constructors that panic *)

Section Must.
Context `{unicode.CaseTables} `{uuid.Text}.
Hypothesis Hlower : lowerTableSound.
Hypothesis Huuid : uuidTextSound.

(** X27.  The constructors that panic return what the plain constructors
    accept and panic with their error otherwise.  They return a Phone or an
    Email given its own string, and a UUID given its textual form.
    MustNewUUID panics with an internal error, of status 500, that wraps the
    error of the generator. *)
Theorem Must_constructors :
  (forall s v, types.NewPhone s = (v, None) ->
               types.MustNewPhone s = returns v
               /\ types.MustNewPhone (types.Phone_String v) = returns v)
  /\ (forall s v err, types.NewPhone s = (v, Some err) ->
                      types.MustNewPhone s = panics err)
  /\ (forall s v, types.NewEmail s = (v, None) ->
                  types.MustNewEmail s = returns v
                  /\ types.MustNewEmail (types.Email_String v) = returns v)
  /\ (forall s v err, types.NewEmail s = (v, Some err) ->
                      types.MustNewEmail s = panics err)
  /\ (forall u, types.MustParseUUID (types.UUID_String u) = returns u)
  /\ (forall s v err, types.ParseUUID s = (v, Some err) ->
                      types.MustParseUUID s = panics err)
  /\ (forall id, types.MustNewUUID (id, None) = returns id)
  /\ (forall id err,
         exists e, types.MustNewUUID (id, Some err) = panics (msg.messageError e)
                   /\ types.NewUUID (id, Some err) = (types.Nil, Some (msg.messageError e))
                   /\ msg.Code e = msg.CodeInternal
                   /\ msg.HTTPStatus e = 500
                   /\ msg.Unwrap e = Some err).
Proof.
  repeat apply conj.
  - intros s v Hn. unfold types.MustNewPhone. rewrite Hn. split; [reflexivity|].
    unfold types.Phone_String.
    now rewrite (NewPhone_fixed v (NewPhone_invariant s v Hn)).
  - intros s v err Hn. unfold types.MustNewPhone. now rewrite Hn.
  - intros s v Hn. unfold types.MustNewEmail. rewrite Hn. split; [reflexivity|].
    unfold types.Email_String, types.NewEmail in *.
    destruct (types.validateEmail s) as [w [e0|]] eqn:Hv; [discriminate|].
    inversion Hn; subst w.
    now rewrite (validateEmail_fixed v (validateEmail_invariant Hlower s v Hv)).
  - intros s v err Hn. unfold types.MustNewEmail. now rewrite Hn.
  - intros u. unfold types.MustParseUUID, types.ParseUUID, types.UUID_String.
    destruct (Huuid u) as [-> _]. reflexivity.
  - intros s v err Hn. unfold types.MustParseUUID. now rewrite Hn.
  - reflexivity.
  - intros id err. eexists. repeat split.
Qed.

End Must.

(** [Must_constructors] at a concrete input. *)
Lemma Must_constructors_witness :
  types.MustNewPhone "(62) 98287-0053" = returns "5562982870053"
  /\ (exists err, types.MustNewPhone "12" = panics err).
Proof.
  destruct (@Must_constructors sample.caseTables sample.uuidText
              sample_lowerTableSound sample_uuidTextSound) as (Hok & Hbad & _).
  split.
  - apply (Hok "(62) 98287-0053" "5562982870053"). vm_compute. reflexivity.
  - destruct (types.NewPhone "12") as [v [err|]] eqn:Hn;
      [|vm_compute in Hn; discriminate Hn].
    exists err. exact (Hbad _ _ _ Hn).
Defined.

(** ** The empty value in storage *)

Section Empty.
Context `{unicode.CaseTables} `{uuid.Text}.

(** X28.  How the empty values go to storage.  Phone.Value succeeds exactly
    for a non-empty Phone and fails for the empty one with an invalid-input
    error without context; Email.Value always succeeds, and Email.Scan
    rejects what it writes for the empty Email; Currency.Value writes NULL
    exactly for the empty Currency, and UUID.Value writes NULL for the nil
    UUID and the textual form otherwise. *)
Theorem Value_of_empty :
  (forall p, (snd (types.Phone_Value p) = None <-> p <> "")
             /\ (p <> "" -> types.Phone_Value p = (anyString p, None))
             /\ (p = "" ->
                 exists e, types.Phone_Value p = (anyNil, Some (msg.messageError e))
                           /\ msg.Code e = msg.CodeInvalid
                           /\ msg.Context e = None))
  /\ (forall e, types.Email_Value e = (anyString e, None))
  /\ (forall e0, fst (types.Email_Scan e0 (fst (types.Email_Value ""))) = e0
                 /\ invalidInput (snd (types.Email_Scan e0 (fst (types.Email_Value "")))))
  /\ (forall c, fst (types.Currency_Value c) = anyNil <-> c = "")
  /\ (forall u, types.UUID_Value u
                = if u =? uuid.Nil then (anyNil, None)
                  else (anyString (uuid.String u), None)).
Proof.
  repeat apply conj.
  - intros p. unfold types.Phone_Value, types.Phone_IsEmpty, types.Phone_String.
    destruct (String.eqb_spec p "") as [->|Hne].
    + repeat split; try discriminate; try contradiction.
      intros _. eexists. repeat split.
    + repeat split; try reflexivity; try contradiction; auto.
  - reflexivity.
  - intros e0. change (fst (types.Email_Value "")) with (anyString "").
    pose proof (Email_Scan_spec e0 "" (anyString "") (or_introl eq_refl)) as Hspec.
    change (types.validateEmail "") with
      ("", types.fail (msg.NewValidationError None
                         (msg.mapLit [("input_email", anyString "")])
                         "Email address cannot be empty.")) in Hspec.
    destruct Hspec as (err & -> & Hr & _). split; [reflexivity|].
    eapply reportsInput_invalid; exact Hr.
  - intros c. unfold types.Currency_Value, types.Currency_IsEmpty, types.Currency_String.
    destruct (String.eqb_spec c "") as [->|Hne]; split; try reflexivity;
      try discriminate; intros; contradiction.
  - intros u. unfold types.UUID_Value, types.UUID_IsNil.
    destruct (u =? uuid.Nil); reflexivity.
Qed.

End Empty.

(** [Value_of_empty] at a concrete input. *)
Lemma Value_of_empty_witness :
  types.Phone_Value "5562982870053" = (anyString "5562982870053", None).
Proof.
  destruct (@Value_of_empty sample.caseTables sample.uuidText) as (Hp & _).
  destruct (Hp "5562982870053") as (_ & Hv & _). apply Hv. discriminate.
Defined.

(** ** Nullable instants *)

Section NullableTimeOps.
Context `{time.Formats}.

(** X29.  SetNull yields the null value.  After Set the value is null
    exactly when the instant is the zero instant, and TimeOrZero yields the
    instant or the zero instant.  A null value marshals to null, which
    decodes to the null value.  SetNow of DeletedAt and of ArchivedAt marks
    the value present whatever the instant. *)
Theorem NullableTime_operations :
  (forall nt, types.NullableTime_SetNull nt = types.NewNullTime)
  /\ (forall nt t,
         types.NullableTime_TimeOrZero (types.NullableTime_Set nt t)
         = if time.IsZero t then time.zero else t)
  /\ (forall nt t,
         types.NullableTime_IsNullable (types.NullableTime_Set nt t) = time.IsZero t)
  /\ (forall nt, types.NullableTime_IsNullable nt = true ->
                 types.NullableTime_TimeOrZero nt = time.zero
                 /\ types.NullableTime_MarshalJSON nt = ("null", None)
                 /\ forall nt0,
                      types.NullableTime_UnmarshalJSON nt0
                        (fst (types.NullableTime_MarshalJSON nt))
                      = (types.NewNullTime, None))
  /\ (forall da now,
         types.DeletedAt_SetNow da now = types.NewDeletedAtNow now
         /\ types.DeletedAt_IsNullable (types.DeletedAt_SetNow da now) = false
         /\ types.DeletedAt_IsZero (types.DeletedAt_SetNow da now) = time.IsZero now)
  /\ (forall aa now,
         types.ArchivedAt_SetNow aa now = types.NewArchivedAtNow now
         /\ types.ArchivedAt_IsNullable (types.ArchivedAt_SetNow aa now) = false
         /\ types.ArchivedAt_IsZero (types.ArchivedAt_SetNow aa now) = time.IsZero now)
  /\ types.DeletedAt_IsNullable types.NewNilDeletedAt = true
  /\ types.ArchivedAt_IsNullable types.NewNilArchivedAt = true.
Proof.
  repeat apply conj; try reflexivity.
  - intros nt t. unfold types.NullableTime_TimeOrZero, types.NullableTime_Set.
    cbn [types.Valid types.Time]. destruct (time.IsZero t); reflexivity.
  - intros nt t. unfold types.NullableTime_IsNullable, types.NullableTime_Set.
    cbn [types.Valid]. apply negb_involutive.
  - intros [t valid]. unfold types.NullableTime_IsNullable. cbn [types.Valid].
    intros Hv. apply negb_true_iff in Hv. subst valid. repeat split.
  - intros da now. repeat split.
  - intros aa now. repeat split.
Qed.

End NullableTimeOps.

(** [NullableTime_operations] at a concrete input. *)
Lemma NullableTime_operations_witness :
  types.NullableTime_TimeOrZero (types.NewNullableTime (time.Date 2024 3 15 0 0 0 0 time.UTC) false)
  = time.zero.
Proof.
  destruct (@NullableTime_operations sample.timeFormats) as (_ & _ & _ & Hn & _).
  apply Hn. reflexivity.
Defined.

(** * Round trips of instants

    The writer and the reader of [sample.rfc3339Formats] meet
    [timeJsonSound]: what is written for an instant is read back as the
    instant. *)

Lemma pow10_pos (w : nat) : 0 < 10 ^ Z.of_nat w.
Proof. apply Z.pow_pos_nonneg; lia. Qed.

Lemma pow10_succ (w : nat) : 10 ^ Z.of_nat (S w) = 10 * 10 ^ Z.of_nat w.
Proof. rewrite Nat2Z.inj_succ, Z.pow_succ_r by lia. reflexivity. Qed.

Lemma head_digit (w : nat) (n : Z) :
  0 <= n < 10 ^ Z.of_nat (S w) ->
  0 <= n / 10 ^ Z.of_nat w < 10 /\ 0 <= n mod 10 ^ Z.of_nat w < 10 ^ Z.of_nat w.
Proof.
  intros Hn. rewrite pow10_succ in Hn. pose proof (pow10_pos w) as Hp.
  split; [|apply Z.mod_pos_bound; lia].
  split; [apply Z.div_pos; lia|]. apply Z.div_lt_upper_bound; lia.
Qed.

Lemma parseDigits_digit (d : Z) (s : list ascii) (acc : Z) :
  0 <= d < 10 ->
  strconv.parseDigits (strconv.digitChar d :: s) acc
  = strconv.parseDigits s (10 * acc + d).
Proof.
  intros Hd. cbn [strconv.parseDigits].
  rewrite digitChar_isDigit, digitChar_byte by assumption.
  f_equal. lia.
Qed.

Lemma appendInt_length (w : nat) (n : Z) : length (sample.appendInt w n) = w.
Proof.
  revert n. induction w as [|w IH]; intros n; simpl; [|rewrite IH]; reflexivity.
Qed.

Lemma appendInt_digits (w : nat) (n : Z) :
  0 <= n < 10 ^ Z.of_nat w ->
  Forall (fun c => isDigit c = true) (sample.appendInt w n).
Proof.
  revert n. induction w as [|w IH]; intros n Hn; [constructor|].
  destruct (head_digit w n Hn) as [Hd Hr]. cbn [sample.appendInt].
  constructor; [now apply digitChar_isDigit|now apply IH].
Qed.

Lemma appendInt_parse (w : nat) (n acc : Z) :
  0 <= n < 10 ^ Z.of_nat w ->
  strconv.parseDigits (sample.appendInt w n) acc = Some (acc * 10 ^ Z.of_nat w + n).
Proof.
  revert n acc. induction w as [|w IH]; intros n acc Hn.
  - simpl in *. f_equal. lia.
  - destruct (head_digit w n Hn) as [Hd Hr]. cbn [sample.appendInt].
    rewrite parseDigits_digit, IH by assumption. f_equal.
    rewrite pow10_succ. pose proof (pow10_pos w) as Hp.
    rewrite (Z.div_mod n (10 ^ Z.of_nat w)) at 3 by lia. ring.
Qed.

Lemma parseUint_appendInt (w : nat) (n lo hi : Z) :
  0 <= n < 10 ^ Z.of_nat w -> lo <= n <= hi ->
  sample.parseUint (sample.appendInt w n) lo hi = Some n.
Proof.
  intros Hn Hr. unfold sample.parseUint. rewrite appendInt_parse by assumption.
  replace (0 * 10 ^ Z.of_nat w + n) with n by ring.
  destruct (n <? lo) eqn:H1; [apply Z.ltb_lt in H1; lia|].
  destruct (hi <? n) eqn:H2; [apply Z.ltb_lt in H2; lia|]. reflexivity.
Qed.

Lemma fracDigits_spec (w : nat) (n acc : Z) :
  0 <= n < 10 ^ Z.of_nat w ->
  (length (sample.fracDigits w n) <= w)%nat
  /\ Forall (fun c => isDigit c = true) (sample.fracDigits w n)
  /\ exists v,
       strconv.parseDigits (sample.fracDigits w n) acc = Some v
       /\ v * 10 ^ (Z.of_nat w - Z.of_nat (length (sample.fracDigits w n)))
          = acc * 10 ^ Z.of_nat w + n.
Proof.
  revert n acc. induction w as [|w IH]; intros n acc Hn.
  - change (10 ^ Z.of_nat 0) with 1 in *. cbn [sample.fracDigits length].
    split; [lia|]. split; [constructor|].
    exists acc. split; [reflexivity|]. change (Z.of_nat 0 - Z.of_nat 0) with 0.
    rewrite Z.pow_0_r. lia.
  - cbn [sample.fracDigits]. destruct (Z.eqb_spec n 0) as [->|Hne].
    + split; [simpl; lia|]. split; [constructor|].
      exists acc. split; [reflexivity|].
      cbn [length]. change (Z.of_nat 0) with 0. rewrite Z.sub_0_r. lia.
    + destruct (head_digit w n Hn) as [Hd Hr].
      destruct (IH (n mod 10 ^ Z.of_nat w) (10 * acc + n / 10 ^ Z.of_nat w) Hr)
        as (Hlen & Hdig & v & Hv & Heq).
      split; [simpl; lia|].
      split; [constructor; [now apply digitChar_isDigit|assumption]|].
      exists v. rewrite parseDigits_digit by assumption. split; [exact Hv|].
      cbn [length].
      replace (Z.of_nat (S w)
               - Z.of_nat (S (length (sample.fracDigits w (n mod 10 ^ Z.of_nat w)))))
        with (Z.of_nat w
              - Z.of_nat (length (sample.fracDigits w (n mod 10 ^ Z.of_nat w))))
        by lia.
      rewrite Heq, pow10_succ. pose proof (pow10_pos w) as Hp.
      pose proof (Z.div_mod n (10 ^ Z.of_nat w) ltac:(lia)) as Hdm.
      set (q := n / 10 ^ Z.of_nat w) in *. set (r := n mod 10 ^ Z.of_nat w) in *.
      rewrite Hdm. ring.
Qed.

Lemma spanDigits_app (ds tail : list ascii) :
  Forall (fun c => isDigit c = true) ds ->
  match tail with [] => True | c :: _ => isDigit c = false end ->
  json.spanDigits (ds ++ tail) = (ds, tail).
Proof.
  intros Hd Ht. induction Hd as [|c ds Hc _ IH].
  - destruct tail as [|c tail]; [reflexivity|].
    cbn [app json.spanDigits]. now rewrite Ht.
  - cbn [app json.spanDigits]. now rewrite Hc, IH.
Qed.

Lemma appendZone_head (offset : Z) :
  exists c tail, sample.appendZone offset = c :: tail
                 /\ isDigit c = false /\ Ascii.eqb c "." = false.
Proof.
  unfold sample.appendZone. destruct (offset =? 0).
  - eexists _, _. repeat split.
  - cbv zeta. destruct (Z.quot offset 60 <? 0); eexists _, _; repeat split.
Qed.

Lemma parseFraction_appendNano (nsec offset : Z) :
  0 <= nsec < 1000000000 ->
  sample.parseFraction (sample.appendNano nsec ++ sample.appendZone offset)
  = (nsec, sample.appendZone offset).
Proof.
  intros Hn. destruct (appendZone_head offset) as (c & tail & Hz & Hc & Hdot).
  unfold sample.appendNano. destruct (Z.eqb_spec nsec 0) as [->|Hne].
  - cbn [app]. rewrite Hz. unfold sample.parseFraction.
    destruct tail; rewrite ?Hdot; reflexivity.
  - destruct (fracDigits_spec 9 nsec 0) as (Hlen & Hdig & v & Hv & Heq);
      [change (10 ^ Z.of_nat 9) with 1000000000; lia|].
    destruct (sample.fracDigits 9 nsec) as [|d ds] eqn:Hf.
    { exfalso. simpl in Hv, Heq. inversion Hv; subst v. simpl in Heq. lia. }
    cbn [app]. unfold sample.parseFraction. cbn [tl].
    change (Ascii.eqb "." ".") with true.
    inversion Hdig as [|? ? Hd Hds]; subst. rewrite Hd. cbn [andb].
    change (d :: ds ++ sample.appendZone offset)
      with ((d :: ds) ++ sample.appendZone offset).
    rewrite spanDigits_app; [|assumption|now rewrite Hz].
    f_equal. unfold sample.parseNanoseconds.
    rewrite firstn_all2 by exact Hlen. rewrite Hv.
    change (Z.of_nat 9) with 9 in Heq. lia.
Qed.

Lemma parseZone_appendZone (offset : Z) :
  offset mod 60 = 0 -> sample.zoneHour offset < 24 ->
  sample.parseZone (sample.appendZone offset) = Some offset.
Proof.
  intros Hm Hh. unfold sample.appendZone, sample.zoneHour in *.
  destruct (Z.eqb_spec offset 0) as [->|Hne]; [reflexivity|].
  cbv zeta in *.
  set (q := Z.quot offset 60) in *.
  assert (Hq : offset = 60 * q).
  { subst q. pose proof (Z.quot_rem' offset 60) as Hqr.
    pose proof (rem_zero offset 60 ltac:(lia)) as Hr.
    rewrite Hm in Hr. apply Z.eqb_eq in Hr. lia. }
  clearbody q.
  set (z := if q <? 0 then - q else q) in *.
  assert (Hz : 0 <= z /\ ((q <? 0) = true -> q = - z) /\ ((q <? 0) = false -> q = z)).
  { subst z. destruct (Z.ltb_spec q 0); repeat split; try lia; discriminate. }
  clearbody z. destruct Hz as (Hz0 & Hneg & Hpos).
  assert (H1 : 0 <= z / 60 < 10 ^ Z.of_nat 2)
    by (change (10 ^ Z.of_nat 2) with 100; Z.div_mod_to_equations; lia).
  assert (H2 : 0 <= z mod 60 < 10 ^ Z.of_nat 2)
    by (change (10 ^ Z.of_nat 2) with 100; Z.div_mod_to_equations; lia).
  pose proof (parseUint_appendInt 2 (z / 60) 0 23 H1 ltac:(lia)) as P1.
  pose proof (parseUint_appendInt 2 (z mod 60) 0 59 H2
                ltac:(Z.div_mod_to_equations; lia)) as P2.
  cbn [sample.appendInt] in P1, P2 |- *. cbn [app].
  unfold sample.parseZone. rewrite P1, P2.
  change (Ascii.eqb ":" ":") with true. cbn [negb].
  destruct (q <? 0) eqn:Hs.
  - change (Ascii.eqb "-" "-") with true. cbv iota. f_equal.
    rewrite Hq, (Hneg eq_refl). Z.div_mod_to_equations. lia.
  - change (Ascii.eqb "+" "-") with false. change (Ascii.eqb "+" "+") with true.
    cbv iota. f_equal. rewrite Hq, (Hpos eq_refl). Z.div_mod_to_equations. lia.
Qed.

Lemma parseRFC3339_fields (ys ms ds hs ns ss rest : list ascii) :
  length ys = 4%nat -> length ms = 2%nat -> length ds = 2%nat ->
  length hs = 2%nat -> length ns = 2%nat -> length ss = 2%nat ->
  sample.parseRFC3339
    (ys ++ "-"%char :: ms ++ "-"%char :: ds ++ "T"%char :: hs ++ ":"%char :: ns
        ++ ":"%char :: ss ++ rest)
  = match sample.parseUint ys 0 9999, sample.parseUint ms 1 12 with
    | Some year, Some month =>
      match sample.parseUint ds 1 (time.daysIn month year),
            sample.parseUint hs 0 23, sample.parseUint ns 0 59,
            sample.parseUint ss 0 59 with
      | Some day, Some hour, Some min, Some sec =>
        let '(nsec, s) := sample.parseFraction rest in
        let t := time.Date year month day hour min sec nsec time.UTC in
        match sample.parseZone s with
        | Some zoneOffset =>
          Some (time.mkTime (time.sec t - zoneOffset) (time.nsec t) zoneOffset)
        | None => None
        end
      | _, _, _, _ => None
      end
    | _, _ => None
    end.
Proof.
  intros Hys Hms Hds Hhs Hns Hss.
  destruct ys as [|y1 [|y2 [|y3 [|y4 [|]]]]]; try discriminate Hys.
  destruct ms as [|m1 [|m2 [|]]]; try discriminate Hms.
  destruct ds as [|d1 [|d2 [|]]]; try discriminate Hds.
  destruct hs as [|h1 [|h2 [|]]]; try discriminate Hhs.
  destruct ns as [|n1 [|n2 [|]]]; try discriminate Hns.
  destruct ss as [|s1 [|s2 [|]]]; try discriminate Hss.
  reflexivity.
Qed.

Lemma parse_format (t : time.Time) :
  wellFormed t -> wholeMinutes t ->
  0 <= time.Year t <= 9999 -> sample.zoneHour (time.loc t) < 24 ->
  sample.parseRFC3339 (sample.formatRFC3339 t) = Some t.
Proof.
  intros Hwf Hmin Hy Hz. unfold sample.formatRFC3339, time.Year in *.
  pose proof (absDate_valid (time.abs t)) as Hd.
  pose proof (Clock_range t) as Hc.
  destruct (time.absDate (time.abs t)) as [[y m] d].
  destruct (time.Clock t) as [[h mi] s].
  cbn [fst] in Hy. destruct Hd as ((Hm & Hday) & Hnum).
  destruct Hc as (Hh & Hmi & Hs & Hsum).
  pose proof (daysIn_range m y Hm) as Hin.
  rewrite parseRFC3339_fields by apply appendInt_length.
  assert (H4 : 10 ^ Z.of_nat 4 = 10000) by reflexivity.
  assert (H2 : 10 ^ Z.of_nat 2 = 100) by reflexivity.
  rewrite (parseUint_appendInt 4 y 0 9999) by lia.
  rewrite (parseUint_appendInt 2 m 1 12) by lia.
  rewrite (parseUint_appendInt 2 d 1 (time.daysIn m y)) by lia.
  rewrite (parseUint_appendInt 2 h 0 23) by lia.
  rewrite (parseUint_appendInt 2 mi 0 59) by lia.
  rewrite (parseUint_appendInt 2 s 0 59) by lia.
  rewrite parseFraction_appendNano by exact Hwf.
  rewrite parseZone_appendZone by assumption.
  rewrite Date_abs by (assumption || lia).
  unfold wrapMonth. destruct (Z.eqb_spec m 0); [lia|].
  destruct (Z.eqb_spec m 13); [lia|].
  cbn [fst snd time.sec time.nsec]. rewrite Hnum, Hsum.
  destruct t as [sec nsec loc]. unfold time.abs, time.UTC in *.
  cbn [time.sec time.loc time.nsec] in *.
  rewrite secondsPerDay_eq. clear Hsum Hnum.
  do 2 f_equal. Z.div_mod_to_equations. lia.
Qed.

Lemma appendZone_plain (offset : Z) :
  sample.zoneHour offset < 24 ->
  Forall (fun c => jsonPlain c = true) (sample.appendZone offset).
Proof.
  intros Hz. unfold sample.appendZone, sample.zoneHour in *.
  destruct (offset =? 0); [repeat constructor|]. cbv zeta in *.
  set (z := if Z.quot offset 60 <? 0 then - Z.quot offset 60
            else Z.quot offset 60) in *.
  assert (Hz0 : 0 <= z) by (subst z; destruct (Z.ltb_spec (Z.quot offset 60) 0); lia).
  clearbody z.
  assert (H2 : 10 ^ Z.of_nat 2 = 100) by reflexivity.
  assert (Hdig : forall n, 0 <= n < 100 ->
                   Forall (fun c => jsonPlain c = true) (sample.appendInt 2 n)).
  { intros n Hn. pose proof (digits_jsonPlain (str (sample.appendInt 2 n))) as Hp.
    rewrite bytes_str in Hp. apply Hp, appendInt_digits. lia. }
  constructor; [destruct (Z.quot offset 60 <? 0); reflexivity|].
  apply Forall_app. split; [apply Hdig; Z.div_mod_to_equations; lia|].
  constructor; [reflexivity|]. apply Hdig. Z.div_mod_to_equations. lia.
Qed.

Lemma formatRFC3339_plain (t : time.Time) :
  wellFormed t -> 0 <= time.Year t <= 9999 -> sample.zoneHour (time.loc t) < 24 ->
  Forall (fun c => jsonPlain c = true) (sample.formatRFC3339 t).
Proof.
  intros Hwf Hy Hz. unfold sample.formatRFC3339, time.Year in *.
  pose proof (absDate_valid (time.abs t)) as Hd.
  pose proof (Clock_range t) as Hc.
  destruct (time.absDate (time.abs t)) as [[y m] d].
  destruct (time.Clock t) as [[h mi] s].
  cbn [fst] in Hy. destruct Hd as ((Hm & Hday) & _).
  destruct Hc as (Hh & Hmi & Hs & _).
  pose proof (daysIn_range m y Hm) as Hin.
  assert (H4 : 10 ^ Z.of_nat 4 = 10000) by reflexivity.
  assert (H2 : 10 ^ Z.of_nat 2 = 100) by reflexivity.
  assert (Hdig : forall l, Forall (fun c => isDigit c = true) l ->
                           Forall (fun c => jsonPlain c = true) l).
  { intros l Hl. pose proof (digits_jsonPlain (str l)) as Hp.
    rewrite bytes_str in Hp. auto. }
  assert (Hnano : Forall (fun c => jsonPlain c = true)
                    (sample.appendNano (time.nsec t))).
  { unfold sample.appendNano. destruct (time.nsec t =? 0); [constructor|].
    constructor; [reflexivity|]. apply Hdig.
    apply (fracDigits_spec 9 (time.nsec t) 0).
    change (10 ^ Z.of_nat 9) with 1000000000. exact Hwf. }
  pose proof (appendZone_plain (time.loc t) Hz) as Hzone.
  apply Forall_app; split; [apply Hdig, appendInt_digits; lia|].
  constructor; [reflexivity|].
  apply Forall_app; split; [apply Hdig, appendInt_digits; lia|].
  constructor; [reflexivity|].
  apply Forall_app; split; [apply Hdig, appendInt_digits; lia|].
  constructor; [reflexivity|].
  apply Forall_app; split; [apply Hdig, appendInt_digits; lia|].
  constructor; [reflexivity|].
  apply Forall_app; split; [apply Hdig, appendInt_digits; lia|].
  constructor; [reflexivity|].
  apply Forall_app; split; [apply Hdig, appendInt_digits; lia|].
  apply Forall_app; split; assumption.
Qed.

Lemma sample_timeJsonSound : @timeJsonSound sample.rfc3339Formats.
Proof.
  intros t data Hwf Hmin. cbn [time.jsonMarshal time.jsonUnmarshal sample.rfc3339Formats].
  unfold sample.marshalTime, sample.unmarshalTime.
  destruct (Z.leb_spec 0 (time.Year t)); [|discriminate].
  destruct (Z.leb_spec (time.Year t) 9999); [|discriminate].
  destruct (Z.ltb_spec (sample.zoneHour (time.loc t)) 24); [|discriminate].
  cbn [andb]. intros Heq. inversion Heq; subst data. split.
  - apply String.eqb_neq, MarshalString_not_null.
  - rewrite parseString_MarshalString
      by (rewrite bytes_str; apply formatRFC3339_plain; (assumption || lia)).
    rewrite bytes_str. apply parse_format; (assumption || lia).
Qed.

(** The writer at the instant of the repository's tests, in two zones. *)
Example marshalTime_ex :
  sample.marshalTime (time.Date 2024 5 22 10 30 0 123456789 time.UTC)
  = Some (json.MarshalString "2024-05-22T10:30:00.123456789Z")
  /\ sample.marshalTime (time.Date 2024 5 22 10 30 0 120000000 (-10800))
     = Some (json.MarshalString "2024-05-22T10:30:00.12-03:00")
  /\ sample.marshalTime time.zero = Some (json.MarshalString "0001-01-01T00:00:00Z")
  /\ sample.marshalTime (time.Date 10000 1 1 0 0 0 0 time.UTC) = None.
Proof. vm_compute. repeat split. Qed.

